(** * Hybrid retrieval and reranking server: score fusion, deduplication,
      request defaults and failure handling.

    The development embeds the Express handlers of the retrieval server
    (deduplicate, summarize, search, bm25, hybrid, rerank) and the summarise
    step of the client's RAG workflow.

    Conventions of the embedding:
    - JavaScript numbers that hold scores, weights and thresholds are exact
      rationals ([Q]); equality of scores is [Qeq] ([==]).
    - a JavaScript [Map] keeps its keys in insertion order, so it is an
      association list with in-place update ([JS.map_set]);
    - a JavaScript [Set] of strings is the list of its distinct members in
      insertion order ([JS.new_Set]); its [size] is the length of that list;
    - strings are sequences of 8-bit code units; lower-casing and white
      space are those of the ASCII range;
    - a request body is a record of optional, typed properties: [None] is
      an omitted property, and a property of another JSON type has no
      counterpart here;
    - remote calls (MongoDB, embedding service, completion service) are
      answered by a [World] of oracles, and every handler runs in a small
      monad that logs the calls it makes and may throw;
    - wall-clock timings and timestamps of the responses are left out. *)

From Stdlib Require Import QArith Qminmax Qabs Qround Lqa Lia ZArith Ascii String List Permutation Sorted Bool.
From stdpp Require Import base gmap strings list pretty.

Local Open Scope string_scope.
Local Open Scope list_scope.

(** ** JavaScript library functions used by the handlers *)

Module JS.

(** [String.prototype.toLowerCase], on code units in the ASCII range. *)
Definition lower_char (c : ascii) : ascii :=
  let n := N_of_ascii c in
  if ((65 <=? n) && (n <=? 90))%N then ascii_of_N (n + 32) else c.

Fixpoint toLowerCase (s : string) : string :=
  match s with
  | EmptyString => EmptyString
  | String c s' => String (lower_char c) (toLowerCase s')
  end.

(** The class [\s] of a regular expression, on code units in the ASCII
    range: tab, line feed, vertical tab, form feed, carriage return, space. *)
Definition is_space (c : ascii) : bool :=
  let n := N_of_ascii c in
  (((9 <=? n) && (n <=? 13)) || (n =? 32))%N.

(** [s.split(/\s+/)]: the pieces between maximal runs of white space.  A
    leading or trailing run yields an empty piece, and the empty string
    yields one empty piece. [cur] is the piece being read (reversed) and
    [in_run] tells that the previous code unit was white space. *)
Fixpoint split_ws_from (s : string) (cur : list ascii) (in_run : bool) : list string :=
  match s with
  | EmptyString => [string_of_list_ascii (rev cur)]
  | String c s' =>
      if is_space c then
        if in_run then split_ws_from s' cur true
        else string_of_list_ascii (rev cur) :: split_ws_from s' [] true
      else split_ws_from s' (c :: cur) false
  end.

Definition split_ws (s : string) : list string := split_ws_from s [] false.

(** [Set.prototype.has] and [new Set(iterable)]. *)
Definition has (s : list string) (x : string) : bool :=
  bool_decide (x ∈ s).

Definition set_add (s : list string) (x : string) : list string :=
  if has s x then s else s ++ [x].

Definition new_Set (xs : list string) : list string :=
  fold_left set_add xs [].

(** An insertion-ordered [Map] with string keys. [map_set] replaces the
    value of a key that is present, in place, and appends a new key at the
    end. *)
Section OrderedMap.
Context {V : Type}.

Fixpoint map_get (m : list (string * V)) (k : string) : option V :=
  match m with
  | [] => None
  | (k', v) :: m' => if String.eqb k k' then Some v else map_get m' k
  end.

Definition map_has (m : list (string * V)) (k : string) : bool :=
  match map_get m k with Some _ => true | None => false end.

Fixpoint map_set (m : list (string * V)) (k : string) (v : V) : list (string * V) :=
  match m with
  | [] => [(k, v)]
  | (k', v') :: m' =>
      if String.eqb k k' then (k', v) :: m' else (k', v') :: map_set m' k v
  end.

Definition map_values (m : list (string * V)) : list V := map snd m.
Definition map_keys (m : list (string * V)) : list string := map fst m.
End OrderedMap.

(** [arr.slice(0, end)] for an integer [end]: a negative [end] counts from
    the end of the array. *)
Definition slice0 {A : Type} (arr : list A) (e : Z) : list A :=
  let len := Z.of_nat (length arr) in
  let final := if (e <? 0)%Z then Z.max (len + e) 0 else Z.min e len in
  firstn (Z.to_nat final) arr.

(** [arr.sort(compare)]. The sort is stable, and for a consistent comparator
    the stable sorted arrangement is unique; it is computed here by
    insertion. [compare a b > 0] places [b] before [a]. *)
Section Sort.
Context {A : Type} (compare : A -> A -> Q).

Fixpoint sort_insert (x : A) (l : list A) : list A :=
  match l with
  | [] => [x]
  | y :: l' =>
      if Qlt_le_dec 0 (compare x y) then y :: sort_insert x l'
      else x :: y :: l'
  end.

Definition sort (l : list A) : list A := fold_right sort_insert [] l.
End Sort.

(** [Math.min(...scores, last)] and [Math.max(...scores, last)] *)
Definition Math_min (scores : list Q) (last : Q) : Q := fold_right Qmin last scores.
Definition Math_max (scores : list Q) (last : Q) : Q := fold_right Qmax last scores.

(** [arr.forEach((x, index) => ...)] over a state, from a given index. *)
Fixpoint forEach_from {A St : Type} (f : St -> A -> nat -> St) (arr : list A)
    (index : nat) (s : St) : St :=
  match arr with
  | [] => s
  | x :: rest => forEach_from f rest (S index) (f s x index)
  end.

Definition forEach {A St : Type} (f : St -> A -> nat -> St) (arr : list A) (s : St) : St :=
  forEach_from f arr 0 s.

(** The value of an optional string when it is truthy: [!q] holds of a
    missing and of an empty string. *)
Definition truthy (q : option string) : option string :=
  match q with
  | Some "" | None => None
  | Some s => Some s
  end.

(** Sorting by a numeric key: the comparator [(a, b) => key(b) - key(a)],
    the order it produces, and the selection of the items with a given key. *)
Section Descending.
Context {A : Type} (key : A -> Q).

Definition descending (a b : A) : Q := (key b - key a)%Q.
Definition not_below (a b : A) : Prop := (key b <= key a)%Q.
Definition with_key (q : Q) (a : A) : bool := Qeq_bool (key a) q.
End Descending.

End JS.

(** ** POST /api/search/deduplicate *)

Module Dedup.

(** A search result as the endpoint reads it: [id] and [title] may be
    absent; every other property travels in [fields]. *)
Record Item := {
  id : option string;
  title : option string;
  fields : list (string * string)
}.

(** [calculateTextSimilarity]: both texts are lower-cased and split on white
    space into a [Set] of words; the result is the size of the intersection
    over the size of the union. *)
Definition calculateTextSimilarity (text1 text2 : string) : Q :=
  let words1 := JS.new_Set (JS.split_ws (JS.toLowerCase text1)) in
  let words2 := JS.new_Set (JS.split_ws (JS.toLowerCase text2)) in
  let intersection := JS.new_Set (List.filter (fun x => JS.has words2 x) words1) in
  let union := JS.new_Set (words1 ++ words2) in
  inject_Z (Z.of_nat (length intersection)) / inject_Z (Z.of_nat (length union)).

(** The words of an item's title as a finite set, the Jaccard index of two
    such sets, and the test that an item collides with a kept one. *)
Definition words (text : string) : gset string :=
  list_to_set (JS.split_ws (JS.toLowerCase text)).

Definition title_words (r : Item) : gset string := words (default "" (title r)).

Definition jaccard (a b : gset string) : Q :=
  inject_Z (Z.of_nat (size (a ∩ b))) / inject_Z (Z.of_nat (size (a ∪ b))).

Definition collides (threshold : Q) (x k : Item) : bool :=
  Qle_bool threshold (jaccard (title_words x) (title_words k)).

(** An entry of [duplicates]: the result spread, [duplicateOf] and
    [similarity] (which the code prints with three decimals). *)
Record Duplicate := {
  result : Item;
  duplicateOf : option string;
  similarity : Q
}.

Record LoopState := {
  deduplicated : list Item;
  duplicates : list Duplicate;
  seenTitles : list (string * Item)
}.

(** [result.title?.toLowerCase() || ''] *)
Definition lowered_title (r : Item) : string :=
  match title r with
  | Some t => JS.toLowerCase t
  | None => ""
  end.

(** The entry [seenTitles.set(title, result)] writes for a kept item. *)
Definition entry_of (k : Item) : string * Item := (lowered_title k, k).

(** The inner loop over [seenTitles.entries()]: it stops at the first entry
    whose similarity reaches the threshold. *)
Fixpoint first_collision (threshold : Q) (t : string)
    (entries : list (string * Item)) : option (Item * Q) :=
  match entries with
  | [] => None
  | (seenTitle, seenResult) :: rest =>
      let sim := calculateTextSimilarity t seenTitle in
      if Qle_bool threshold sim then Some (seenResult, sim)
      else first_collision threshold t rest
  end.

(** One iteration of the outer loop. *)
Definition visit (threshold : Q) (st : LoopState) (r : Item) : LoopState :=
  let t := lowered_title r in
  match first_collision threshold t (seenTitles st) with
  | Some (seenResult, sim) =>
      {| deduplicated := deduplicated st;
         duplicates := duplicates st ++
           [{| result := r; duplicateOf := id seenResult; similarity := sim |}];
         seenTitles := seenTitles st |}
  | None =>
      {| deduplicated := deduplicated st ++ [r];
         duplicates := duplicates st;
         seenTitles := JS.map_set (seenTitles st) t r |}
  end.

Definition start : LoopState :=
  {| deduplicated := []; duplicates := []; seenTitles := [] |}.

Definition walk (threshold : Q) (results : list Item) : LoopState :=
  fold_left (visit threshold) results start.

(** The request body: [results] is [None] when the property is missing or
    is not an array; [threshold] is [None] when it is omitted. *)
Record Body := {
  results : option (list Item);
  threshold : option Q
}.

(** [reductionPercentage] is [None] when the division is 0 / 0 (the code
    prints the number with one decimal). *)
Record Stats := {
  originalCount : nat;
  deduplicatedCount : nat;
  duplicatesRemoved : nat;
  reductionPercentage : option Q
}.

Definition percentage (part whole : nat) : option Q :=
  match whole with
  | O => None
  | _ => Some (inject_Z (Z.of_nat part) / inject_Z (Z.of_nat whole) * 100)%Q
  end.

(** The response body; [kept] and [removed] are its [deduplicated] and
    [duplicates] properties. *)
Record Payload := {
  original : list Item;
  kept : list Item;
  removed : list Duplicate;
  stats : Stats
}.

Inductive Response :=
| BadRequest (error : string)
| Json (p : Payload).

Definition status (r : Response) : nat :=
  match r with
  | BadRequest _ => 400
  | Json _ => 200
  end.

(** [const { results, threshold = 0.85 } = req.body] *)
Definition threshold_or_default (th : option Q) : Q :=
  match th with
  | Some q => q
  | None => 85 # 100
  end.

Definition deduplicate (body : Body) : Response :=
  match results body with
  | None => BadRequest "Results array is required"
  | Some rs =>
      let st := walk (threshold_or_default (threshold body)) rs in
      Json {| original := rs;
              kept := deduplicated st;
              removed := duplicates st;
              stats := {| originalCount := length rs;
                          deduplicatedCount := length (deduplicated st);
                          duplicatesRemoved := length (duplicates st);
                          reductionPercentage :=
                            percentage (length (duplicates st)) (length rs) |} |}
  end.

End Dedup.

(** ** Remote calls and the handler monad *)

Module Effects.

(** A stored document as a search stage returns it: the ObjectId (as the
    string [_id.toString()] gives), the test-case [id], the score that
    [$addFields] attached ([bm25Score] or [vectorScore], by the stage), and
    the remaining properties. *)
Record Doc := {
  _id : string;
  id : option string;
  score : Q;
  fields : list (string * string)
}.

Definition Filters := list (string * string).

(** The [$search] stage: one boosted, fuzzy text clause per field in a
    compound query (rerank), or one fuzzy text query over a list of paths
    (hybrid). *)
Inductive SearchStage :=
| Compound (should : list (string * Q))
| Text (path : list string).

(** A BM25 aggregation: [$search], [$limit], then [$match] when filters are
    given. *)
Record Bm25Pipeline := {
  bm25_query : string;
  bm25_stage : SearchStage;
  bm25_limit : Z;
  bm25_match : option Filters
}.

Record VectorPipeline := {
  queryVector : list Q;
  numCandidates : Z;
  vector_limit : Z;
  vector_filter : option Filters
}.

(** What a promise settles to. *)
Inductive Outcome (A : Type) :=
| Rejected (message : string)
| Resolved (a : A).
Arguments Rejected {A} message.
Arguments Resolved {A} a.

(** The body of the embedding service's reply, when [axios.post] resolves;
    a missing cost or token count reads as 0. *)
Record EmbeddingData := {
  emb_status : Z;
  emb_message : string;
  emb_embedding : list Q;
  emb_cost : Q;
  emb_total_tokens : Z
}.

(** What the handler reads in the completion service's reply: the text of
    the first choice, the usage and the cost of the transaction. *)
Record Completion := {
  content : string;
  prompt_tokens : Z;
  completion_tokens : Z;
  total_tokens : Z;
  cost : Q
}.

Inductive IndexName := BM25_INDEX_NAME | VECTOR_INDEX_NAME.

(** The calls a handler makes, in the order it makes them. *)
Inductive Call :=
| MongoConnect
| ValidateIndex (index : IndexName)
| EmbeddingPost (input : string)
| Bm25Aggregate (p : Bm25Pipeline)
| VectorAggregate (p : VectorPipeline)
| MongoClose
| CompletionPost (summaryType : string) (count : nat).

(** The environment of the server. [embedding_post n input] answers the
    call made after [n] earlier embedding calls of the same request, so a
    service that recovers after some failures can be described.
    [validateDbCollectionIndex] catches every error of the driver calls it
    makes and returns [{ ok: true }] ([None]) or [{ ok: false, error }].
    [completion_post] resolves to [None] when the reply has no
    [transaction.response]. Closing the client always succeeds. *)
Record World := {
  USER_EMAIL : option string;
  AUTH_TOKEN : option string;
  mongo_connect : Outcome unit;
  validateDbCollectionIndex : IndexName -> option string;
  embedding_post : nat -> string -> Outcome EmbeddingData;
  bm25_aggregate : Bm25Pipeline -> Outcome (list Doc);
  vector_aggregate : VectorPipeline -> Outcome (list Doc);
  completion_post : string -> nat -> Outcome (option Completion)
}.

(** A computation reads the log of calls made so far, extends it, and
    either throws an [Error] with a message or returns. *)
Definition M (A : Type) : Type := list Call -> list Call * Outcome A.

#[export] Instance M_ret : MRet M := fun A a log => (log, Resolved a).

#[export] Instance M_bind : MBind M := fun A B k m log =>
  match m log with
  | (log', Resolved a) => k a log'
  | (log', Rejected e) => (log', Rejected e)
  end.

Definition throw {A} (message : string) : M A := fun log => (log, Rejected message).

(** [await p], where starting [p] is the call [c]. *)
Definition await {A} (c : Call) (p : Outcome A) : M A :=
  fun log => (log ++ [c], p).

(** The error in which the first embedding call of a request ends, if it
    does: the call is rejected, or the reply's [status] is not 200. *)
Definition first_embedding_error (w : World) (input : string) : option string :=
  match embedding_post w 0 input with
  | Rejected e => Some e
  | Resolved emb =>
      if (emb_status emb =? 200)%Z then None
      else Some ("Testleaf API error: " +:+ emb_message emb)
  end.

(** The completion service never delivers a summary. *)
Definition completion_fails (w : World) : Prop :=
  forall (summaryType : string) (n : nat) (c : Completion),
    completion_post w summaryType n <> Resolved (Some c).

Definition is_embedding_post (c : Call) : bool :=
  match c with EmbeddingPost _ => true | _ => false end.

Definition embedding_calls (log : list Call) : nat :=
  length (List.filter is_embedding_post log).

Definition post_embedding (w : World) (input : string) : M EmbeddingData :=
  fun log =>
    await (EmbeddingPost input) (embedding_post w (embedding_calls log) input) log.

(** [await Promise.all([a, b])]: both calls are started; the result is
    rejected when one of them is. *)
Definition await_all {A B} (ca : Call) (pa : Outcome A) (cb : Call) (pb : Outcome B)
  : M (A * B) :=
  fun log =>
    (log ++ [ca; cb],
     match pa, pb with
     | Resolved a, Resolved b => Resolved (a, b)
     | Rejected e, _ => Rejected e
     | _, Rejected e => Rejected e
     end).

(** [try { body } catch (error) { handler(error.message) }], run from an
    empty log. *)
Definition try_catch {A} (body : M A) (handler : string -> A) : list Call * A :=
  match body [] with
  | (log, Resolved a) => (log, a)
  | (log, Rejected e) => (log, handler e)
  end.

End Effects.


(** ** POST /api/search/rerank *)

Module Rerank.
Import Effects.

(** The request body; [None] is an omitted property. *)
Module Req.
Record Body := {
  query : option string;
  limit : option Z;
  filters : option Filters;
  fusionMethod : option string;
  rerankTopK : option Z;
  bm25Weight : option Q;
  vectorWeight : option Q
}.
End Req.

(** The destructured body, defaults applied. *)
Record Params := {
  query : option string;
  limit : Z;
  filters : Filters;
  fusionMethod : string;
  rerankTopK : Z;
  bm25Weight : Q;
  vectorWeight : Q
}.

Definition destructure (b : Req.Body) : Params :=
  {| query := Req.query b;
     limit := default 10%Z (Req.limit b);
     filters := default [] (Req.filters b);
     fusionMethod := default "rrf" (Req.fusionMethod b);
     rerankTopK := default 50%Z (Req.rerankTopK b);
     bm25Weight := default (4 # 10) (Req.bm25Weight b);
     vectorWeight := default (6 # 10) (Req.vectorWeight b) |}.

Inductive FoundIn := bm25 | vector | both.

(** A value of [resultMap]: the spread document and the fields set on it. *)
Record Merged := {
  doc : Doc;
  bm25Score : Q;
  bm25Normalized : Q;
  bm25Rank : option nat;
  vectorScore : Q;
  vectorNormalized : Q;
  vectorRank : option nat;
  foundIn : FoundIn
}.

Definition normalizeBM25 (score minScore maxScore : Q) : Q :=
  if Qeq_bool maxScore minScore then 1%Q
  else ((score - minScore) / (maxScore - minScore))%Q.

Definition normalizeVector (score minScore maxScore : Q) : Q :=
  if Qeq_bool maxScore minScore then 1%Q
  else ((score - minScore) / (maxScore - minScore))%Q.

Definition add_bm25 (minBM25 maxBM25 : Q) (resultMap : list (string * Merged))
    (d : Doc) (index : nat) : list (string * Merged) :=
  let normalizedScore := normalizeBM25 (score d) minBM25 maxBM25 in
  JS.map_set resultMap (_id d)
    {| doc := d;
       bm25Score := score d;
       bm25Normalized := normalizedScore;
       bm25Rank := Some (index + 1);
       vectorScore := 0%Q;
       vectorNormalized := 0%Q;
       vectorRank := None;
       foundIn := bm25 |}.

Definition add_vector (minVector maxVector : Q) (resultMap : list (string * Merged))
    (d : Doc) (index : nat) : list (string * Merged) :=
  let normalizedScore := normalizeVector (score d) minVector maxVector in
  match JS.map_get resultMap (_id d) with
  | Some existing =>
      JS.map_set resultMap (_id d)
        {| doc := doc existing;
           bm25Score := bm25Score existing;
           bm25Normalized := bm25Normalized existing;
           bm25Rank := bm25Rank existing;
           vectorScore := score d;
           vectorNormalized := normalizedScore;
           vectorRank := Some (index + 1);
           foundIn := both |}
  | None =>
      JS.map_set resultMap (_id d)
        {| doc := d;
           bm25Score := 0%Q;
           bm25Normalized := 0%Q;
           bm25Rank := None;
           vectorScore := score d;
           vectorNormalized := normalizedScore;
           vectorRank := Some (index + 1);
           foundIn := vector |}
  end.

(** Step 2 up to [Array.from(resultMap.values())]. *)
Definition allResults (bm25Results vectorResults : list Doc) : list Merged :=
  let bm25Scores := map score bm25Results in
  let vectorScores := map score vectorResults in
  let minBM25 := JS.Math_min bm25Scores 0%Q in
  let maxBM25 := JS.Math_max bm25Scores 1%Q in
  let minVector := JS.Math_min vectorScores 0%Q in
  let maxVector := JS.Math_max vectorScores 1%Q in
  let resultMap := JS.forEach (add_bm25 minBM25 maxBM25) bm25Results [] in
  let resultMap := JS.forEach (add_vector minVector maxVector) vectorResults resultMap in
  JS.map_values resultMap.

(** A fused document; [fusionComponents] are the two summands (the code
    prints them with four decimals). *)
Record Fused := {
  merged : Merged;
  fusedScore : Q;
  fusionComponents : Q * Q
}.

(** [rank ? f(rank) : 0]: [null] and [0] are falsy. *)
Definition if_rank (rank : option nat) (f : nat -> Q) : Q :=
  match rank with
  | Some (S n) => f (S n)
  | _ => 0%Q
  end.

Definition of_nat (n : nat) : Q := inject_Z (Z.of_nat n).

Definition rrf (d : Merged) : Fused :=
  let k := 60%Q in
  let bm25RRF := if_rank (bm25Rank d) (fun r => 1 / (k + of_nat r))%Q in
  let vectorRRF := if_rank (vectorRank d) (fun r => 1 / (k + of_nat r))%Q in
  {| merged := d; fusedScore := (bm25RRF + vectorRRF)%Q;
     fusionComponents := (bm25RRF, vectorRRF) |}.

Definition weighted (bm25Weight vectorWeight : Q) (d : Merged) : Fused :=
  {| merged := d;
     fusedScore := (bm25Normalized d * bm25Weight + vectorNormalized d * vectorWeight)%Q;
     fusionComponents :=
       ((bm25Normalized d * bm25Weight)%Q, (vectorNormalized d * vectorWeight)%Q) |}.

Definition reciprocal (bm25Weight vectorWeight : Q) (d : Merged) : Fused :=
  let bm25Reciprocal := if_rank (bm25Rank d) (fun r => (1 / of_nat r) * bm25Weight)%Q in
  let vectorReciprocal := if_rank (vectorRank d) (fun r => (1 / of_nat r) * vectorWeight)%Q in
  {| merged := d; fusedScore := (bm25Reciprocal + vectorReciprocal)%Q;
     fusionComponents := (bm25Reciprocal, vectorReciprocal) |}.

(** The request [b] with another [fusionMethod]. *)
Definition with_method (b : Req.Body) (method : option string) : Req.Body :=
  {| Req.query := Req.query b;
     Req.limit := Req.limit b;
     Req.filters := Req.filters b;
     Req.fusionMethod := method;
     Req.rerankTopK := Req.rerankTopK b;
     Req.bm25Weight := Req.bm25Weight b;
     Req.vectorWeight := Req.vectorWeight b |}.

(** The [if / else if] chain on [fusionMethod]; [fusedResults] starts as
    the empty array and no branch handles another method. *)
Definition fuse (fusionMethod : string) (bm25Weight vectorWeight : Q)
    (all : list Merged) : list Fused :=
  if String.eqb fusionMethod "rrf" then map rrf all
  else if String.eqb fusionMethod "weighted" then map (weighted bm25Weight vectorWeight) all
  else if String.eqb fusionMethod "reciprocal" then map (reciprocal bm25Weight vectorWeight) all
  else [].

(** [fusedResults.sort((a, b) => b.fusedScore - a.fusedScore)] *)
Definition by_fusedScore (a b : Fused) : Q := (fusedScore b - fusedScore a)%Q.

Record Ranked := {
  fused : Fused;
  newRank : nat;
  originalRank : nat;
  rankChange : Z
}.

(** [a || b] on ranks *)
Definition rank_or (a : option nat) (b : nat) : nat :=
  match a with
  | Some (S n) => S n
  | _ => b
  end.

Definition add_ranking (index : nat) (d : Fused) : Ranked :=
  let newRank := index + 1 in
  let originalRank :=
    rank_or (bm25Rank (merged d)) (rank_or (vectorRank (merged d)) (index + 1)) in
  {| fused := d; newRank := newRank; originalRank := originalRank;
     rankChange := (Z.of_nat originalRank - Z.of_nat newRank)%Z |}.

Definition fusedResults (p : Params) (bm25Results vectorResults : list Doc) : list Ranked :=
  imap add_ranking
    (JS.sort by_fusedScore
       (fuse (fusionMethod p) (bm25Weight p) (vectorWeight p)
          (allResults bm25Results vectorResults))).

(** [averageFusedScore] is [None] when no result is returned (the code
    prints the number with four decimals). *)
Record Stats := {
  foundInBoth : nat;
  foundInBm25Only : nat;
  foundInVectorOnly : nat;
  topResultChanged : bool;
  significantReorderings : nat;
  averageFusedScore : option Q
}.

Definition average (scores : list Q) : option Q :=
  match scores with
  | [] => None
  | _ => Some (fold_left Qplus scores 0 / inject_Z (Z.of_nat (length scores)))%Q
  end.

(** The response body, without the timings and the timestamp. *)
Record Payload := {
  success : bool;
  out_fusionMethod : string;
  out_query : string;
  out_filters : Filters;
  results : list Ranked;
  beforeReranking : list Doc;
  afterReranking : list Ranked;
  count : nat;
  totalCandidates : nat;
  out_rerankTopK : Z;
  out_cost : Q;
  out_tokens : Z;
  weights : Q * Q;
  stats : Stats
}.

Definition found (f : FoundIn) (r : Ranked) : bool :=
  match foundIn (merged (fused r)), f with
  | bm25, bm25 | vector, vector | both, both => true
  | _, _ => false
  end.

Definition ranked_id (r : Ranked) : option string := id (doc (merged (fused r))).

Definition respond (p : Params) (q : string) (bm25Results vectorResults : list Doc)
    (embeddingCost : Q) (embeddingTokens : Z) : Payload :=
  let fusedResults := fusedResults p bm25Results vectorResults in
  let beforeResults :=
    JS.slice0 (if String.eqb (fusionMethod p) "rrf" then vectorResults else bm25Results)
      (limit p) in
  let afterResults := JS.slice0 fusedResults (limit p) in
  {| success := true;
     out_fusionMethod := fusionMethod p;
     out_query := q;
     out_filters := filters p;
     results := afterResults;
     beforeReranking := beforeResults;
     afterReranking := afterResults;
     count := length afterResults;
     totalCandidates := length fusedResults;
     out_rerankTopK := rerankTopK p;
     out_cost := embeddingCost;
     out_tokens := embeddingTokens;
     weights := (bm25Weight p, vectorWeight p);
     stats :=
       {| foundInBoth := length (List.filter (found both) fusedResults);
          foundInBm25Only := length (List.filter (found bm25) fusedResults);
          foundInVectorOnly := length (List.filter (found vector) fusedResults);
          topResultChanged :=
            negb (bool_decide ((head beforeResults ≫= id) = (head afterResults ≫= ranked_id)));
          significantReorderings :=
            length (List.filter (fun r => (5 <=? Z.abs (rankChange r))%Z) afterResults);
          averageFusedScore :=
            average (map (fun r => fusedScore (fused r)) afterResults) |} |}.

Inductive Response :=
| BadRequest (error : string)
| Json (p : Payload)
| ServerError (error details : string).

Definition status (r : Response) : nat :=
  match r with
  | BadRequest _ => 400
  | Json _ => 200
  | ServerError _ _ => 500
  end.

(** The [weights] object of the BM25 pipeline, in property order. *)
Definition field_weights : list (string * Q) :=
  [("id", 10 # 1); ("title", 8 # 1); ("module", 5 # 1); ("description", 2 # 1);
   ("expectedResults", 15 # 10); ("steps", 1 # 1); ("preRequisites", 8 # 10)].

(** [Object.keys(filters).length > 0] *)
Definition given (f : Filters) : option Filters :=
  match f with
  | [] => None
  | _ => Some f
  end.

Definition bm25Pipeline (p : Params) (q : string) : Bm25Pipeline :=
  {| bm25_query := q;
     bm25_stage := Compound field_weights;
     bm25_limit := rerankTopK p;
     bm25_match := given (filters p) |}.

Definition vectorPipeline (p : Params) (queryVector : list Q) : VectorPipeline :=
  {| queryVector := queryVector;
     numCandidates := Z.max (rerankTopK p * 2) 100;
     vector_limit := rerankTopK p;
     vector_filter := given (filters p) |}.

Definition search (w : World) (p : Params) (q : string) : M Response :=
  _ ← await MongoConnect (mongo_connect w);
  embeddingResponse ← post_embedding w q;
  if negb (emb_status embeddingResponse =? 200)%Z then
    throw ("Testleaf API error: " +:+ emb_message embeddingResponse)
  else
    let queryVector := emb_embedding embeddingResponse in
    let embeddingCost := emb_cost embeddingResponse in
    let embeddingTokens := emb_total_tokens embeddingResponse in
    '(bm25Results, vectorResults) ←
      await_all (Bm25Aggregate (bm25Pipeline p q)) (bm25_aggregate w (bm25Pipeline p q))
                (VectorAggregate (vectorPipeline p queryVector))
                (vector_aggregate w (vectorPipeline p queryVector));
    let payload := respond p q bm25Results vectorResults embeddingCost embeddingTokens in
    _ ← await MongoClose (Resolved ());
    mret (Json payload).

Definition handler (w : World) (body : Req.Body) : list Call * Response :=
  let p := destructure body in
  match JS.truthy (query p) with
  | None => ([], BadRequest "Query is required")
  | Some q => try_catch (search w p q) (ServerError "Reranking failed")
  end.

End Rerank.

(** ** POST /api/search/hybrid *)

Module Hybrid.
Import Effects.

Module Req.
Record Body := {
  query : option string;
  limit : option Z;
  filters : option Filters;
  bm25Weight : option Q;
  vectorWeight : option Q;
  bm25Fields : option (list string)
}.
End Req.

Record Params := {
  query : option string;
  limit : Z;
  filters : Filters;
  bm25Weight : Q;
  vectorWeight : Q;
  bm25Fields : list string
}.

Definition destructure (b : Req.Body) : Params :=
  {| query := Req.query b;
     limit := default 10%Z (Req.limit b);
     filters := default [] (Req.filters b);
     bm25Weight := default (5 # 10) (Req.bm25Weight b);
     vectorWeight := default (5 # 10) (Req.vectorWeight b);
     bm25Fields :=
       default ["id"; "title"; "description"; "steps"; "expectedResults"; "module"]
         (Req.bm25Fields b) |}.

Inductive FoundIn := bm25 | vector | both.

Record Combined := {
  doc : Doc;
  bm25Score : Q;
  bm25ScoreNormalized : Q;
  vectorScore : Q;
  vectorScoreNormalized : Q;
  hybridScore : Q;
  foundIn : FoundIn
}.

(** [max - min || 1] *)
Definition range (max min : Q) : Q :=
  if Qeq_bool (max - min) 0 then 1%Q else (max - min)%Q.

Definition add_bm25 (bm25Min bm25Range bm25Weight : Q) (resultMap : list (string * Combined))
    (r : Doc) (index : nat) : list (string * Combined) :=
  let normalizedScore := ((score r - bm25Min) / bm25Range)%Q in
  JS.map_set resultMap (_id r)
    {| doc := r;
       bm25Score := score r;
       bm25ScoreNormalized := normalizedScore;
       vectorScore := 0%Q;
       vectorScoreNormalized := 0%Q;
       hybridScore := (normalizedScore * bm25Weight)%Q;
       foundIn := bm25 |}.

Definition add_vector (vectorMin vectorRange vectorWeight : Q)
    (resultMap : list (string * Combined)) (r : Doc) (index : nat)
  : list (string * Combined) :=
  let normalizedScore := ((score r - vectorMin) / vectorRange)%Q in
  match JS.map_get resultMap (_id r) with
  | Some existing =>
      JS.map_set resultMap (_id r)
        {| doc := doc existing;
           bm25Score := bm25Score existing;
           bm25ScoreNormalized := bm25ScoreNormalized existing;
           vectorScore := score r;
           vectorScoreNormalized := normalizedScore;
           hybridScore := (hybridScore existing + normalizedScore * vectorWeight)%Q;
           foundIn := both |}
  | None =>
      JS.map_set resultMap (_id r)
        {| doc := r;
           bm25Score := 0%Q;
           bm25ScoreNormalized := 0%Q;
           vectorScore := score r;
           vectorScoreNormalized := normalizedScore;
           hybridScore := (normalizedScore * vectorWeight)%Q;
           foundIn := vector |}
  end.

Definition by_hybridScore (a b : Combined) : Q := (hybridScore b - hybridScore a)%Q.

Definition foundIn_string (f : FoundIn) : string :=
  match f with
  | bm25 => "bm25"
  | vector => "vector"
  | both => "both"
  end.

(** [result[key]] for a filter key, when it is a string: the test-case id,
    the [foundIn] tag or a stored property. *)
Definition property (r : Combined) (key : string) : option string :=
  if String.eqb key "id" then id (doc r)
  else if String.eqb key "foundIn" then Some (foundIn_string (foundIn r))
  else snd <$> List.find (fun kv => String.eqb key (fst kv)) (fields (doc r)).

(** The filter callback: an empty value matches everything. *)
Definition matches (filters : Filters) (r : Combined) : bool :=
  forallb (fun kv =>
      if String.eqb (snd kv) "" then true
      else bool_decide (property r (fst kv) = Some (snd kv)))
    filters.

(** Step 3: normalise, combine, sort, filter, limit. *)
Definition combinedResults (p : Params) (bm25Results vectorResults : list Doc)
  : list Combined :=
  let bm25Scores := map score bm25Results in
  let bm25Max := JS.Math_max bm25Scores 1%Q in
  let bm25Min := JS.Math_min bm25Scores 0%Q in
  let bm25Range := range bm25Max bm25Min in
  let vectorScores := map score vectorResults in
  let vectorMax := JS.Math_max vectorScores 1%Q in
  let vectorMin := JS.Math_min vectorScores 0%Q in
  let vectorRange := range vectorMax vectorMin in
  let resultMap :=
    JS.forEach (add_bm25 bm25Min bm25Range (bm25Weight p)) bm25Results [] in
  let resultMap :=
    JS.forEach (add_vector vectorMin vectorRange (vectorWeight p)) vectorResults
      resultMap in
  let combinedResults := JS.sort by_hybridScore (JS.map_values resultMap) in
  match filters p with
  | [] => combinedResults
  | f => List.filter (matches f) combinedResults
  end.

Definition found (f : FoundIn) (r : Combined) : bool :=
  match foundIn r, f with
  | bm25, bm25 | vector, vector | both, both => true
  | _, _ => false
  end.

(** The response body, without the timings and the timestamp. *)
Record Payload := {
  success : bool;
  out_query : string;
  out_filters : Filters;
  weights : Q * Q;
  results : list Combined;
  count : nat;
  foundInBoth : nat;
  foundInBm25Only : nat;
  foundInVectorOnly : nat;
  bm25ResultCount : nat;
  vectorResultCount : nat;
  out_cost : Q;
  out_tokens : Z
}.

Inductive Response :=
| BadRequest (error : string)
| Json (p : Payload)
| ServerError (error details : string).

Definition status (r : Response) : nat :=
  match r with
  | BadRequest _ => 400
  | Json _ => 200
  | ServerError _ _ => 500
  end.

(** [searchLimit = parseInt(limit) * 3] *)
Definition searchLimit (p : Params) : Z := (limit p * 3)%Z.

Definition bm25Pipeline (p : Params) (q : string) : Bm25Pipeline :=
  {| bm25_query := q;
     bm25_stage := Text (bm25Fields p);
     bm25_limit := searchLimit p;
     bm25_match := None |}.

Definition vectorPipeline (p : Params) (queryVector : list Q) : VectorPipeline :=
  {| queryVector := queryVector;
     numCandidates := Z.max (searchLimit p * 2) 200;
     vector_limit := searchLimit p;
     vector_filter := None |}.

Definition search (w : World) (p : Params) (q : string) : M Response :=
  _ ← await MongoConnect (mongo_connect w);
  bm25Validation ←
    await (ValidateIndex BM25_INDEX_NAME) (Resolved (validateDbCollectionIndex w BM25_INDEX_NAME));
  vectorValidation ←
    await (ValidateIndex VECTOR_INDEX_NAME)
      (Resolved (validateDbCollectionIndex w VECTOR_INDEX_NAME));
  match bm25Validation, vectorValidation with
  | Some error, _ =>
      _ ← await MongoClose (Resolved ());
      mret (BadRequest ("BM25 Index: " +:+ error))
  | None, Some error =>
      _ ← await MongoClose (Resolved ());
      mret (BadRequest ("Vector Index: " +:+ error))
  | None, None =>
      bm25Results ←
        await (Bm25Aggregate (bm25Pipeline p q)) (bm25_aggregate w (bm25Pipeline p q));
      embeddingResponse ← post_embedding w q;
      if negb (emb_status embeddingResponse =? 200)%Z then
        throw ("Testleaf API error: " +:+ emb_message embeddingResponse)
      else
        let queryVector := emb_embedding embeddingResponse in
        vectorResults ←
          await (VectorAggregate (vectorPipeline p queryVector))
            (vector_aggregate w (vectorPipeline p queryVector));
        let finalResults :=
          JS.slice0 (combinedResults p bm25Results vectorResults) (limit p) in
        _ ← await MongoClose (Resolved ());
        mret (Json {| success := true;
                      out_query := q;
                      out_filters := filters p;
                      weights := (bm25Weight p, vectorWeight p);
                      results := finalResults;
                      count := length finalResults;
                      foundInBoth := length (List.filter (found both) finalResults);
                      foundInBm25Only := length (List.filter (found bm25) finalResults);
                      foundInVectorOnly :=
                        length (List.filter (found vector) finalResults);
                      bm25ResultCount := length bm25Results;
                      vectorResultCount := length vectorResults;
                      out_cost := emb_cost embeddingResponse;
                      out_tokens := emb_total_tokens embeddingResponse |})
  end.

Definition handler (w : World) (body : Req.Body) : list Call * Response :=
  let p := destructure body in
  match JS.truthy (query p) with
  | None => ([], BadRequest "Query is required")
  | Some q => try_catch (search w p q) (ServerError "Hybrid search failed")
  end.

End Hybrid.

(** ** POST /api/search and POST /api/search/bm25: the destructured body *)

Module Search.
Import Effects.

Module Req.
Record Body := {
  query : option string;
  limit : option Z;
  filters : option Filters
}.
End Req.

Record Params := {
  query : option string;
  limit : Z;
  filters : Filters
}.

Definition destructure (b : Req.Body) : Params :=
  {| query := Req.query b;
     limit := default 5%Z (Req.limit b);
     filters := default [] (Req.filters b) |}.

End Search.

Module Bm25.
Import Effects.

Module Req.
Record Body := {
  query : option string;
  limit : option Z;
  filters : option Filters;
  fields : option (list string)
}.
End Req.

Record Params := {
  query : option string;
  limit : Z;
  filters : Filters;
  fields : list string
}.

Definition destructure (b : Req.Body) : Params :=
  {| query := Req.query b;
     limit := default 10%Z (Req.limit b);
     filters := default [] (Req.filters b);
     fields :=
       default ["id"; "title"; "description"; "steps"; "expectedResults"; "module"]
         (Req.fields b) |}.

End Bm25.

(** ** POST /api/search/summarize *)

Module Summarize.
Import Effects.

(** The request body: [results] is [None] when the property is missing or
    is not an array. The prompt sent to the completion service is assembled
    from [results] and [summaryType] alone, so the call is logged with the
    summary type and the number of results. *)
Record Body := {
  results : option (list Dedup.Item);
  summaryType : option string
}.

Record Tokens := {
  prompt : Z;
  completion : Z;
  total : Z
}.

(** The cost split of the response (the code prints each part with six
    decimals); the answer for an empty array has the plain cost 0. *)
Record Cost := {
  input : Q;
  output : Q;
  total_cost : Q
}.

Definition split_cost (totalCost : Q) : Cost :=
  {| input := (totalCost * (15 # 100))%Q;
     output := (totalCost * (85 # 100))%Q;
     total_cost := totalCost |}.

Record Payload := {
  summary : string;
  tokens : Tokens;
  out_cost : Cost;
  out_summaryType : option string
}.

Inductive Response :=
| BadRequest (error : string)
| Json (p : Payload)
| ServerError (error details : string).

Definition status (r : Response) : nat :=
  match r with
  | BadRequest _ => 400
  | Json _ => 200
  | ServerError _ _ => 500
  end.

Definition is_set (v : option string) : bool :=
  match v with
  | Some "" | None => false
  | Some _ => true
  end.

(** [TESTLEAF_API_BASE] falls back to a fixed URL, so only the other two
    settings can be missing. *)
Definition summarise (w : World) (rs : list Dedup.Item) (summaryType : string)
  : M Response :=
  if negb (is_set (USER_EMAIL w) && is_set (AUTH_TOKEN w)) then
    throw "TESTLEAF_API_BASE, USER_EMAIL, and AUTH_TOKEN are required for summarization feature"
  else
    response ← await (CompletionPost summaryType (length rs))
                 (completion_post w summaryType (length rs));
    match response with
    | None => throw "Unexpected API response structure"
    | Some openaiResponse =>
        mret (Json {| summary := content openaiResponse;
                      tokens := {| prompt := prompt_tokens openaiResponse;
                                   completion := completion_tokens openaiResponse;
                                   total := total_tokens openaiResponse |};
                      out_cost := split_cost (cost openaiResponse);
                      out_summaryType := Some summaryType |})
    end.

Definition handler (w : World) (body : Body) : list Call * Response :=
  let summaryType := default "detailed" (summaryType body) in
  match results body with
  | None => ([], BadRequest "Results array is required")
  | Some [] =>
      ([], Json {| summary := "No results to summarize";
                   tokens := {| prompt := 0; completion := 0; total := 0 |};
                   out_cost := {| input := 0; output := 0; total_cost := 0 |};
                   out_summaryType := None |})
  | Some rs => try_catch (summarise w rs summaryType) (ServerError "Failed to summarize results")
  end.

End Summarize.

(** ** The client's RAG workflow, [handleLlmRagTest] *)

Module Workflow.
Import Effects.

(** What [fetch] settles to: a rejection (the server is unreachable) or a
    response with its status and, when the body has the shape of a success,
    the parsed body. *)
Inductive Fetched (A : Type) :=
| Unreachable (message : string)
| Responded (status : nat) (json : option A).
Arguments Unreachable {A} message.
Arguments Responded {A} status json.

(** [response.ok] *)
Definition ok (status : nat) : bool := ((200 <=? status) && (status <=? 299))%nat.

Record SearchData := { results : option (list Dedup.Item) }.
Record DedupData := { deduplicated : option (list Dedup.Item) }.
Record SummaryData := { summary : option string }.

(** The server as the browser sees it. The summarize route is the handler
    above; the other routes answer as given. *)
Record Server := {
  world : World;
  preprocess : string -> Fetched (option string);
  hybrid : string -> Fetched SearchData;
  rerank : string -> Fetched SearchData;
  deduplicate : list Dedup.Item -> Q -> Fetched DedupData
}.

Definition fetch_summarize (s : Server) (rs : list Dedup.Item) (summaryType : string)
  : Fetched SummaryData :=
  match snd (Summarize.handler (world s)
               {| Summarize.results := Some rs;
                  Summarize.summaryType := Some summaryType |}) with
  | Summarize.Json p => Responded 200 (Some {| summary := Some (Summarize.summary p) |})
  | r => Responded (Summarize.status r) None
  end.

(** The component's state that the workflow writes: the progress bar and
    the result. A step reads the progress values set so far, adds its own,
    and either throws or returns. *)
Definition W (A : Type) : Type := list nat -> list nat * Outcome A.

#[export] Instance W_ret : MRet W := fun A a log => (log, Resolved a).

#[export] Instance W_bind : MBind W := fun A B k m log =>
  match m log with
  | (log', Resolved a) => k a log'
  | (log', Rejected e) => (log', Rejected e)
  end.

Definition setGenerationProgress (n : nat) : W unit :=
  fun log => (log ++ [n], Resolved ()).

Definition throw {A} (message : string) : W A := fun log => (log, Rejected message).

(** [await fetch(...)]: a rejected fetch throws. *)
Definition await_fetch {A} (r : Fetched A) : W (nat * option A) :=
  match r with
  | Unreachable e => throw e
  | Responded st j => mret (st, j)
  end.

(** [const { embedding, ...rest } = r] *)
Definition without_embedding (r : Dedup.Item) : Dedup.Item :=
  {| Dedup.id := Dedup.id r;
     Dedup.title := Dedup.title r;
     Dedup.fields :=
       List.filter (fun kv => negb (String.eqb (fst kv) "embedding")) (Dedup.fields r) |}.

(** [s.trim() === ''] on code units in the ASCII range. *)
Fixpoint blank (s : string) : bool :=
  match s with
  | EmptyString => true
  | String c s' => JS.is_space c && blank s'
  end.

(** [x || fallback] on an optional string *)
Definition or_string (x : option string) (fallback : string) : string :=
  match x with
  | Some "" | None => fallback
  | Some s => s
  end.

Inductive Result (R : Type) :=
| Failed (message : string)
| Finished (r : R).
Arguments Failed {R} message.
Arguments Finished {R} r.

Section Steps.
(** Steps 7 to 10 (prompt assembly, generation, validation, display) run
    after the summary is received; they are taken as given. *)
Context {R : Type}.
Variable generate : string -> list Dedup.Item -> SummaryData -> W R.

(** Steps 1 to 5: validate, preprocess, search, rerank, deduplicate. *)
Definition candidates (s : Server) (testQuery : string) : W (list Dedup.Item) :=
  _ ← setGenerationProgress 5;
  if blank testQuery then throw "User story input is required" else
  _ ← setGenerationProgress 10;
  '(st, processed) ← await_fetch (preprocess s testQuery);
  let finalQuery :=
    if ok st then or_string (mjoin processed) testQuery else testQuery in
  _ ← setGenerationProgress 20;
  '(st, searchData) ← await_fetch (hybrid s finalQuery);
  if negb (ok st) then throw ("Search failed: " +:+ pretty st) else
  let found := default [] (searchData ≫= results) in
  _ ← setGenerationProgress 35;
  '(st, rerankData) ← await_fetch (rerank s finalQuery);
  let rerankedResults :=
    if ok st then default [] (rerankData ≫= results)
    else JS.slice0 found 10 in
  _ ← setGenerationProgress 45;
  if (5 <? length rerankedResults)%nat then
    '(st, dedupData) ←
      await_fetch (deduplicate s (map without_embedding rerankedResults) (95 # 100));
    mret (if ok st then default rerankedResults (dedupData ≫= deduplicated)
          else rerankedResults)
  else mret rerankedResults.

(** Step 6 and what follows it. *)
Definition summarise (s : Server) (testQuery : string) (topResults : list Dedup.Item)
  : W R :=
  _ ← setGenerationProgress 55;
  let topResultsForSummary := map without_embedding (JS.slice0 topResults 5) in
  '(st, summaryData) ← await_fetch (fetch_summarize s topResultsForSummary "detailed");
  if negb (ok st) then throw ("Summarization failed: " +:+ pretty st) else
  generate testQuery topResults (default {| summary := None |} summaryData).

Definition steps (s : Server) (testQuery : string) : W R :=
  finalResults ← candidates s testQuery;
  let topResults := JS.slice0 finalResults 10 in
  match topResults with
  | [] => throw "No search results found for the user story after deduplication"
  | _ => summarise s testQuery topResults
  end.

(** The progress bar is set to 0, then the steps run inside
    [try / catch]: a thrown error becomes the result
    [{ error: true, message }] and resets the progress bar to 0. *)
Definition handleLlmRagTest (s : Server) (testQuery : string) : list nat * Result R :=
  match steps s testQuery [0] with
  | (progress, Resolved r) => (progress, Finished r)
  | (progress, Rejected e) => (progress ++ [0], Failed e)
  end.
End Steps.

End Workflow.

(** ** Statements about ranks, used by the theorems on fusion *)

Module Ranks.
Import Effects Rerank.

(** The key under which a document is merged. *)
Definition key (m : Merged) : string := _id (doc m).

(** [rank] is a 1-based position of the candidate [k] in [docs], with the
    raw score found there, or [k] does not occur in [docs]. *)
Definition ranked_at (docs : list Doc) (k : string) (rank : option nat) (raw : Q) : Prop :=
  match rank with
  | Some n => exists d, (1 <= n)%nat /\ docs !! (n - 1)%nat = Some d /\ _id d = k /\ score d = raw
  | None => (forall d, d ∈ docs -> _id d <> k) /\ raw = 0%Q
  end.

(** The contribution of one source under reciprocal rank fusion. *)
Definition rrf_term (rank : option nat) : Q :=
  match rank with
  | Some n => (1 / (60 + of_nat n))%Q
  | None => 0%Q
  end.

(** What holds of a merged candidate once the lexical documents [b] and
    the dense documents [v] have been processed: its ranks and raw scores
    are those of its positions in the two lists, and its normalised scores
    come from the two pairs of bounds. *)
Definition merged_ok (b v : list Doc) (lo_b hi_b lo_v hi_v : Q) (m : Merged) : Prop :=
  ranked_at b (key m) (bm25Rank m) (bm25Score m) /\
  ranked_at v (key m) (vectorRank m) (vectorScore m) /\
  bm25Normalized m =
    match bm25Rank m with
    | Some _ => normalizeBM25 (bm25Score m) lo_b hi_b
    | None => 0%Q
    end /\
  vectorNormalized m =
    match vectorRank m with
    | Some _ => normalizeVector (vectorScore m) lo_v hi_v
    | None => 0%Q
    end.

(** The state of [resultMap] after the lexical documents [b] and the dense
    documents [v]: its keys are the distinct ids in order of first
    appearance, and every entry is stored under its own key. *)
Definition map_ok (b v : list Doc) (lo_b hi_b lo_v hi_v : Q)
    (resultMap : list (string * Merged)) : Prop :=
  JS.map_keys resultMap =
    fold_left JS.set_add (map _id v) (JS.new_Set (map _id b)) /\
  forall e, e ∈ resultMap ->
    key (snd e) = fst e /\ merged_ok b v lo_b hi_b lo_v hi_v (snd e).

(** Min-max normalisation with the bounds anchored at 0 and 1: what holds
    of the normalised score of a candidate found in [docs] with raw score
    [raw], and of one that is absent. *)
Definition anchored (docs : list Doc) (rank : option nat) (raw normalised : Q) : Prop :=
  let lo := JS.Math_min (map score docs) 0 in
  let hi := JS.Math_max (map score docs) 1 in
  (lo <= 0)%Q /\ (1 <= hi)%Q /\
  match rank with
  | Some _ =>
      (normalised == (raw - lo) / (hi - lo))%Q /\
      (0 <= normalised <= 1)%Q /\
      ((normalised == 1)%Q <->
       ((1 <= raw)%Q /\ forall d, d ∈ docs -> (score d <= raw)%Q))
  | None => normalised = 0%Q
  end.

(** The order that a tie-break by original rank and then by id would give:
    [x] may stand before [y]. *)
Definition tie_break_before (x y : Ranked) : Prop :=
  (fusedScore (fused y) < fusedScore (fused x))%Q \/
  ((fusedScore (fused x) == fusedScore (fused y))%Q /\
   ((originalRank x < originalRank y)%nat \/
    (originalRank x = originalRank y /\
     String.leb (default "" (ranked_id x)) (default "" (ranked_id y)) = true))).

End Ranks.

(** ** Concrete requests and environments *)

Module Examples.
Import Effects.

Definition item (i t : string) : Dedup.Item :=
  {| Dedup.id := Some i; Dedup.title := Some t; Dedup.fields := [] |}.

Definition five_items : list Dedup.Item :=
  [item "TC_1" "Login page loads";
   item "TC_2" "Patient consent verification";
   item "TC_3" "Report delivery";
   item "TC_4" "patient  CONSENT verification";
   item "TC_5" "Logout"].

Definition document (i : string) (s : Q) : Doc :=
  {| _id := i; id := Some i; score := s; fields := [] |}.

Definition embedding_ok : EmbeddingData :=
  {| emb_status := 200; emb_message := ""; emb_embedding := [1 # 2; 1 # 3];
     emb_cost := 1 # 1000; emb_total_tokens := 7 |}.

Definition lexical : list Doc := [document "x" 3; document "y" 2; document "z" 1].
Definition dense : list Doc :=
  [document "y" (9 # 10); document "w" (8 # 10); document "x" (5 # 10)].

(** Every remote call succeeds. *)
Definition healthy : World :=
  {| USER_EMAIL := Some "qa@example.org";
     AUTH_TOKEN := Some "token";
     mongo_connect := Resolved ();
     validateDbCollectionIndex := fun _ => None;
     embedding_post := fun _ _ => Resolved embedding_ok;
     bm25_aggregate := fun _ => Resolved lexical;
     vector_aggregate := fun _ => Resolved dense;
     completion_post := fun _ _ =>
       Resolved (Some {| content := "Stories are testable."; prompt_tokens := 120;
                         completion_tokens := 30; total_tokens := 150;
                         cost := 2 # 1000 |}) |}.

(** The embedding service rejects the first call of a request and answers
    every later one. *)
Definition flaky_embedding : World :=
  {| USER_EMAIL := USER_EMAIL healthy;
     AUTH_TOKEN := AUTH_TOKEN healthy;
     mongo_connect := Resolved ();
     validateDbCollectionIndex := fun _ => None;
     embedding_post := fun n _ =>
       match n with
       | O => Rejected "Request failed with status code 503"
       | _ => Resolved embedding_ok
       end;
     bm25_aggregate := bm25_aggregate healthy;
     vector_aggregate := vector_aggregate healthy;
     completion_post := completion_post healthy |}.

(** The completion service is unreachable. *)
Definition summariser_down : World :=
  {| USER_EMAIL := USER_EMAIL healthy;
     AUTH_TOKEN := AUTH_TOKEN healthy;
     mongo_connect := Resolved ();
     validateDbCollectionIndex := fun _ => None;
     embedding_post := embedding_post healthy;
     bm25_aggregate := bm25_aggregate healthy;
     vector_aggregate := vector_aggregate healthy;
     completion_post := fun _ _ => Rejected "timeout of 30000ms exceeded" |}.

Definition rerank_body (q : string) (method : option string) : Rerank.Req.Body :=
  {| Rerank.Req.query := Some q;
     Rerank.Req.limit := None;
     Rerank.Req.filters := None;
     Rerank.Req.fusionMethod := method;
     Rerank.Req.rerankTopK := None;
     Rerank.Req.bm25Weight := None;
     Rerank.Req.vectorWeight := None |}.

Definition hybrid_body (q : string) : Hybrid.Req.Body :=
  {| Hybrid.Req.query := Some q;
     Hybrid.Req.limit := None;
     Hybrid.Req.filters := None;
     Hybrid.Req.bm25Weight := None;
     Hybrid.Req.vectorWeight := None;
     Hybrid.Req.bm25Fields := None |}.

Definition search_body (q : string) : Search.Req.Body :=
  {| Search.Req.query := Some q; Search.Req.limit := None; Search.Req.filters := None |}.

Definition bm25_body (q : string) : Bm25.Req.Body :=
  {| Bm25.Req.query := Some q; Bm25.Req.limit := None; Bm25.Req.filters := None;
     Bm25.Req.fields := None |}.

(** Dense candidates whose best cosine score is 0.8, and two lists whose
    best candidates tie. *)
Definition cosine_below_one : list Doc := [document "a" (8 # 10); document "b" (5 # 10)].
Definition lexical_pair : list Doc := [document "p" 2; document "q" 1].
Definition dense_single : list Doc := [document "r" (1 # 2)].

(** Two sources whose only candidates tie under reciprocal rank fusion. *)
Definition lexical_b : list Doc := [document "b" 3].
Definition dense_a : list Doc := [document "a" (1 # 2)].

(** Equal weights, for a tie between a lexical and a dense candidate. *)
Definition even_weights : Rerank.Params :=
  {| Rerank.query := Some "consent";
     Rerank.limit := 10;
     Rerank.filters := [];
     Rerank.fusionMethod := "weighted";
     Rerank.rerankTopK := 50;
     Rerank.bm25Weight := 1 # 2;
     Rerank.vectorWeight := 1 # 2 |}.

(** A browser whose server has an unreachable completion service. *)
Definition results_of (docs : list string) : Workflow.Fetched Workflow.SearchData :=
  Workflow.Responded 200
    (Some {| Workflow.results := Some (map (fun i => item i ("title " +:+ i)) docs) |}).

Definition degraded_server : Workflow.Server :=
  {| Workflow.world := summariser_down;
     Workflow.preprocess := fun q => Workflow.Responded 200 (Some (Some q));
     Workflow.hybrid := fun _ => results_of ["a"; "b"; "c"];
     Workflow.rerank := fun _ => results_of ["b"; "a"; "c"];
     Workflow.deduplicate := fun rs _ =>
       Workflow.Responded 200 (Some {| Workflow.deduplicated := Some rs |}) |}.

(** Later steps that do nothing, to run the workflow up to the summary. *)
Definition no_generation
  : string -> list Dedup.Item -> Workflow.SummaryData -> Workflow.W unit :=
  fun _ _ _ progress => (progress, Resolved ()).

(** The default request and the candidate that reciprocal rank fusion puts
    first for the two lists above. *)
Definition defaults : Rerank.Params := Rerank.destructure (rerank_body "consent" None).

Definition top_candidate : Rerank.Ranked :=
  Eval vm_compute in
    match Rerank.fusedResults defaults lexical dense with
    | r :: _ => r
    | [] =>
        Rerank.add_ranking 0
          (Rerank.rrf
             {| Rerank.doc := document "" 0; Rerank.bm25Score := 0;
                Rerank.bm25Normalized := 0; Rerank.bm25Rank := None;
                Rerank.vectorScore := 0; Rerank.vectorNormalized := 0;
                Rerank.vectorRank := None; Rerank.foundIn := Rerank.both |})
    end.

Definition top_merged : Rerank.Merged :=
  Eval vm_compute in
    match Rerank.allResults lexical dense with
    | m :: _ => m
    | [] => Rerank.merged (Rerank.fused top_candidate)
    end.

End Examples.

(** ** Statements about the hybrid combination *)

Module HybridSpec.
Import Effects.

(** What holds of a combined candidate with key [k] for one source, once
    the documents [docs] of that source have been processed: either some
    document of [docs] has the key, and the raw and normalised scores are
    those of such a document, or none has it and both scores are 0. *)
Definition source_ok (docs : list Doc) (lo rng : Q) (k : string) (raw normalised : Q)
  : Prop :=
  (exists d, d ∈ docs /\ _id d = k /\ raw = score d /\
             normalised = ((score d - lo) / rng)%Q) \/
  ((forall d, d ∈ docs -> _id d <> k) /\ raw = 0%Q /\ normalised = 0%Q).

Definition combined_ok (b v : list Doc) (lo_b rng_b lo_v rng_v wb wv : Q)
    (m : Hybrid.Combined) : Prop :=
  source_ok b lo_b rng_b (_id (Hybrid.doc m))
    (Hybrid.bm25Score m) (Hybrid.bm25ScoreNormalized m) /\
  source_ok v lo_v rng_v (_id (Hybrid.doc m))
    (Hybrid.vectorScore m) (Hybrid.vectorScoreNormalized m) /\
  (Hybrid.hybridScore m ==
   Hybrid.bm25ScoreNormalized m * wb + Hybrid.vectorScoreNormalized m * wv)%Q.

Definition map_ok (b v : list Doc) (lo_b rng_b lo_v rng_v wb wv : Q)
    (resultMap : list (string * Hybrid.Combined)) : Prop :=
  JS.map_keys resultMap =
    fold_left JS.set_add (map _id v) (JS.new_Set (map _id b)) /\
  forall e, e ∈ resultMap ->
    _id (Hybrid.doc (snd e)) = fst e /\
    combined_ok b v lo_b rng_b lo_v rng_v wb wv (snd e).

End HybridSpec.

(** ** Further environments *)

Module MoreExamples.
Import Effects.

(** The dense index is missing; everything else answers. *)
Definition no_vector_index : World :=
  {| USER_EMAIL := USER_EMAIL Examples.healthy;
     AUTH_TOKEN := AUTH_TOKEN Examples.healthy;
     mongo_connect := Resolved ();
     validateDbCollectionIndex := fun i =>
       match i with
       | BM25_INDEX_NAME => None
       | VECTOR_INDEX_NAME =>
           Some "Search index 'vector_index' not found for collection 'testcases'"
       end;
     embedding_post := embedding_post Examples.healthy;
     bm25_aggregate := bm25_aggregate Examples.healthy;
     vector_aggregate := vector_aggregate Examples.healthy;
     completion_post := completion_post Examples.healthy |}.

(** A browser whose server answers the searches and the summary but fails
    to preprocess, rerank and deduplicate. *)
Definition partly_down : Workflow.Server :=
  {| Workflow.world := Examples.healthy;
     Workflow.preprocess := fun _ => Workflow.Responded 500 None;
     Workflow.hybrid := fun _ =>
       Examples.results_of ["a"; "b"; "c"; "d"; "e"; "f"; "g"];
     Workflow.rerank := fun _ => Workflow.Responded 500 None;
     Workflow.deduplicate := fun _ _ => Workflow.Responded 500 None |}.

(** The best hybrid result for the two example lists under the defaults. *)
Definition top_hybrid : Hybrid.Combined :=
  Eval vm_compute in
    match Hybrid.combinedResults (Hybrid.destructure (Examples.hybrid_body "consent"))
            Examples.lexical Examples.dense with
    | m :: _ => m
    | [] =>
        {| Hybrid.doc := Examples.document "" 0; Hybrid.bm25Score := 0;
           Hybrid.bm25ScoreNormalized := 0; Hybrid.vectorScore := 0;
           Hybrid.vectorScoreNormalized := 0; Hybrid.hybridScore := 0;
           Hybrid.foundIn := Hybrid.both |}
    end.

End MoreExamples.

(** ** The job registry and the background embedding job *)

Module Jobs.

(** One entry of a job's [results]: [output] is present for a completed
    file and [error] for a failed one. *)
Record FileResult := {
  file : string;
  file_status : string;
  output : option string;
  error : option string
}.

(** A job record; times are milliseconds since the epoch. [currentFile] is
    [None] for [null] and [endTime] is [None] while the property is absent. *)
Record Job := {
  id : string;
  files : list string;
  status : string;
  progress : nat;
  total : nat;
  results : list FileResult;
  startTime : Z;
  currentFile : option string;
  endTime : option Z
}.

(** The objects passed to [updateJob]: [None] is a property the object
    does not have. *)
Record Updates := {
  set_status : option string;
  set_progress : option nat;
  set_results : option (list FileResult);
  set_currentFile : option string;
  set_endTime : option Z
}.

Definition no_updates : Updates :=
  {| set_status := None; set_progress := None; set_results := None;
     set_currentFile := None; set_endTime := None |}.

(** [Object.assign(job, updates)] *)
Definition assign (job : Job) (u : Updates) : Job :=
  {| id := id job;
     files := files job;
     status := default (status job) (set_status u);
     progress := default (progress job) (set_progress u);
     total := total job;
     results := default (results job) (set_results u);
     startTime := startTime job;
     currentFile :=
       match set_currentFile u with
       | Some f => Some f
       | None => currentFile job
       end;
     endTime :=
       match set_endTime u with
       | Some t => Some t
       | None => endTime job
       end |}.

(** The [jobs] map, in insertion order. *)
Definition Registry : Type := list (string * Job).

(** [Map.prototype.delete] *)
Fixpoint map_delete (m : Registry) (k : string) : Registry :=
  match m with
  | [] => []
  | (k', v) :: m' => if String.eqb k k' then m' else (k', v) :: map_delete m' k
  end.

(** [createJob(files)], where [now] is [Date.now()] (also the value of
    [new Date()]) and [random] the nine characters drawn from
    [Math.random()]. *)
Definition createJob (now : Z) (random : string) (fs : list string) (jobs : Registry)
  : string * Registry :=
  let jobId := "job-" +:+ pretty now +:+ "-" +:+ random in
  (jobId,
   JS.map_set jobs jobId
     {| id := jobId;
        files := fs;
        status := "in-progress";
        progress := 0;
        total := length fs;
        results := [];
        startTime := now;
        currentFile := None;
        endTime := None |}).

Definition updateJob (jobId : string) (updates : Updates) (jobs : Registry) : Registry :=
  match JS.map_get jobs jobId with
  | Some job => JS.map_set jobs jobId (assign job updates)
  | None => jobs
  end.

Definition getJob (jobs : Registry) (jobId : string) : option Job :=
  JS.map_get jobs jobId.

(** The periodic clean-up, run at time [now]: it walks the entries and
    deletes every job that started more than one hour before. *)
Definition sweep (now : Z) (jobs : Registry) : Registry :=
  let oneHourAgo := (now - 60 * 60 * 1000)%Z in
  fold_left
    (fun m e => if (startTime (snd e) <? oneHourAgo)%Z then map_delete m (fst e) else m)
    jobs jobs.

(** [GET /api/jobs/active] *)
Definition activeJobs (jobs : Registry) : list Job :=
  List.filter (fun job => String.eqb (status job) "in-progress") (JS.map_values jobs).

(** [GET /api/jobs/:jobId] *)
Inductive Response :=
| NotFound (error : string)
| Found (job : Job).

Definition job_status (jobs : Registry) (jobId : string) : Response :=
  match getJob jobs jobId with
  | None => NotFound "Job not found"
  | Some job => Found job
  end.

Definition http_status (r : Response) : nat :=
  match r with
  | NotFound _ => 404
  | Found _ => 200
  end.

(** How the script spawned for one file ends: the child closes with an
    exit code, its output and its error output, or the promise around it
    is rejected. Writing and removing the temporary script succeed. *)
Inductive ScriptRun :=
| Exited (code : Z) (out err : string)
| SpawnFailed (message : string).

(** [error || output] *)
Definition or_output (err out : string) : string :=
  match err with
  | "" => out
  | _ => err
  end.

Definition result_of (fileName : string) (r : ScriptRun) : FileResult :=
  match r with
  | Exited code out err =>
      if (code =? 0)%Z then
        {| file := fileName; file_status := "completed"; output := Some out;
           error := None |}
      else
        {| file := fileName; file_status := "failed"; output := None;
           error := Some (or_output err out) |}
  | SpawnFailed message =>
      {| file := fileName; file_status := "failed"; output := None;
         error := Some message |}
  end.

(** One turn of the loop of [processEmbeddings] over the pair of the local
    [results] array and the registry. *)
Definition process_file (run : string -> ScriptRun) (jobId : string)
    (st : list FileResult * Registry) (fileName : string)
  : list FileResult * Registry :=
  let '(rs, jobs) := st in
  let jobs :=
    updateJob jobId
      {| set_status := None; set_progress := None; set_results := None;
         set_currentFile := Some fileName; set_endTime := None |} jobs in
  let rs := rs ++ [result_of fileName (run fileName)] in
  (rs,
   updateJob jobId
     {| set_status := None; set_progress := Some (length rs); set_results := Some rs;
        set_currentFile := None; set_endTime := None |} jobs).

(** [processEmbeddings(jobId, files)], with no other request in between;
    [finished] is the time at which the job is marked complete. *)
Definition processEmbeddings (run : string -> ScriptRun) (finished : Z)
    (jobId : string) (fs : list string) (jobs : Registry) : Registry :=
  let '(rs, jobs) := fold_left (process_file run jobId) fs ([], jobs) in
  updateJob jobId
    {| set_status := Some "completed"; set_progress := None; set_results := Some rs;
       set_currentFile := None; set_endTime := Some finished |} jobs.

End Jobs.

Module JobExamples.
Import Jobs.

Definition two_files : list string := ["login.json"; "consent.json"].

(** The script fails for the first file and succeeds for the second. *)
Definition first_fails (fileName : string) : ScriptRun :=
  if String.eqb fileName "login.json" then Exited 1 "" "Error: connection refused"
  else Exited 0 "Processed 3/3" "".

(** A registry with one job created at time 1000 and one at time 5000000. *)
Definition registry : Registry :=
  snd (createJob 5000000 "k3v9x0a1q" ["consent.json"]
         (snd (createJob 1000 "abc123xyz" two_files []))).

Definition old_id : string := fst (createJob 1000 "abc123xyz" two_files []).

End JobExamples.

(** ** The next test-case id, [GET /api/testcases/latest-id] *)

Module LatestId.
Import Effects.

(** [\d] *)
Definition is_digit (c : ascii) : bool :=
  let n := N_of_ascii c in ((48 <=? n) && (n <=? 57))%N.

(** What [\d+] consumes at the start of [s]: the longest run of digits. *)
Fixpoint digits (s : string) : string :=
  match s with
  | String c s' => if is_digit c then String c (digits s') else ""
  | EmptyString => ""
  end.

(** [/^\d*$/.test(s)] *)
Fixpoint all_digits (s : string) : bool :=
  match s with
  | EmptyString => true
  | String c s' => is_digit c && all_digits s'
  end.

(** [s.match(/TC_(\d+)/)]: the capture group of the leftmost match, if the
    expression matches at all. *)
Fixpoint match_TC (s : string) : option string :=
  match s with
  | EmptyString => None
  | String c s' =>
      match s with
      | String "T" (String "C" (String "_" rest)) =>
          match digits rest with
          | EmptyString => match_TC s'
          | ds => Some ds
          end
      | _ => match_TC s'
      end
  end.

Definition digit_value (c : ascii) : N := (N_of_ascii c - 48)%N.

(** [parseInt(s, 10)] on a string of digits. The value is exact as long as
    it is below 2^53, the range in which every integer is a number. *)
Fixpoint parseInt_from (acc : N) (s : string) : N :=
  match s with
  | EmptyString => acc
  | String c s' => parseInt_from (acc * 10 + digit_value c) s'
  end.

Definition parseInt (s : string) : N := parseInt_from 0 s.

Definition exact : N := (2 ^ 53)%N.

Fixpoint repeat_char (c : ascii) (n : nat) : string :=
  match n with
  | O => ""
  | S n' => String c (repeat_char c n')
  end.

(** [s.padStart(n, c)] *)
Definition padStart (n : nat) (c : ascii) (s : string) : string :=
  repeat_char c (n - String.length s) +:+ s.

(** The number in a stored id; [id] is [None] when the document has none.
    An empty id is falsy and is skipped like a missing one. *)
Definition numId (id : option string) : option N :=
  match id with
  | None | Some EmptyString => None
  | Some s => parseInt <$> match_TC s
  end.

(** One turn of [testCases.forEach(...)] on [maxId]. *)
Definition larger (maxId : N) (id : option string) : N :=
  match numId id with
  | Some n => if (maxId <? n)%N then n else maxId
  | None => maxId
  end.

Definition maxId (ids : list (option string)) : N := fold_left larger ids 0%N.

Record Payload := {
  latestId : N;
  nextId : N;
  nextTestCaseId : string;
  totalTestCases : nat
}.

Definition latest (ids : list (option string)) : Payload :=
  {| latestId := maxId ids;
     nextId := (maxId ids + 1)%N;
     nextTestCaseId := "TC_" +:+ padStart 4 "0" (pretty (maxId ids + 1)%N);
     totalTestCases := length ids |}.

Inductive Response :=
| Json (p : Payload)
| ServerError (error details : string).

(** [found] is what connecting and reading the ids of all documents
    settles to. *)
Definition handler (found : Outcome (list (option string))) : Response :=
  match found with
  | Resolved ids => Json (latest ids)
  | Rejected e => ServerError "Failed to fetch latest test case ID" e
  end.

(** Ids of a collection in which one id is not of the usual form. *)
Definition stored : list (option string) :=
  [Some "TC_0007"; None; Some "draft"; Some "TC_0123"; Some "old-TC_45x"; Some ""].

End LatestId.

(** ** The batch embedding script, [create-embeddings-batch.js] *)

Module Batch.
Import Effects.

Section Script.
(** A test case of the input file and an embedding vector are passed on as
    they are. *)
Context {Testcase Embedding : Type}.

(** [embeddingResponse.data]: [data] holds, per input, the [embedding]
    property of the element ([None] when the element has none); [cost] and
    [total_tokens] are 0 when the reply has none. *)
Record BatchData := {
  status : Z;
  message : string;
  data : list (option Embedding);
  cost : Q;
  total_tokens : Z;
  model : string
}.

(** [createdAt] is left out. *)
Record Metadata := {
  meta_model : string;
  meta_cost : Q;
  meta_tokens : Z;
  apiSource : string;
  meta_batchNumber : nat
}.

Record Item := {
  testcase : Testcase;
  embedding : option Embedding;
  error : option string;
  item_cost : Q;
  tokens : Z;
  metadata : option Metadata
}.

Record Result := {
  success : bool;
  result_error : option string;
  results : list Item;
  totalCost : Q;
  totalTokens : Z;
  batchSize : nat
}.

(** What the script does towards the outside while it handles one batch. *)
Inductive Event :=
| Post (attempt : nat)
| Wait (ms : Z).

(** [Math.round] *)
Definition Math_round (x : Q) : Z := Qfloor (x + (1 # 2)).

(** [Math.min(1000 * Math.pow(2, attempt), 10000)] *)
Definition waitTime (attempt : nat) : Z :=
  Z.min (1000 * 2 ^ Z.of_nat attempt) 10000.

(** [testcaseBatch.map((testcase, index) => ({ ..., embedding:
    embeddings[index].embedding, ... }))]: reading [embedding] of a missing
    element throws a [TypeError]. *)
Fixpoint map_items (per_cost : Q) (per_tokens : Z) (m : string) (batchNumber : nat)
    (testcaseBatch : list Testcase) (embeddings : list (option Embedding))
  : option (list Item) :=
  match testcaseBatch with
  | [] => Some []
  | tc :: rest =>
      match embeddings with
      | [] => None
      | e :: embeddings' =>
          cons {| testcase := tc; embedding := e; error := None;
                  item_cost := per_cost; tokens := per_tokens;
                  metadata :=
                    Some {| meta_model := m; meta_cost := per_cost;
                            meta_tokens := per_tokens; apiSource := "testleaf-batch";
                            meta_batchNumber := batchNumber |} |}
            <$> map_items per_cost per_tokens m batchNumber rest embeddings'
      end
  end.

(** The body of [try] after the reply has arrived. *)
Definition on_reply (testcaseBatch : list Testcase) (batchNumber : nat)
    (reply : Outcome BatchData) : Outcome Result :=
  match reply with
  | Rejected e => Rejected e
  | Resolved d =>
      if negb (status d =? 200)%Z then Rejected ("Batch API error: " +:+ message d)
      else
        let n := inject_Z (Z.of_nat (length testcaseBatch)) in
        match map_items (cost d / n) (Math_round (inject_Z (total_tokens d) / n))
                (model d) batchNumber testcaseBatch (data d) with
        | None => Rejected "Cannot read properties of undefined (reading 'embedding')"
        | Some items =>
            Resolved {| success := true; result_error := None; results := items;
                        totalCost := cost d; totalTokens := total_tokens d;
                        batchSize := length testcaseBatch |}
        end
  end.

(** What is returned after the last attempt has failed. *)
Definition failure (testcaseBatch : list Testcase) (message : string) : Result :=
  {| success := false; result_error := Some message;
     results :=
       map (fun tc => {| testcase := tc; embedding := None; error := Some message;
                         item_cost := 0; tokens := 0; metadata := None |})
           testcaseBatch;
     totalCost := 0; totalTokens := 0; batchSize := length testcaseBatch |}.

(** [for (let attempt = ...; attempt <= maxRetries; attempt++)], with
    [remaining] turns to go; [post attempt] is the reply to the request of
    that attempt. Without any attempt [lastError] is undefined and reading
    its message throws. *)
Fixpoint attempts (post : nat -> Outcome BatchData) (testcaseBatch : list Testcase)
    (batchNumber maxRetries remaining attempt : nat) (lastError : option string)
  : list Event * Outcome Result :=
  match remaining with
  | O =>
      ([],
       match lastError with
       | Some e => Resolved (failure testcaseBatch e)
       | None => Rejected "Cannot read properties of undefined (reading 'message')"
       end)
  | S remaining' =>
      match on_reply testcaseBatch batchNumber (post attempt) with
      | Resolved r => ([Post attempt], Resolved r)
      | Rejected e =>
          let wait := if (attempt <? maxRetries)%nat then [Wait (waitTime attempt)] else [] in
          let '(events, r) :=
            attempts post testcaseBatch batchNumber maxRetries remaining' (S attempt) (Some e) in
          (Post attempt :: wait ++ events, r)
      end
  end.

(** The attempts for which a request was sent, and the waits, in order. *)
Definition posted (events : list Event) : list nat :=
  omap (fun e => match e with Post a => Some a | Wait _ => None end) events.

Definition waited (events : list Event) : list Z :=
  omap (fun e => match e with Wait ms => Some ms | Post _ => None end) events.

Definition generateBatchEmbeddings (post : nat -> Outcome BatchData)
    (testcaseBatch : list Testcase) (batchNumber maxRetries : nat)
  : list Event * Outcome Result :=
  attempts post testcaseBatch batchNumber maxRetries maxRetries 1 None.

(** A document as it is inserted, without [createdAt]. *)
Record Document := {
  doc_testcase : Testcase;
  doc_embedding : option Embedding;
  embeddingMetadata : option Metadata
}.

Record Inserted := { inserted : nat; failed : nat }.

Definition has_error (item : Item) : bool :=
  match error item with
  | Some EmptyString | None => false
  | Some _ => true
  end.

(** [insertTestcasesBatch(collection, batch)]; [insertMany] resolves with
    [insertedCount]. The second component tells whether [insertMany] was
    called. *)
Definition insertTestcasesBatch (insertMany : list Document -> Outcome nat)
    (batch : list Item) : Inserted * bool :=
  match batch with
  | [] => ({| inserted := 0; failed := 0 |}, false)
  | _ =>
      let documents :=
        map (fun item => {| doc_testcase := testcase item;
                            doc_embedding := embedding item;
                            embeddingMetadata := metadata item |})
            (List.filter (fun item => negb (has_error item)) batch) in
      match documents with
      | [] => ({| inserted := 0; failed := length batch |}, false)
      | _ =>
          match insertMany documents with
          | Resolved insertedCount =>
              ({| inserted := insertedCount;
                  failed := length batch - length documents |}, true)
          | Rejected _ => ({| inserted := 0; failed := length batch |}, true)
          end
      end
  end.

(** [for (let i = 0; i < arr.length; i += n) out.push(arr.slice(i, i + n))] *)
Fixpoint chunks_from {A : Type} (fuel n : nat) (arr : list A) : list (list A) :=
  match fuel, arr with
  | _, [] => []
  | O, _ => []
  | S fuel', _ => take n arr :: chunks_from fuel' n (drop n arr)
  end.

Definition chunks {A : Type} (n : nat) (arr : list A) : list (list A) :=
  chunks_from (length arr) n arr.

Definition BATCH_SIZE : nat := 100.
Definition CONCURRENT_LIMIT : nat := 5.
Definition MONGODB_BATCH_SIZE : nat := 200.

(** The counters of [main]. *)
Record Totals := {
  sum_cost : Q;
  sum_tokens : Z;
  totalInserted : nat;
  totalFailed : nat;
  processedCount : nat
}.

Definition zero : Totals :=
  {| sum_cost := 0; sum_tokens := 0; totalInserted := 0; totalFailed := 0;
     processedCount := 0 |}.

(** The inner loop over the sub-batches of one successful result. *)
Definition insert_sub_batch (insertMany : list Document -> Outcome nat)
    (t : Totals) (subBatch : list Item) : Totals :=
  let insertResult := fst (insertTestcasesBatch insertMany subBatch) in
  {| sum_cost := sum_cost t; sum_tokens := sum_tokens t;
     totalInserted := totalInserted t + inserted insertResult;
     totalFailed := totalFailed t + failed insertResult;
     processedCount := processedCount t |}.

(** One turn of [for (const batchResult of batchResults)]. A rejected
    promise is only logged. *)
Definition account (insertMany : list Document -> Outcome nat)
    (t : Totals) (batchResult : Outcome Result) : Totals :=
  match batchResult with
  | Rejected _ => t
  | Resolved result =>
      if success result then
        let t :=
          {| sum_cost := (sum_cost t + totalCost result)%Q;
             sum_tokens := (sum_tokens t + totalTokens result)%Z;
             totalInserted := totalInserted t; totalFailed := totalFailed t;
             processedCount := processedCount t + batchSize result |} in
        let successfulEmbeddings :=
          List.filter (fun item => negb (has_error item)) (results result) in
        let t :=
          fold_left (insert_sub_batch insertMany)
            (chunks MONGODB_BATCH_SIZE successfulEmbeddings) t in
        {| sum_cost := sum_cost t; sum_tokens := sum_tokens t;
           totalInserted := totalInserted t;
           totalFailed :=
             totalFailed t + (batchSize result - length successfulEmbeddings);
           processedCount := processedCount t |}
      else
        {| sum_cost := sum_cost t; sum_tokens := sum_tokens t;
           totalInserted := totalInserted t;
           totalFailed := totalFailed t + batchSize result;
           processedCount := processedCount t + batchSize result |}
  end.

(** The batches of [main] with their numbers, starting at 1. *)
Definition batches (testcases : list Testcase) : list (list Testcase * nat) :=
  imap (fun i b => (b, S i)) (chunks BATCH_SIZE testcases).

(** One group of batches: all requests are made, then the results are
    accounted for in the order of the batches. [post n] answers the
    requests for batch [n]. *)
Definition group (post : nat -> nat -> Outcome BatchData)
    (insertMany : list Document -> Outcome nat)
    (t : Totals) (concurrentBatches : list (list Testcase * nat)) : Totals :=
  let batchResults :=
    map (fun b => snd (generateBatchEmbeddings (post (snd b)) (fst b) (snd b) 3))
        concurrentBatches in
  fold_left (account insertMany) batchResults t.

(** The counters at the end of [main], once the client is connected and
    the input file is read. *)
Definition main (post : nat -> nat -> Outcome BatchData)
    (insertMany : list Document -> Outcome nat) (testcases : list Testcase) : Totals :=
  fold_left (group post insertMany) (chunks CONCURRENT_LIMIT (batches testcases)) zero.

End Script.

Arguments BatchData : clear implicits.
Arguments Item : clear implicits.
Arguments Result : clear implicits.
Arguments Document : clear implicits.

(** A service that fails twice and then answers for two inputs. *)
Definition recovers (attempt : nat) : Outcome (BatchData (list Q)) :=
  if (attempt <? 3)%nat then Rejected "timeout of 300000ms exceeded"
  else Resolved {| status := 200; message := "ok";
                   data := [Some [1 # 2]; Some [1 # 3]];
                   cost := 4 # 1000; total_tokens := 25; model := "text-embedding-3-small" |}.

(** A service that never answers. *)
Definition down (attempt : nat) : Outcome (BatchData (list Q)) :=
  Rejected "connect ECONNREFUSED".

End Batch.

(** ** The environment file, [GET] and [POST /api/env] *)

Module Env.

(** [s.split(sep)] for a separator of one code unit: the pieces between
    the separators, at least one. *)
Fixpoint split_on (sep : ascii) (s : string) : list string :=
  match s with
  | EmptyString => [EmptyString]
  | String c s' =>
      if Ascii.eqb c sep then EmptyString :: split_on sep s'
      else
        match split_on sep s' with
        | piece :: rest => String c piece :: rest
        | [] => [String c EmptyString]
        end
  end.

(** [parts.join(sep)] *)
Fixpoint join (sep : string) (parts : list string) : string :=
  match parts with
  | [] => ""
  | [part] => part
  | part :: rest => part +:+ sep +:+ join sep rest
  end.

(** [s.replace(/c/g, '')] for one code unit [c]. *)
Fixpoint remove_all (c : ascii) (s : string) : string :=
  match s with
  | EmptyString => ""
  | String c' s' => if Ascii.eqb c' c then remove_all c s' else String c' (remove_all c s')
  end.

(** The code units below 256 that [trim] removes: tab, line feed, vertical
    tab, form feed, carriage return, space and the no-break space. *)
Definition is_white (c : ascii) : bool :=
  let n := N_of_ascii c in
  (((9 <=? n) && (n <=? 13)) || (n =? 32) || (n =? 160))%N.

Fixpoint trimStart (s : string) : string :=
  match s with
  | String c s' => if is_white c then trimStart s' else s
  | EmptyString => ""
  end.

Fixpoint trimEnd (s : string) : string :=
  match s with
  | String c s' =>
      match trimEnd s' with
      | EmptyString => if is_white c then "" else String c ""
      | rest => String c rest
      end
  | EmptyString => ""
  end.

Definition trim (s : string) : string := trimEnd (trimStart s).

Definition startsWith (s : string) (c : ascii) : bool :=
  match s with
  | String c' _ => Ascii.eqb c' c
  | EmptyString => false
  end.

Definition is_empty (s : string) : bool :=
  match s with
  | EmptyString => true
  | _ => false
  end.

Definition quote : ascii := "034"%char.
Definition line_feed : ascii := "010"%char.

(** The object [envVars] is a finite map. Assigning to ["__proto__"] with
    a string calls the setter of [Object.prototype], which ignores it. *)
Definition assign (envVars : gmap string string) (key value : string) : gmap string string :=
  if String.eqb key "__proto__" then envVars else <[key := value]> envVars.

(** One turn of [envContent.split('\n').forEach(line => ...)]. *)
Definition read_line (envVars : gmap string string) (line : string) : gmap string string :=
  match split_on "=" line with
  | key :: valueParts =>
      if negb (is_empty key) && negb (is_empty (trim key)) && negb (startsWith key "#")
      then assign envVars (trim key) (remove_all quote (join "=" valueParts))
      else envVars
  | [] => envVars
  end.

(** The answer of [GET /api/env] for a file with the given content. *)
Definition get (envContent : string) : gmap string string :=
  fold_left read_line (split_on line_feed envContent) ∅.

(** The content that [POST /api/env] writes for the entries of the
    [envVars] of the request, values being strings. *)
Definition post (entries : list (string * string)) : string :=
  fold_left
    (fun envContent kv =>
       envContent +:+ fst kv +:+ "=" +:+ String quote (snd kv) +:+ String quote ""
         +:+ String line_feed "")
    entries "".

Fixpoint has_char (c : ascii) (s : string) : bool :=
  match s with
  | EmptyString => false
  | String c' s' => Ascii.eqb c' c || has_char c s'
  end.

(** A key that survives writing and reading: it is not empty, has no
    [=] and no line feed, no white space at either end, does not start with
    [#] and is not ["__proto__"]. *)
Definition plain_key (key : string) : bool :=
  negb (is_empty key) && negb (has_char "=" key) && negb (has_char line_feed key) &&
  String.eqb (trim key) key && negb (startsWith key "#") &&
  negb (String.eqb key "__proto__").

(** A value that survives: it has no double quote and no line feed. *)
Definition plain_value (value : string) : bool :=
  negb (has_char quote value) && negb (has_char line_feed value).

(** A file whose one value has double quotes inside. *)
Definition quoted : string :=
  "GREETING=" +:+ String quote ("say " +:+ String quote ("hi" +:+ String quote
    (String quote (String line_feed "")))).

Definition settings : list (string * string) :=
  [("DB_NAME", "qa"); ("MONGODB_URI", "mongodb+srv://host/?retry=true&w=majority");
   ("USER_EMAIL", "a@b.c")].

End Env.

(** * Properties *)

(** ** Sets, maps and sorting *)

Module JSFacts.
Import JS.

Lemma has_true (s : list string) (x : string) : has s x = true <-> x ∈ s.
Proof. unfold has. apply bool_decide_eq_true. Qed.

Lemma has_false (s : list string) (x : string) : has s x = false <-> x ∉ s.
Proof. unfold has. apply bool_decide_eq_false. Qed.

Lemma elem_of_set_add (s : list string) (x y : string) :
  y ∈ set_add s x <-> y ∈ s \/ y = x.
Proof.
  unfold set_add. destruct (has s x) eqn:E.
  - apply has_true in E. split; [auto | intros [H | ->]; assumption].
  - rewrite elem_of_app, list_elem_of_singleton. reflexivity.
Qed.

Lemma NoDup_set_add (s : list string) (x : string) : NoDup s -> NoDup (set_add s x).
Proof.
  intros H. unfold set_add. destruct (has s x) eqn:E; [assumption |].
  apply has_false in E. apply NoDup_app. repeat split; try assumption.
  - intros y Hy Hy'. apply list_elem_of_singleton in Hy'. subst. contradiction.
  - apply NoDup_singleton.
Qed.

Lemma length_set_add (s : list string) (x : string) :
  length (set_add s x) <= S (length s).
Proof.
  unfold set_add. destruct (has s x); [lia |].
  rewrite length_app. simpl. lia.
Qed.

Lemma elem_of_fold_set_add (xs acc : list string) (y : string) :
  y ∈ fold_left set_add xs acc <-> y ∈ acc \/ y ∈ xs.
Proof.
  revert acc. induction xs as [| x xs IH]; intros acc; simpl.
  - rewrite elem_of_nil. tauto.
  - rewrite IH, elem_of_set_add, elem_of_cons. tauto.
Qed.

Lemma NoDup_fold_set_add (xs acc : list string) :
  NoDup acc -> NoDup (fold_left set_add xs acc).
Proof.
  revert acc. induction xs as [| x xs IH]; intros acc H; simpl; [assumption |].
  apply IH, NoDup_set_add, H.
Qed.

Lemma length_fold_set_add (xs acc : list string) :
  length (fold_left set_add xs acc) <= length acc + length xs.
Proof.
  revert acc. induction xs as [| x xs IH]; intros acc; simpl; [lia |].
  specialize (IH (set_add acc x)). pose proof (length_set_add acc x). lia.
Qed.

Lemma elem_of_new_Set (xs : list string) (y : string) : y ∈ new_Set xs <-> y ∈ xs.
Proof. unfold new_Set. rewrite elem_of_fold_set_add, elem_of_nil. tauto. Qed.

Lemma NoDup_new_Set (xs : list string) : NoDup (new_Set xs).
Proof. apply NoDup_fold_set_add, NoDup_nil_2. Qed.

Lemma length_new_Set (xs : list string) : length (new_Set xs) <= length xs.
Proof. pose proof (length_fold_set_add xs []). simpl in *. assumption. Qed.

(** The size of a [Set] is the cardinal of the finite set of its members. *)
Lemma size_new_Set (xs : list string) :
  length (new_Set xs) = size (list_to_set xs : gset string).
Proof.
  rewrite <- (size_list_to_set (C := gset string) (new_Set xs)) by apply NoDup_new_Set.
  f_equal. apply set_eq. intros y.
  rewrite !elem_of_list_to_set. apply elem_of_new_Set.
Qed.

Lemma split_ws_from_not_nil (s : string) (cur : list ascii) (b : bool) :
  split_ws_from s cur b <> [].
Proof.
  revert cur b. induction s as [| c s IH]; intros cur b; simpl; [discriminate |].
  destruct (is_space c); [destruct b |]; try apply IH. discriminate.
Qed.

Lemma split_ws_not_nil (s : string) : split_ws s <> [].
Proof. apply split_ws_from_not_nil. Qed.

(** *** Maps *)

Section MapFacts.
Context {V : Type}.
Implicit Types (m : list (string * V)) (k : string) (v : V).

Lemma map_get_None m k : map_get m k = None <-> k ∉ map_keys m.
Proof.
  induction m as [| [k' v'] m IH]; simpl.
  - split; [intros _; apply not_elem_of_nil | reflexivity].
  - destruct (String.eqb_spec k k') as [-> | Hne].
    + split; [discriminate | intros H; exfalso; apply H; left].
    + rewrite IH, not_elem_of_cons. tauto.
Qed.

Lemma map_get_Some m k v : map_get m k = Some v -> (k, v) ∈ m.
Proof.
  induction m as [| [k' v'] m IH]; simpl; [discriminate |].
  destruct (String.eqb_spec k k') as [-> | Hne].
  - intros [= ->]. left.
  - intros H. right. apply IH, H.
Qed.

Lemma map_keys_set m k v :
  map_keys (map_set m k v) = set_add (map_keys m) k.
Proof.
  induction m as [| [k' v'] m IH]; simpl; [reflexivity |].
  unfold set_add in *. simpl.
  destruct (String.eqb_spec k k') as [-> | Hne]; simpl.
  - replace (has (k' :: map_keys m) k') with true; [reflexivity |].
    symmetry. apply has_true. left.
  - rewrite IH. destruct (has (map_keys m) k) eqn:E.
    + replace (has (k' :: map_keys m) k) with true; [reflexivity |].
      symmetry. apply has_true. right. apply has_true, E.
    + replace (has (k' :: map_keys m) k) with false; [reflexivity |].
      symmetry. apply has_false. apply has_false in E.
      rewrite not_elem_of_cons. split; assumption.
Qed.

Lemma NoDup_map_keys_set m k v :
  NoDup (map_keys m) -> NoDup (map_keys (map_set m k v)).
Proof. rewrite map_keys_set. apply NoDup_set_add. Qed.

(** After [set], an entry is the one just written or an older entry under
    another key. *)
Lemma elem_of_map_set m k v (e : string * V) :
  NoDup (map_keys m) ->
  e ∈ map_set m k v -> e = (k, v) \/ (e ∈ m /\ fst e <> k).
Proof.
  induction m as [| [k' v'] m IH]; simpl; intros Hnd.
  - rewrite list_elem_of_singleton. auto.
  - apply NoDup_cons in Hnd as [Hk' Hnd].
    destruct (String.eqb_spec k k') as [-> | Hne]; rewrite elem_of_cons.
    + intros [-> | H]; [auto |]. right. split; [right; assumption |].
      intros <-. apply Hk'. unfold map_keys. apply list_elem_of_fmap.
      exists e. split; [reflexivity | assumption].
    + intros [-> | H].
      * right. split; [left | simpl; congruence].
      * destruct (IH Hnd H) as [-> | [Hin Hfst]]; [auto |].
        right. split; [right; assumption | assumption].
Qed.

Lemma length_map_values m : length (map_values m) = length (map_keys m).
Proof. unfold map_values, map_keys. rewrite !length_map. reflexivity. Qed.
End MapFacts.

(** *** [slice] *)

Lemma slice0_firstn {A : Type} (arr : list A) (e : Z) :
  (0 <= e)%Z -> slice0 arr e = firstn (Z.to_nat e) arr.
Proof.
  intros He. unfold slice0.
  destruct (Z.ltb_spec e 0) as [Hlt | _]; [lia |].
  destruct (Z.le_gt_cases e (Z.of_nat (length arr))) as [Hle | Hgt].
  - rewrite Z.min_l by assumption. reflexivity.
  - rewrite Z.min_r by lia. rewrite Nat2Z.id.
    rewrite firstn_all. symmetry. apply firstn_all2. lia.
Qed.

Lemma slice0_length {A : Type} (arr : list A) (e : Z) :
  (0 <= e)%Z -> (Z.of_nat (length (slice0 arr e)) <= e)%Z.
Proof.
  intros He. rewrite slice0_firstn by assumption.
  rewrite length_firstn. lia.
Qed.

Lemma slice0_cons_pos {A : Type} (x : A) (l : list A) (e : Z) :
  (0 < e)%Z -> exists rest, slice0 (x :: l) e = x :: rest.
Proof.
  intros He. rewrite slice0_firstn by lia.
  destruct (Z.to_nat e) as [| n] eqn:E; [lia |].
  simpl. eexists. reflexivity.
Qed.

Lemma slice0_prefix {A : Type} (arr : list A) (e : Z) :
  exists rest, arr = slice0 arr e ++ rest.
Proof.
  unfold slice0. eexists. symmetry. apply firstn_skipn.
Qed.

(** *** Sorting by a numeric key, descending *)

Section SortFacts.
Context {A : Type} (key : A -> Q).

Lemma sort_insert_perm (x : A) (l : list A) :
  Permutation (sort_insert (descending key) x l) (x :: l).
Proof.
  induction l as [| y l IH]; simpl; [reflexivity |].
  destruct (Qlt_le_dec 0 ((descending key) x y)); [| reflexivity].
  rewrite IH. apply perm_swap.
Qed.

Lemma sort_perm (l : list A) : Permutation (sort (descending key) l) l.
Proof.
  induction l as [| x l IH]; simpl; [reflexivity |].
  rewrite sort_insert_perm. apply perm_skip, IH.
Qed.

Lemma sort_insert_sorted (x : A) (l : list A) :
  StronglySorted (not_below key) l -> StronglySorted (not_below key) (sort_insert (descending key) x l).
Proof.
  induction l as [| y l IH]; simpl; intros Hs.
  - repeat constructor.
  - apply StronglySorted_inv in Hs as [Hl Hy].
    destruct (Qlt_le_dec 0 ((descending key) x y)) as [Hlt | Hle]; unfold descending in *.
    + constructor; [apply IH, Hl |].
      eapply Permutation_Forall; [symmetry; apply sort_insert_perm |].
      constructor; [| assumption]. unfold not_below. lra.
    + assert (Hxy : (not_below key) x y) by (unfold not_below; lra).
      constructor; [constructor; assumption |].
      constructor; [assumption |].
      eapply Forall_impl; [exact Hy |]. unfold not_below in *. simpl.
      intros z Hz. lra.
Qed.

Lemma sort_sorted (l : list A) : StronglySorted (not_below key) (sort (descending key) l).
Proof.
  induction l as [| x l IH]; simpl; [constructor |].
  apply sort_insert_sorted, IH.
Qed.

(** Stability: the items with a given key keep their relative order. *)

Lemma sort_insert_stable (q : Q) (x : A) (l : list A) :
  List.filter ((with_key key) q) (sort_insert (descending key) x l) =
  List.filter ((with_key key) q) (x :: l).
Proof.
  induction l as [| y l IH]; [reflexivity |].
  simpl sort_insert.
  destruct (Qlt_le_dec 0 ((descending key) x y)) as [Hlt | Hle]; [| reflexivity].
  unfold descending in Hlt.
  change (List.filter ((with_key key) q) (y :: sort_insert (descending key) x l))
    with (if (with_key key) q y then y :: List.filter ((with_key key) q) (sort_insert (descending key) x l)
          else List.filter ((with_key key) q) (sort_insert (descending key) x l)).
  rewrite IH. simpl. unfold with_key.
  destruct (Qeq_bool (key x) q) eqn:Ex; destruct (Qeq_bool (key y) q) eqn:Ey;
    try reflexivity.
  apply Qeq_bool_iff in Ex, Ey. lra.
Qed.

Lemma sort_stable (q : Q) (l : list A) :
  List.filter ((with_key key) q) (sort (descending key) l) = List.filter ((with_key key) q) l.
Proof.
  induction l as [| x l IH]; [reflexivity |].
  simpl sort. rewrite sort_insert_stable. simpl. rewrite IH. reflexivity.
Qed.
End SortFacts.

End JSFacts.

(** ** Deduplication *)

Module DedupFacts.
Import JS JSFacts Dedup.

Lemma lower_char_idem (c : ascii) : lower_char (lower_char c) = lower_char c.
Proof. destruct c as [[] [] [] [] [] [] [] []]; reflexivity. Qed.

Lemma toLowerCase_idem (s : string) : toLowerCase (toLowerCase s) = toLowerCase s.
Proof.
  induction s as [| c s IH]; simpl; [reflexivity |].
  rewrite lower_char_idem, IH. reflexivity.
Qed.

Lemma words_lowered (r : Item) : words (lowered_title r) = title_words r.
Proof.
  unfold words, title_words, words, lowered_title.
  destruct (title r) as [t |]; simpl; [| reflexivity].
  rewrite toLowerCase_idem. reflexivity.
Qed.

(** The similarity computed on [Set]s is the Jaccard index of the word sets. *)
Lemma calculateTextSimilarity_jaccard (text1 text2 : string) :
  calculateTextSimilarity text1 text2 = jaccard (words text1) (words text2).
Proof.
  unfold calculateTextSimilarity, jaccard, words.
  set (l1 := split_ws (toLowerCase text1)).
  set (l2 := split_ws (toLowerCase text2)).
  rewrite !size_new_Set. do 4 f_equal.
  - f_equal. apply set_eq. intros y.
    rewrite elem_of_intersection, !elem_of_list_to_set.
    rewrite list_elem_of_In, filter_In, <- list_elem_of_In.
    rewrite has_true, !elem_of_new_Set. reflexivity.
  - f_equal. apply set_eq. intros y.
    rewrite elem_of_union, !elem_of_list_to_set, elem_of_app, !elem_of_new_Set.
    reflexivity.
Qed.

Lemma words_not_empty (text : string) : (0 < size (words text))%nat.
Proof.
  unfold words. pose proof (split_ws_not_nil (toLowerCase text)) as H.
  destruct (split_ws (toLowerCase text)) as [| w ws]; [contradiction |].
  assert (Hne : size (list_to_set (w :: ws) : gset string) <> 0%nat).
  { apply size_non_empty_iff. intros He.
    assert (Hw : w ∈ (list_to_set (w :: ws) : gset string))
      by (apply elem_of_list_to_set; left).
    rewrite He in Hw. revert Hw. apply not_elem_of_empty. }
  lia.
Qed.

Lemma jaccard_le_1 (a b : gset string) : (jaccard a b <= 1)%Q.
Proof.
  unfold jaccard.
  assert (Hle : (size (a ∩ b) <= size (a ∪ b))%nat)
    by (apply subseteq_size; set_solver).
  destruct (size (a ∪ b)) as [| n] eqn:E.
  - replace (size (a ∩ b)) with 0%nat by lia. vm_compute. discriminate.
  - apply Qle_shift_div_r.
    + change 0%Q with (inject_Z 0). rewrite <- Zlt_Qlt. lia.
    + rewrite Qmult_1_l. rewrite <- Zle_Qle. lia.
Qed.

Lemma jaccard_self (a : gset string) : (0 < size a)%nat -> (jaccard a a == 1)%Q.
Proof.
  intros H. unfold jaccard.
  replace (a ∩ a) with a by set_solver. replace (a ∪ a) with a by set_solver.
  apply Qmult_inv_r. intros Hq.
  assert (Hlt : (inject_Z 0 < inject_Z (Z.of_nat (size a)))%Q)
    by (rewrite <- Zlt_Qlt; lia).
  rewrite Hq in Hlt. revert Hlt. apply Qlt_irrefl.
Qed.

(** The inner loop finds the first entry that collides. *)
Lemma first_collision_entries (th : Q) (x : Item) (ks : list Item) :
  first_collision th (lowered_title x) (map entry_of ks) =
  (fun k => (k, jaccard (title_words x) (title_words k))) <$> List.find (collides th x) ks.
Proof.
  induction ks as [| k ks IH]; simpl; [reflexivity |].
  rewrite calculateTextSimilarity_jaccard, !words_lowered.
  unfold collides at 1.
  destruct (Qle_bool th (jaccard (title_words x) (title_words k))); [reflexivity |].
  apply IH.
Qed.

Lemma first_collision_None_fresh (th : Q) (t : string) (m : list (string * Item)) :
  (th <= 1)%Q -> first_collision th t m = None -> t ∉ map_keys m.
Proof.
  intros Hth. induction m as [| [k v] m IH]; simpl; [intros _; apply not_elem_of_nil |].
  destruct (Qle_bool th (calculateTextSimilarity t k)) eqn:E; [discriminate |].
  intros H. apply not_elem_of_cons. split; [| apply IH, H].
  intros <-. rewrite calculateTextSimilarity_jaccard in E.
  rewrite <- not_true_iff_false, Qle_bool_iff in E. apply E.
  rewrite (jaccard_self (words t) (words_not_empty t)). assumption.
Qed.

Lemma first_collision_above_1 (th : Q) (t : string) (m : list (string * Item)) :
  (1 < th)%Q -> first_collision th t m = None.
Proof.
  intros Hth. induction m as [| [k v] m IH]; simpl; [reflexivity |].
  rewrite calculateTextSimilarity_jaccard.
  destruct (Qle_bool th (jaccard (words t) (words k))) eqn:E; [| exact IH].
  apply Qle_bool_iff in E. pose proof (jaccard_le_1 (words t) (words k)). lra.
Qed.

Lemma find_collides_above_1 (th : Q) (x : Item) (ks : list Item) :
  (1 < th)%Q -> List.find (collides th x) ks = None.
Proof.
  intros Hth. induction ks as [| k ks IH]; simpl; [reflexivity |].
  unfold collides at 1.
  destruct (Qle_bool th (jaccard (title_words x) (title_words k))) eqn:E; [| exact IH].
  apply Qle_bool_iff in E. pose proof (jaccard_le_1 (title_words x) (title_words k)). lra.
Qed.

Lemma map_set_fresh {V : Type} (m : list (string * V)) (k : string) (v : V) :
  k ∉ map_keys m -> map_set m k v = m ++ [(k, v)].
Proof.
  induction m as [| [k' v'] m IH]; simpl; [reflexivity |].
  rewrite not_elem_of_cons. intros [Hne Hk].
  destruct (String.eqb_spec k k'); [contradiction |].
  rewrite IH by assumption. reflexivity.
Qed.

Lemma walk_snoc (th : Q) (pre : list Item) (x : Item) :
  walk th (pre ++ [x]) = visit th (walk th pre) x.
Proof. unfold walk. rewrite fold_left_app. reflexivity. Qed.

(** Up to threshold 1 the map holds one entry per kept item, in order. *)
Lemma seenTitles_kept (th : Q) (l : list Item) :
  (th <= 1)%Q -> seenTitles (walk th l) = map entry_of (deduplicated (walk th l)).
Proof.
  intros Hth. induction l as [| x l IH] using rev_ind; [reflexivity |].
  rewrite walk_snoc. unfold visit.
  destruct (first_collision th (lowered_title x) (seenTitles (walk th l)))
    as [[k sim] |] eqn:E; simpl; [exact IH |].
  rewrite map_set_fresh by (eapply first_collision_None_fresh; eassumption).
  rewrite IH, map_app. reflexivity.
Qed.

(** What one more input item does to the two output lists. *)
Lemma walk_step (th : Q) (pre : list Item) (x : Item) :
  let before := walk th pre in
  let after := walk th (pre ++ [x]) in
  match List.find (collides th x) (deduplicated before) with
  | Some k =>
      deduplicated after = deduplicated before /\
      duplicates after = duplicates before ++
        [{| result := x; duplicateOf := id k;
            similarity := jaccard (title_words x) (title_words k) |}]
  | None =>
      deduplicated after = deduplicated before ++ [x] /\
      duplicates after = duplicates before
  end.
Proof.
  cbv zeta. rewrite walk_snoc. unfold visit.
  destruct (Qlt_le_dec 1 th) as [Hgt | Hle].
  - rewrite first_collision_above_1, find_collides_above_1 by assumption.
    split; reflexivity.
  - rewrite seenTitles_kept, first_collision_entries by assumption.
    destruct (List.find (collides th x) (deduplicated (walk th pre))) as [k |];
      simpl; split; reflexivity.
Qed.

Lemma kept_sublist (th : Q) (l : list Item) : sublist (deduplicated (walk th l)) l.
Proof.
  induction l as [| x l IH] using rev_ind; [constructor |].
  pose proof (walk_step th l x) as H. cbv zeta in H.
  destruct (List.find (collides th x) (deduplicated (walk th l))) as [k |];
    destruct H as [-> _].
  - apply sublist_inserts_r, IH.
  - apply sublist_app; [exact IH | reflexivity].
Qed.

Lemma walk_partition (th : Q) (l : list Item) :
  Permutation l (deduplicated (walk th l) ++ map result (duplicates (walk th l))).
Proof.
  induction l as [| x l IH] using rev_ind; [reflexivity |].
  pose proof (walk_step th l x) as H. cbv zeta in H.
  destruct (List.find (collides th x) (deduplicated (walk th l))) as [k |];
    destruct H as [-> ->].
  - rewrite map_app, app_assoc. simpl. apply Permutation_app_tail, IH.
  - rewrite IH at 1.
    rewrite <- !app_assoc. apply Permutation_app_head, Permutation_app_comm.
Qed.

Lemma removed_sublist (th : Q) (l : list Item) :
  sublist (map result (duplicates (walk th l))) l.
Proof.
  induction l as [| x l IH] using rev_ind; [constructor |].
  pose proof (walk_step th l x) as H. cbv zeta in H.
  destruct (List.find (collides th x) (deduplicated (walk th l))) as [k |];
    destruct H as [_ ->].
  - rewrite map_app. apply sublist_app; [exact IH | reflexivity].
  - apply sublist_inserts_r, IH.
Qed.

(** The third scenario of the specification: items 2 and 4 of five share a
    title; item 4 is removed as a duplicate of item 2. *)
Example deduplicate_five_items :
  exists p,
    deduplicate {| results := Some Examples.five_items; threshold := None |} = Json p /\
    map id (kept p) = [Some "TC_1"; Some "TC_2"; Some "TC_3"; Some "TC_5"] /\
    map (fun d => (id (result d), duplicateOf d)) (removed p) =
      [(Some "TC_4", Some "TC_2")].
Proof. eexists. split; [reflexivity |]. split; reflexivity. Qed.


(** C10. For every input list the response partitions the input: the kept
    items together with the removed ones are the input items, each exactly
    once, both in input order; the two counts add up to the input count; and
    [original] is the input itself. *)
Theorem deduplicate_partitions_input (l : list Item) (th : option Q) :
  exists p,
    deduplicate {| results := Some l; threshold := th |} = Json p /\
    original p = l /\
    Permutation l (kept p ++ map result (removed p)) /\
    sublist (kept p) l /\
    sublist (map result (removed p)) l /\
    originalCount (stats p) = length l /\
    (deduplicatedCount (stats p) + duplicatesRemoved (stats p))%nat =
      originalCount (stats p).
Proof.
  eexists. split; [reflexivity |]. simpl.
  pose proof (walk_partition (threshold_or_default th) l) as Hp.
  repeat split.
  - exact Hp.
  - apply kept_sublist.
  - apply removed_sublist.
  - apply Permutation_length in Hp. rewrite length_app, length_map in Hp. lia.
Qed.

End DedupFacts.

(** ** The union of the two candidate lists *)

Module RerankFacts.
Import JS JSFacts Effects Rerank Ranks.

(** An invariant of [forEach]: it holds of the processed prefix. *)
Lemma forEach_from_inv {A St : Type} (f : St -> A -> nat -> St)
    (P : list A -> St -> Prop) :
  (forall pre x s, P pre s -> P (pre ++ [x]) (f s x (length pre))) ->
  forall l pre s, P pre s -> P (pre ++ l) (forEach_from f l (length pre) s).
Proof.
  intros Hstep. induction l as [| x l IH]; intros pre s HP; simpl.
  - rewrite app_nil_r. exact HP.
  - replace (pre ++ x :: l) with ((pre ++ [x]) ++ l)
      by (rewrite <- app_assoc; reflexivity).
    replace (S (length pre)) with (length (pre ++ [x]))
      by (rewrite length_app; simpl; lia).
    apply IH, Hstep, HP.
Qed.

Lemma forEach_inv {A St : Type} (f : St -> A -> nat -> St)
    (P : list A -> St -> Prop) (l : list A) (s : St) :
  P [] s ->
  (forall pre x s, P pre s -> P (pre ++ [x]) (f s x (length pre))) ->
  P l (forEach f l s).
Proof.
  intros H0 Hstep. apply (forEach_from_inv f P Hstep l [] s H0).
Qed.

Lemma ranked_at_snoc_other (docs : list Doc) (d : Doc) (k : string)
    (rank : option nat) (raw : Q) :
  _id d <> k -> ranked_at docs k rank raw -> ranked_at (docs ++ [d]) k rank raw.
Proof.
  intros Hne. destruct rank as [n |]; simpl.
  - intros (d0 & Hn & Hl & Hk & Hs). exists d0.
    repeat split; try assumption. apply lookup_app_l_Some, Hl.
  - intros [Hall Hraw]. split; [| exact Hraw].
    intros d' Hd'. apply elem_of_app in Hd' as [Hd' | Hd'].
    + apply Hall, Hd'.
    + apply list_elem_of_singleton in Hd'. subst. exact Hne.
Qed.

Lemma ranked_at_snoc_new (docs : list Doc) (d : Doc) :
  ranked_at (docs ++ [d]) (_id d) (Some (length docs + 1)) (score d).
Proof.
  exists d. repeat split; [lia |].
  apply list_lookup_middle. lia.
Qed.

Lemma NoDup_keys (b v : list Doc) (m : list (string * Merged)) :
  map_keys m = fold_left set_add (map _id v) (new_Set (map _id b)) ->
  NoDup (map_keys m).
Proof. intros ->. apply NoDup_fold_set_add, NoDup_new_Set. Qed.

Lemma new_Set_snoc (xs : list string) (x : string) :
  new_Set (xs ++ [x]) = set_add (new_Set xs) x.
Proof. unfold new_Set. rewrite fold_left_app. reflexivity. Qed.

Section Union.
Variables lo_b hi_b lo_v hi_v : Q.

(** The lexical pass. *)
Lemma add_bm25_ok (pre : list Doc) (d : Doc) (m : list (string * Merged)) :
  map_ok pre [] lo_b hi_b lo_v hi_v m ->
  map_ok (pre ++ [d]) [] lo_b hi_b lo_v hi_v (add_bm25 lo_b hi_b m d (length pre)).
Proof.
  intros [Hkeys Hall]. unfold add_bm25. split.
  - rewrite map_keys_set, Hkeys, map_app.
    change (map _id [d]) with [_id d]. rewrite new_Set_snoc. reflexivity.
  - intros e He.
    apply elem_of_map_set in He as [-> | [He Hfst]];
      [| | exact (NoDup_keys pre [] m Hkeys)].
    + split; [reflexivity |]. unfold merged_ok, key. simpl.
      split; [apply ranked_at_snoc_new |].
      split; [| split; reflexivity].
      split; [| reflexivity]. intros d' Hd'. apply elem_of_nil in Hd'. contradiction.
    + destruct (Hall e He) as (Hk & Hb & Hv & Hnb & Hnv).
      split; [exact Hk |]. unfold merged_ok. repeat split; try assumption.
      apply ranked_at_snoc_other; [| exact Hb]. rewrite Hk. congruence.
Qed.

(** The dense pass. *)
Lemma add_vector_ok (b pre : list Doc) (d : Doc) (m : list (string * Merged)) :
  map_ok b pre lo_b hi_b lo_v hi_v m ->
  map_ok b (pre ++ [d]) lo_b hi_b lo_v hi_v (add_vector lo_v hi_v m d (length pre)).
Proof.
  intros [Hkeys Hall].
  assert (Hnd : NoDup (map_keys m)) by exact (NoDup_keys b pre m Hkeys).
  assert (Hkeys' : forall x, map_keys (map_set m (_id d) x) =
            fold_left set_add (map _id (pre ++ [d])) (new_Set (map _id b))).
  { intros x. rewrite map_keys_set, Hkeys, map_app, fold_left_app. reflexivity. }
  assert (Hold : forall e, e ∈ m -> fst e <> _id d ->
            key (snd e) = fst e /\
            merged_ok b (pre ++ [d]) lo_b hi_b lo_v hi_v (snd e)).
  { intros e He Hfst. destruct (Hall e He) as (Hk & Hb & Hv & Hnb & Hnv).
    split; [exact Hk |]. unfold merged_ok. repeat split; try assumption.
    apply ranked_at_snoc_other; [| exact Hv]. rewrite Hk. congruence. }
  unfold add_vector. destruct (map_get m (_id d)) as [existing |] eqn:Hget.
  - split; [apply Hkeys' |]. intros e He.
    apply elem_of_map_set in He as [-> | [He Hfst]]; [| auto | exact Hnd].
    apply map_get_Some in Hget.
    destruct (Hall _ Hget) as (Hk & Hb & Hv & Hnb & Hnv). simpl in *.
    split; [exact Hk |]. unfold merged_ok, key in *. simpl.
    split; [rewrite Hk; rewrite Hk in Hb; exact Hb |].
    split; [rewrite Hk; apply ranked_at_snoc_new |].
    split; [exact Hnb | reflexivity].
  - split; [apply Hkeys' |]. intros e He.
    apply elem_of_map_set in He as [-> | [He Hfst]]; [| auto | exact Hnd].
    split; [reflexivity |]. unfold merged_ok, key. simpl.
    split; [| split; [apply ranked_at_snoc_new | split; reflexivity]].
    split; [| reflexivity]. intros d' Hd' Heq.
    apply map_get_None in Hget. apply Hget. rewrite Hkeys.
    apply elem_of_fold_set_add. left. apply elem_of_new_Set.
    rewrite <- Heq. apply list_elem_of_fmap_2, Hd'.
Qed.

Lemma resultMap_ok (b v : list Doc) :
  map_ok b v lo_b hi_b lo_v hi_v
    (forEach (add_vector lo_v hi_v) v (forEach (add_bm25 lo_b hi_b) b [])).
Proof.
  apply (forEach_inv (add_vector lo_v hi_v)
           (fun pre m => map_ok b pre lo_b hi_b lo_v hi_v m)).
  - apply (forEach_inv (add_bm25 lo_b hi_b)
             (fun pre m => map_ok pre [] lo_b hi_b lo_v hi_v m)).
    + split; [reflexivity |]. intros e He. apply elem_of_nil in He. contradiction.
    + intros pre x s. apply add_bm25_ok.
  - intros pre x s. apply add_vector_ok.
Qed.
End Union.

(** Every merged candidate has the ranks, raw scores and normalised scores
    of its positions in the two lists. *)
Lemma allResults_ok (b v : list Doc) (m : Merged) :
  m ∈ allResults b v ->
  merged_ok b v (Math_min (map score b) 0) (Math_max (map score b) 1)
    (Math_min (map score v) 0) (Math_max (map score v) 1) m.
Proof.
  unfold allResults, map_values. intros Hm.
  apply list_elem_of_fmap in Hm as (e & -> & He).
  eapply resultMap_ok; exact He.
Qed.

(** The merged candidates are the distinct ids, lexical ones first, each in
    order of first appearance. *)
Lemma allResults_keys (b v : list Doc) :
  map key (allResults b v) = new_Set (map _id b ++ map _id v).
Proof.
  unfold allResults.
  destruct (resultMap_ok (Math_min (map score b) 0) (Math_max (map score b) 1)
              (Math_min (map score v) 0) (Math_max (map score v) 1) b v)
    as [Hkeys Hall].
  unfold new_Set at 1. rewrite fold_left_app. fold (new_Set (map _id b)).
  rewrite <- Hkeys. unfold map_values, map_keys. rewrite map_map.
  apply map_ext_in. intros e He. apply Hall. apply list_elem_of_In, He.
Qed.

Lemma allResults_length (b v : list Doc) :
  length (allResults b v) <= length b + length v.
Proof.
  rewrite <- (length_map key), allResults_keys.
  pose proof (length_new_Set (map _id b ++ map _id v)) as H.
  rewrite length_app, !length_map in H. exact H.
Qed.

(** *** Bounds of the normalisation *)

Lemma Math_min_le_last (xs : list Q) (z : Q) : (Math_min xs z <= z)%Q.
Proof.
  induction xs as [| x xs IH]; simpl; [apply Qle_refl |].
  eapply Qle_trans; [apply Q.le_min_r | exact IH].
Qed.

Lemma Math_min_le (xs : list Q) (z x : Q) : x ∈ xs -> (Math_min xs z <= x)%Q.
Proof.
  induction xs as [| y xs IH]; simpl; intros Hx.
  - apply elem_of_nil in Hx. contradiction.
  - apply elem_of_cons in Hx as [-> | Hx]; [apply Q.le_min_l |].
    eapply Qle_trans; [apply Q.le_min_r | apply IH, Hx].
Qed.

Lemma Math_max_ge_last (xs : list Q) (z : Q) : (z <= Math_max xs z)%Q.
Proof.
  induction xs as [| x xs IH]; simpl; [apply Qle_refl |].
  eapply Qle_trans; [exact IH | apply Q.le_max_r].
Qed.

Lemma Math_max_ge (xs : list Q) (z x : Q) : x ∈ xs -> (x <= Math_max xs z)%Q.
Proof.
  induction xs as [| y xs IH]; simpl; intros Hx.
  - apply elem_of_nil in Hx. contradiction.
  - apply elem_of_cons in Hx as [-> | Hx]; [apply Q.le_max_l |].
    eapply Qle_trans; [apply IH, Hx | apply Q.le_max_r].
Qed.

Lemma Math_max_lub (xs : list Q) (z u : Q) :
  (z <= u)%Q -> (forall x, x ∈ xs -> (x <= u)%Q) -> (Math_max xs z <= u)%Q.
Proof.
  intros Hz. induction xs as [| y xs IH]; simpl; intros Hall; [exact Hz |].
  apply Q.max_lub.
  - apply Hall. left.
  - apply IH. intros x Hx. apply Hall. right. exact Hx.
Qed.

Lemma normalize_between (s lo hi : Q) :
  (lo <= 0)%Q -> (1 <= hi)%Q ->
  (normalizeBM25 s lo hi == (s - lo) / (hi - lo))%Q /\
  ((lo <= s <= hi)%Q -> (0 <= normalizeBM25 s lo hi <= 1)%Q) /\
  ((normalizeBM25 s lo hi == 1)%Q <-> (s == hi)%Q).
Proof.
  intros Hlo Hhi. unfold normalizeBM25.
  assert (Hpos : (0 < hi - lo)%Q) by lra.
  destruct (Qeq_bool hi lo) eqn:E; [apply Qeq_bool_iff in E; lra |].
  split; [reflexivity |]. split.
  - intros [H1 H2]. split.
    + apply Qle_shift_div_l; [exact Hpos | lra].
    + apply Qle_shift_div_r; [exact Hpos | lra].
  - split; intros H.
    + assert (H' : ((hi - lo) * ((s - lo) / (hi - lo)) == s - lo)%Q)
        by (apply Qmult_div_r; lra).
      rewrite H in H'. lra.
    + rewrite H. apply Qmult_inv_r. lra.
Qed.

Lemma anchored_found (docs : list Doc) (k : string) (n : nat) (raw : Q) :
  ranked_at docs k (Some n) raw ->
  anchored docs (Some n) raw
    (normalizeBM25 raw (Math_min (map score docs) 0) (Math_max (map score docs) 1)).
Proof.
  intros (d & Hn & Hl & Hk & Hs). unfold anchored. cbv zeta.
  set (lo := Math_min (map score docs) 0). set (hi := Math_max (map score docs) 1).
  assert (Hlo : (lo <= 0)%Q) by apply Math_min_le_last.
  assert (Hhi : (1 <= hi)%Q) by apply Math_max_ge_last.
  assert (Hd : d ∈ docs) by (apply list_elem_of_lookup; eauto).
  assert (Hin : raw ∈ map score docs) by (rewrite <- Hs; apply list_elem_of_fmap_2, Hd).
  assert (Hraw : (lo <= raw <= hi)%Q)
    by (split; [apply Math_min_le | apply Math_max_ge]; exact Hin).
  destruct (normalize_between raw lo hi Hlo Hhi) as (Heq & Hbet & Hone).
  split; [exact Hlo |]. split; [exact Hhi |].
  split; [exact Heq |]. split; [apply Hbet, Hraw |].
  rewrite Hone. split.
  - intros H. split; [lra |]. intros d' Hd'. rewrite H.
    apply Math_max_ge, list_elem_of_fmap_2, Hd'.
  - intros [H1 Hall]. apply Qle_antisym; [apply Hraw |].
    apply Math_max_lub; [exact H1 |]. intros x Hx.
    apply list_elem_of_fmap in Hx as (d' & -> & Hd'). apply Hall, Hd'.
Qed.

Lemma anchored_any (docs : list Doc) (k : string) (rank : option nat)
    (raw normalised : Q) :
  ranked_at docs k rank raw ->
  normalised =
    match rank with
    | Some _ => normalizeBM25 raw (Math_min (map score docs) 0)
                  (Math_max (map score docs) 1)
    | None => 0%Q
    end ->
  anchored docs rank raw normalised.
Proof.
  intros Hr ->. destruct rank as [n |].
  - eapply anchored_found, Hr.
  - unfold anchored. cbv zeta.
    split; [apply Math_min_le_last |]. split; [apply Math_max_ge_last | reflexivity].
Qed.

(** *** From the response back to the merged candidates *)

Lemma fmap_imap_id {A B : Type} (g : B -> A) (l : list A) (f : nat -> A -> B) :
  (forall i x, g (f i x) = x) -> map g (imap f l) = l.
Proof.
  revert f. induction l as [| x l IH]; intros f H; simpl; [reflexivity |].
  rewrite H. f_equal. apply IH. intros i y. apply H.
Qed.

Lemma fused_of_fusedResults (p : Params) (b v : list Doc) :
  map fused (fusedResults p b v) =
  sort by_fusedScore
    (fuse (fusionMethod p) (bm25Weight p) (vectorWeight p) (allResults b v)).
Proof. unfold fusedResults. apply fmap_imap_id. reflexivity. Qed.

Lemma fusedResults_length (p : Params) (b v : list Doc) :
  length (fusedResults p b v) <= length b + length v.
Proof.
  rewrite <- (length_map fused), fused_of_fusedResults.
  rewrite (Permutation_length (sort_perm fusedScore _)).
  pose proof (allResults_length b v).
  unfold fuse. repeat (destruct (String.eqb _ _)); rewrite ?length_map; simpl; lia.
Qed.

Lemma elem_of_fuse (method : string) (wb wv : Q) (all : list Merged) (f : Fused) :
  f ∈ fuse method wb wv all ->
  merged f ∈ all /\
  (method = "rrf" -> f = rrf (merged f)) /\
  (method = "weighted" -> f = weighted wb wv (merged f)) /\
  (method = "reciprocal" -> f = reciprocal wb wv (merged f)).
Proof.
  unfold fuse.
  destruct (String.eqb_spec method "rrf") as [-> | H1].
  { intros Hf. apply list_elem_of_fmap in Hf as (m & -> & Hm).
    repeat split; [exact Hm | discriminate | discriminate]. }
  destruct (String.eqb_spec method "weighted") as [-> | H2].
  { intros Hf. apply list_elem_of_fmap in Hf as (m & -> & Hm).
    repeat split; [exact Hm | discriminate | discriminate]. }
  destruct (String.eqb_spec method "reciprocal") as [-> | H3].
  { intros Hf. apply list_elem_of_fmap in Hf as (m & -> & Hm).
    repeat split; [exact Hm | discriminate | discriminate]. }
  intros Hf. apply elem_of_nil in Hf. contradiction.
Qed.

Lemma merged_of_fusedResults (p : Params) (b v : list Doc) (r : Ranked) :
  r ∈ fusedResults p b v ->
  fused r ∈ fuse (fusionMethod p) (bm25Weight p) (vectorWeight p) (allResults b v).
Proof.
  intros Hr. apply (list_elem_of_fmap_2 fused) in Hr.
  change (fused <$> fusedResults p b v) with (map fused (fusedResults p b v)) in Hr.
  rewrite fused_of_fusedResults in Hr.
  rewrite (sort_perm fusedScore) in Hr. exact Hr.
Qed.

Lemma if_rank_rrf (docs : list Doc) (k : string) (rank : option nat) (raw : Q) :
  ranked_at docs k rank raw ->
  if_rank rank (fun r => (1 / (60 + of_nat r))%Q) = rrf_term rank.
Proof.
  destruct rank as [[| n] |]; simpl; try reflexivity.
  intros (d & Hn & _). lia.
Qed.

End RerankFacts.

(** ** The rerank and hybrid handlers, call by call *)

Module HandlerFacts.
Import JS JSFacts Effects.

(** The rerank handler spelled out by the outcome of each remote call. *)
Lemma rerank_search_run (w : World) (p : Rerank.Params) (q : string) :
  Rerank.search w p q [] =
  match mongo_connect w with
  | Rejected e => ([MongoConnect], Rejected e)
  | Resolved _ =>
      match embedding_post w 0 q with
      | Rejected e => ([MongoConnect; EmbeddingPost q], Rejected e)
      | Resolved emb =>
          if (emb_status emb =? 200)%Z then
            let bp := Rerank.bm25Pipeline p q in
            let vp := Rerank.vectorPipeline p (emb_embedding emb) in
            match bm25_aggregate w bp, vector_aggregate w vp with
            | Resolved b, Resolved v =>
                ([MongoConnect; EmbeddingPost q; Bm25Aggregate bp; VectorAggregate vp;
                  MongoClose],
                 Resolved (Rerank.Json
                   (Rerank.respond p q b v (emb_cost emb) (emb_total_tokens emb))))
            | Rejected e, _ =>
                ([MongoConnect; EmbeddingPost q; Bm25Aggregate bp; VectorAggregate vp],
                 Rejected e)
            | Resolved _, Rejected e =>
                ([MongoConnect; EmbeddingPost q; Bm25Aggregate bp; VectorAggregate vp],
                 Rejected e)
            end
          else
            ([MongoConnect; EmbeddingPost q],
             Rejected ("Testleaf API error: " +:+ emb_message emb))
      end
  end.
Proof.
  unfold Rerank.search, mbind, M_bind, await, post_embedding, await_all, throw, mret, M_ret.
  simpl. destruct (mongo_connect w) as [e | []]; [reflexivity |].
  unfold embedding_calls. simpl.
  destruct (embedding_post w 0 q) as [e | emb]; [reflexivity |].
  destruct (emb_status emb =? 200)%Z; simpl; [| reflexivity].
  destruct (bm25_aggregate w _) as [e | b]; [reflexivity |].
  destruct (vector_aggregate w _) as [e | v]; reflexivity.
Qed.

(** The hybrid handler spelled out in the same way. *)
Lemma hybrid_search_run (w : World) (p : Hybrid.Params) (q : string) :
  Hybrid.search w p q [] =
  match mongo_connect w with
  | Rejected e => ([MongoConnect], Rejected e)
  | Resolved _ =>
      let validated :=
        [MongoConnect; ValidateIndex BM25_INDEX_NAME; ValidateIndex VECTOR_INDEX_NAME] in
      match validateDbCollectionIndex w BM25_INDEX_NAME,
            validateDbCollectionIndex w VECTOR_INDEX_NAME with
      | Some error, _ =>
          (validated ++ [MongoClose],
           Resolved (Hybrid.BadRequest ("BM25 Index: " +:+ error)))
      | None, Some error =>
          (validated ++ [MongoClose],
           Resolved (Hybrid.BadRequest ("Vector Index: " +:+ error)))
      | None, None =>
          let bp := Hybrid.bm25Pipeline p q in
          match bm25_aggregate w bp with
          | Rejected e => (validated ++ [Bm25Aggregate bp], Rejected e)
          | Resolved b =>
              match embedding_post w 0 q with
              | Rejected e =>
                  (validated ++ [Bm25Aggregate bp; EmbeddingPost q], Rejected e)
              | Resolved emb =>
                  if (emb_status emb =? 200)%Z then
                    let vp := Hybrid.vectorPipeline p (emb_embedding emb) in
                    match vector_aggregate w vp with
                    | Rejected e =>
                        (validated ++
                           [Bm25Aggregate bp; EmbeddingPost q; VectorAggregate vp],
                         Rejected e)
                    | Resolved v =>
                        let finalResults :=
                          slice0 (Hybrid.combinedResults p b v) (Hybrid.limit p) in
                        (validated ++
                           [Bm25Aggregate bp; EmbeddingPost q; VectorAggregate vp;
                            MongoClose],
                         Resolved (Hybrid.Json
                           {| Hybrid.success := true;
                              Hybrid.out_query := q;
                              Hybrid.out_filters := Hybrid.filters p;
                              Hybrid.weights := (Hybrid.bm25Weight p, Hybrid.vectorWeight p);
                              Hybrid.results := finalResults;
                              Hybrid.count := length finalResults;
                              Hybrid.foundInBoth :=
                                length (List.filter (Hybrid.found Hybrid.both) finalResults);
                              Hybrid.foundInBm25Only :=
                                length (List.filter (Hybrid.found Hybrid.bm25) finalResults);
                              Hybrid.foundInVectorOnly :=
                                length (List.filter (Hybrid.found Hybrid.vector) finalResults);
                              Hybrid.bm25ResultCount := length b;
                              Hybrid.vectorResultCount := length v;
                              Hybrid.out_cost := emb_cost emb;
                              Hybrid.out_tokens := emb_total_tokens emb |}))
                    end
                  else
                    (validated ++ [Bm25Aggregate bp; EmbeddingPost q],
                     Rejected ("Testleaf API error: " +:+ emb_message emb))
              end
          end
      end
  end.
Proof.
  unfold Hybrid.search, mbind, M_bind, await, post_embedding, throw, mret, M_ret.
  simpl. destruct (mongo_connect w) as [e | []]; [reflexivity |].
  destruct (validateDbCollectionIndex w BM25_INDEX_NAME) as [e1 |];
    destruct (validateDbCollectionIndex w VECTOR_INDEX_NAME) as [e2 |];
    try reflexivity.
  simpl. destruct (bm25_aggregate w _) as [e | b]; [reflexivity |].
  unfold embedding_calls. simpl.
  destruct (embedding_post w 0 q) as [e | emb]; [reflexivity |].
  destruct (emb_status emb =? 200)%Z; simpl; [| reflexivity].
  destruct (vector_aggregate w _) as [e | v]; reflexivity.
Qed.

End HandlerFacts.

(** ** Score fusion *)

Module Fusion.
Import JS JSFacts Effects Rerank Ranks RerankFacts.



(** C2, as the code has it. Each list is normalised on its own by the
    linear map that sends [lo] to 0 and [hi] to 1, where [lo] is the least
    of the list's raw scores and 0, and [hi] the greatest of them and 1. So
    [lo <= 0 < 1 <= hi], the bounds never coincide, every normalised score
    lies in [0, 1], and an entry gets exactly 1 if and only if its raw score
    is at least 1 and no entry of its list has a greater one. A candidate
    absent from a list has normalised score 0 there. The hybrid endpoint
    divides by [max - min || 1], which is the same map. *)
Theorem normalised_with_anchors (b v : list Doc) (m : Merged) :
  m ∈ allResults b v ->
  anchored b (bm25Rank m) (bm25Score m) (bm25Normalized m) /\
  anchored v (vectorRank m) (vectorScore m) (vectorNormalized m) /\
  (forall (docs : list Doc) (s : Q),
     let lo := Math_min (map score docs) 0 in
     let hi := Math_max (map score docs) 1 in
     ((s - lo) / Hybrid.range hi lo == normalizeBM25 s lo hi)%Q /\
     normalizeVector s lo hi = normalizeBM25 s lo hi).
Proof.
  intros Hm. apply allResults_ok in Hm as (Hb & Hv & Hnb & Hnv).
  split; [eapply anchored_any; eassumption |].
  split; [eapply anchored_any; eassumption |].
  intros docs s. cbv zeta. split; [| reflexivity].
  pose proof (Math_min_le_last (map score docs) 0) as Hlo.
  pose proof (Math_max_ge_last (map score docs) 1) as Hhi.
  destruct (normalize_between s _ _ Hlo Hhi) as (-> & _).
  unfold Hybrid.range.
  destruct (Qeq_bool _ 0) eqn:E; [apply Qeq_bool_iff in E; lra | reflexivity].
Qed.

Lemma normalised_with_anchors_witness :
  anchored Examples.lexical (bm25Rank Examples.top_merged)
    (bm25Score Examples.top_merged) (bm25Normalized Examples.top_merged) /\
  anchored Examples.dense (vectorRank Examples.top_merged)
    (vectorScore Examples.top_merged) (vectorNormalized Examples.top_merged).
Proof.
  pose proof (normalised_with_anchors Examples.lexical Examples.dense Examples.top_merged)
    as H.
  assert (Hin : Examples.top_merged ∈ allResults Examples.lexical Examples.dense)
    by (vm_compute; left).
  destruct (H Hin) as (Hb & Hv & _). split; assumption.
Defined.

(** C2, as stated, fails: the best of two dense candidates has cosine score
    0.8; it is the highest-scoring entry of a non-empty list, and its
    normalised score is 0.8, not 1. *)
Lemma top_cosine_not_normalised_to_one :
  exists m,
    m ∈ allResults [] Examples.cosine_below_one /\
    vectorRank m = Some 1%nat /\
    (forall d, d ∈ Examples.cosine_below_one -> (score d <= vectorScore m)%Q) /\
    (vectorNormalized m == 8 # 10)%Q /\
    ~ (vectorNormalized m == 1)%Q.
Proof.
  eexists. split; [vm_compute; left |]. simpl.
  split; [reflexivity |]. split.
  - intros d Hd. unfold Examples.cosine_below_one in Hd.
    repeat (apply elem_of_cons in Hd as [-> | Hd]); simpl;
      [vm_compute; discriminate | vm_compute; discriminate |].
    apply elem_of_nil in Hd. contradiction.
  - split; [reflexivity | vm_compute; discriminate].
Qed.





End Fusion.

(** ** Rejected requests and failing services *)

Module Failures.
Import JS JSFacts Effects HandlerFacts.

(** Closes the goals left once every remote call has been decided. *)
Ltac settle :=
  unfold embedding_calls; simpl; repeat split;
  first [ lia | reflexivity | discriminate | intros; discriminate
        | intros; congruence ].

Lemma rerank_query_of_with_method (body : Rerank.Req.Body) (method : option string) :
  Rerank.query (Rerank.destructure (Rerank.with_method body method)) =
  Rerank.query (Rerank.destructure body).
Proof. reflexivity. Qed.



(** C6, as the code has it. Each handler calls the embedding service at
    most once per request. When that one call fails, in rerank after the
    connection and in hybrid after the lexical search, the request is
    answered 500 with the error of the call; nothing is retried and no
    lexical-only response is built. *)
Theorem embedding_called_once (w : World) (q e : string)
    (rb : Rerank.Req.Body) (hb : Hybrid.Req.Body) :
  JS.truthy (Rerank.Req.query rb) = Some q ->
  JS.truthy (Hybrid.Req.query hb) = Some q ->
  first_embedding_error w q = Some e ->
  (embedding_calls (fst (Rerank.handler w rb)) <= 1)%nat /\
  (embedding_calls (fst (Hybrid.handler w hb)) <= 1)%nat /\
  Rerank.status (snd (Rerank.handler w rb)) = 500%nat /\
  Hybrid.status (snd (Hybrid.handler w hb)) <> 200%nat /\
  (mongo_connect w = Resolved () ->
   Rerank.handler w rb =
     ([MongoConnect; EmbeddingPost q], Rerank.ServerError "Reranking failed" e)) /\
  (forall b : list Doc,
     mongo_connect w = Resolved () ->
     validateDbCollectionIndex w BM25_INDEX_NAME = None ->
     validateDbCollectionIndex w VECTOR_INDEX_NAME = None ->
     bm25_aggregate w (Hybrid.bm25Pipeline (Hybrid.destructure hb) q) = Resolved b ->
     Hybrid.handler w hb =
       ([MongoConnect; ValidateIndex BM25_INDEX_NAME; ValidateIndex VECTOR_INDEX_NAME;
         Bm25Aggregate (Hybrid.bm25Pipeline (Hybrid.destructure hb) q); EmbeddingPost q],
        Hybrid.ServerError "Hybrid search failed" e)).
Proof.
  intros Hrq Hhq Herr.
  unfold Rerank.handler, Hybrid.handler.
  change (Rerank.query (Rerank.destructure rb)) with (Rerank.Req.query rb).
  change (Hybrid.query (Hybrid.destructure hb)) with (Hybrid.Req.query hb).
  rewrite Hrq, Hhq. unfold try_catch.
  rewrite rerank_search_run, hybrid_search_run.
  unfold first_embedding_error in Herr.
  destruct (mongo_connect w) as [e0 | []]; [settle |].
  destruct (embedding_post w 0 q) as [e1 | emb].
  - injection Herr as ->. cbv zeta.
    destruct (validateDbCollectionIndex w BM25_INDEX_NAME);
      destruct (validateDbCollectionIndex w VECTOR_INDEX_NAME); try settle.
    destruct (bm25_aggregate w _) as [e2 | b0]; settle.
  - destruct (emb_status emb =? 200)%Z; [discriminate |].
    injection Herr as <-. cbv zeta.
    destruct (validateDbCollectionIndex w BM25_INDEX_NAME);
      destruct (validateDbCollectionIndex w VECTOR_INDEX_NAME); try settle.
    destruct (bm25_aggregate w _) as [e2 | b0]; settle.
Qed.

Lemma embedding_called_once_witness :
  Rerank.handler Examples.flaky_embedding (Examples.rerank_body "consent" None) =
    ([MongoConnect; EmbeddingPost "consent"],
     Rerank.ServerError "Reranking failed" "Request failed with status code 503") /\
  Hybrid.status (snd (Hybrid.handler Examples.flaky_embedding
                        (Examples.hybrid_body "consent"))) <> 200%nat.
Proof.
  destruct (embedding_called_once Examples.flaky_embedding "consent"
              "Request failed with status code 503"
              (Examples.rerank_body "consent" None) (Examples.hybrid_body "consent")
              eq_refl eq_refl eq_refl)
    as (_ & _ & _ & Hh & Hr & _).
  split; [apply Hr; reflexivity | exact Hh].
Defined.

(** C6, as stated, fails: the embedding service rejects the first call and
    would answer the second, yet the rerank request ends in 500 after one
    embedding call and no search, and the hybrid request ends in 500 with
    its lexical results discarded. *)
Lemma embedding_failure_not_retried :
  embedding_post Examples.flaky_embedding 1 "consent" = Resolved Examples.embedding_ok /\
  (exists log details,
     Rerank.handler Examples.flaky_embedding (Examples.rerank_body "consent" None) =
       (log, Rerank.ServerError "Reranking failed" details) /\
     embedding_calls log = 1%nat /\
     log = [MongoConnect; EmbeddingPost "consent"]) /\
  (exists log details,
     Hybrid.handler Examples.flaky_embedding (Examples.hybrid_body "consent") =
       (log, Hybrid.ServerError "Hybrid search failed" details) /\
     embedding_calls log = 1%nat).
Proof.
  split; [reflexivity |].
  split; do 2 eexists; repeat split.
Qed.

Lemma summarize_fails (w : World) (rs : list Dedup.Item) (summaryType : option string) :
  completion_fails w -> rs <> [] ->
  exists log e,
    Summarize.handler w
      {| Summarize.results := Some rs; Summarize.summaryType := summaryType |} =
    (log, Summarize.ServerError "Failed to summarize results" e).
Proof.
  intros Hfail Hrs. unfold Summarize.handler. simpl.
  destruct rs as [| r rs]; [contradiction |].
  unfold try_catch, Summarize.summarise.
  destruct (negb _); [do 2 eexists; reflexivity |].
  unfold mbind, M_bind, await, throw, mret, M_ret.
  destruct (completion_post w (default "detailed" summaryType) (length (r :: rs)))
    as [e | [c |]] eqn:E.
  - do 2 eexists; reflexivity.
  - exfalso. exact (Hfail _ _ _ E).
  - do 2 eexists; reflexivity.
Qed.

Lemma fetch_summarize_fails (s : Workflow.Server) (rs : list Dedup.Item)
    (summaryType : string) :
  completion_fails (Workflow.world s) -> rs <> [] ->
  Workflow.fetch_summarize s rs summaryType = Workflow.Responded 500 None.
Proof.
  intros Hfail Hrs. unfold Workflow.fetch_summarize.
  destruct (summarize_fails _ rs (Some summaryType) Hfail Hrs) as (log & e & ->).
  reflexivity.
Qed.

Lemma summarise_step_fails {R : Type}
    (generate : string -> list Dedup.Item -> Workflow.SummaryData -> Workflow.W R)
    (s : Workflow.Server) (testQuery : string) (topResults : list Dedup.Item)
    (progress : list nat) :
  completion_fails (Workflow.world s) -> topResults <> [] ->
  Workflow.summarise generate s testQuery topResults progress =
  (progress ++ [55%nat], Rejected "Summarization failed: 500").
Proof.
  intros Hfail Htop. unfold Workflow.summarise.
  rewrite fetch_summarize_fails; [reflexivity | exact Hfail |].
  destruct topResults as [| t ts]; [contradiction |].
  destruct (slice0_cons_pos t ts 5) as [rest ->]; [lia | discriminate].
Qed.

(** C5, as the code has it. When the completion service does not deliver a
    summary, the summarize endpoint answers 500 with the error
    "Failed to summarize results" and no summary, and the client's workflow
    stops at that step: the step throws "Summarization failed: 500", the
    workflow ends with [{ error: true, message }], the progress bar is
    reset to 0, and the later steps do not run. *)
Theorem summariser_failure_aborts (w : World) :
  completion_fails w ->
  (forall (rs : list Dedup.Item) (summaryType : option string),
     rs <> [] ->
     exists log e,
       Summarize.handler w
         {| Summarize.results := Some rs; Summarize.summaryType := summaryType |} =
         (log, Summarize.ServerError "Failed to summarize results" e) /\
       Summarize.status (Summarize.ServerError "Failed to summarize results" e) = 500%nat) /\
  (forall (R : Type)
          (generate : string -> list Dedup.Item -> Workflow.SummaryData -> Workflow.W R)
          (s : Workflow.Server) (testQuery : string),
     Workflow.world s = w ->
     (forall (topResults : list Dedup.Item) (progress : list nat),
        topResults <> [] ->
        Workflow.summarise generate s testQuery topResults progress =
          (progress ++ [55%nat], Rejected "Summarization failed: 500")) /\
     exists progress e,
       Workflow.handleLlmRagTest generate s testQuery =
         (progress ++ [0%nat], Workflow.Failed e)).
Proof.
  intros Hfail. split.
  - intros rs st Hrs. destruct (summarize_fails w rs st Hfail Hrs) as (log & e & ->).
    exists log, e. split; reflexivity.
  - intros R generate s testQuery <-. split.
    + intros top progress Htop. apply summarise_step_fails; assumption.
    + unfold Workflow.handleLlmRagTest, Workflow.steps.
      unfold mbind at 1. unfold Workflow.W_bind.
      destruct (Workflow.candidates s testQuery [0%nat]) as [progress [e | finalResults]].
      * do 2 eexists; reflexivity.
      * cbv zeta. destruct (slice0 finalResults 10) as [| t ts] eqn:E.
        -- do 2 eexists; reflexivity.
        -- rewrite summarise_step_fails by (assumption || discriminate).
           do 2 eexists; reflexivity.
Qed.

Lemma summariser_failure_aborts_witness :
  exists progress e,
    Workflow.handleLlmRagTest Examples.no_generation Examples.degraded_server
      "As a nurse I verify patient consent" =
    (progress ++ [0%nat], Workflow.Failed e).
Proof.
  assert (Hdown : completion_fails Examples.summariser_down)
    by (intros st n c; discriminate).
  destruct (summariser_failure_aborts Examples.summariser_down Hdown) as [_ H].
  destruct (H unit Examples.no_generation Examples.degraded_server
              "As a nurse I verify patient consent" eq_refl) as [_ Hend].
  exact Hend.
Defined.

(** C5, as stated, fails: with the completion service down, the summarize
    endpoint answers 500, not 200, and the workflow ends in an error after
    the progress value 55, with no results and no null summary. *)
Lemma summariser_failure_is_an_error :
  Summarize.handler Examples.summariser_down
    {| Summarize.results := Some [Examples.item "US_1" "Consent is verified"];
       Summarize.summaryType := None |} =
    ([CompletionPost "detailed" 1],
     Summarize.ServerError "Failed to summarize results" "timeout of 30000ms exceeded") /\
  Summarize.status
    (snd (Summarize.handler Examples.summariser_down
            {| Summarize.results := Some [Examples.item "US_1" "Consent is verified"];
               Summarize.summaryType := None |})) <> 200%nat /\
  Workflow.handleLlmRagTest Examples.no_generation Examples.degraded_server
    "As a nurse I verify patient consent" =
    ([0; 5; 10; 20; 35; 45; 55; 0]%nat, Workflow.Failed "Summarization failed: 500").
Proof.
  split; [reflexivity |]. split; [vm_compute; discriminate | reflexivity].
Qed.

End Failures.

(** ** Defaults of the request bodies *)

Module Defaults.
Import Effects.

(** C9, as the code has it. A request that gives only its query is
    destructured with these defaults: rerank takes limit 10, rerankTopK 50,
    weights 0.4 and 0.6 and the method "rrf"; hybrid takes limit 10 and
    weights 0.5 and 0.5; the BM25 search takes limit 10; the vector search
    takes limit 5. The handlers answer such a request as they answer the
    one that states these values. *)
Theorem endpoint_defaults (q : string) (w : World) :
  Rerank.destructure (Examples.rerank_body q None) =
    {| Rerank.query := Some q; Rerank.limit := 10; Rerank.filters := [];
       Rerank.fusionMethod := "rrf"; Rerank.rerankTopK := 50;
       Rerank.bm25Weight := 4 # 10; Rerank.vectorWeight := 6 # 10 |} /\
  Hybrid.destructure (Examples.hybrid_body q) =
    {| Hybrid.query := Some q; Hybrid.limit := 10; Hybrid.filters := [];
       Hybrid.bm25Weight := 5 # 10; Hybrid.vectorWeight := 5 # 10;
       Hybrid.bm25Fields :=
         ["id"; "title"; "description"; "steps"; "expectedResults"; "module"] |} /\
  Bm25.limit (Bm25.destructure (Examples.bm25_body q)) = 10%Z /\
  Search.limit (Search.destructure (Examples.search_body q)) = 5%Z /\
  Rerank.handler w (Examples.rerank_body q None) =
    Rerank.handler w
      {| Rerank.Req.query := Some q; Rerank.Req.limit := Some 10%Z;
         Rerank.Req.filters := Some []; Rerank.Req.fusionMethod := Some "rrf";
         Rerank.Req.rerankTopK := Some 50%Z; Rerank.Req.bm25Weight := Some (4 # 10);
         Rerank.Req.vectorWeight := Some (6 # 10) |} /\
  Hybrid.handler w (Examples.hybrid_body q) =
    Hybrid.handler w
      {| Hybrid.Req.query := Some q; Hybrid.Req.limit := Some 10%Z;
         Hybrid.Req.filters := Some []; Hybrid.Req.bm25Weight := Some (5 # 10);
         Hybrid.Req.vectorWeight := Some (5 # 10);
         Hybrid.Req.bm25Fields :=
           Some ["id"; "title"; "description"; "steps"; "expectedResults"; "module"] |}.
Proof. repeat split. Qed.

(** C9, as stated, fails: a vector search without a limit applies 5, not
    10, and a hybrid search without weights applies 0.5 and 0.5, not 0.4
    and 0.6. *)
Lemma defaults_differ_by_endpoint :
  Search.limit (Search.destructure (Examples.search_body "consent")) <> 10%Z /\
  ~ (Hybrid.bm25Weight (Hybrid.destructure (Examples.hybrid_body "consent")) == 4 # 10)%Q /\
  ~ (Hybrid.vectorWeight (Hybrid.destructure (Examples.hybrid_body "consent")) == 6 # 10)%Q.
Proof. repeat split; vm_compute; discriminate. Qed.

End Defaults.

(** ** More on deduplication *)

Module DedupExtras.
Import JS JSFacts Dedup DedupFacts.

Lemma jaccard_nonneg (a b : gset string) : (0 <= jaccard a b)%Q.
Proof.
  unfold jaccard.
  destruct (size (a ∪ b)) as [| n] eqn:E.
  - unfold Qdiv. simpl. rewrite Qmult_0_r. apply Qle_refl.
  - apply Qle_shift_div_l.
    + change 0%Q with (inject_Z 0). rewrite <- Zlt_Qlt. lia.
    + rewrite Qmult_0_l. change 0%Q with (inject_Z 0). rewrite <- Zle_Qle. lia.
Qed.

Lemma jaccard_comm (a b : gset string) : jaccard a b = jaccard b a.
Proof.
  unfold jaccard.
  replace (b ∩ a) with (a ∩ b) by set_solver.
  replace (b ∪ a) with (a ∪ b) by set_solver. reflexivity.
Qed.

Lemma jaccard_one (a b : gset string) :
  (0 < size a)%nat -> ((jaccard a b == 1)%Q <-> a = b).
Proof.
  intros Ha. split.
  - unfold jaccard. intros H.
    assert (Hpos : (0 < size (a ∪ b))%nat).
    { assert (size a <= size (a ∪ b))%nat by (apply subseteq_size; set_solver). lia. }
    assert (Hq : ~ (inject_Z (Z.of_nat (size (a ∪ b))) == 0)%Q).
    { intros Hq. change 0%Q with (inject_Z 0) in Hq.
      pose proof (proj1 (inject_Z_injective _ _) Hq). lia. }
    assert (Heq : (inject_Z (Z.of_nat (size (a ∩ b))) ==
                   inject_Z (Z.of_nat (size (a ∪ b))))%Q).
    { rewrite <- (Qmult_div_r (inject_Z (Z.of_nat (size (a ∩ b)))) _ Hq).
      rewrite H. ring. }
    apply (proj1 (inject_Z_injective _ _)) in Heq.
    assert (Hsub : a ∩ b ≡ a ∪ b).
    { apply (set_subseteq_size_equiv (C := gset string) (a ∩ b) (a ∪ b));
        [set_solver | lia]. }
    apply set_eq. intros x. set_solver.
  - intros <-. apply jaccard_self, Ha.
Qed.


Lemma find_collides_None (th : Q) (x : Item) (ks : list Item) :
  List.find (collides th x) ks = None <->
  Forall (fun k => collides th x k = false) ks.
Proof.
  induction ks as [| k ks IH]; simpl.
  - split; [constructor | reflexivity].
  - destruct (collides th x k) eqn:E.
    + split; [discriminate |]. intros H. apply Forall_cons in H as [H _]. congruence.
    + rewrite IH. split; [intros H; constructor; assumption |].
      intros H. apply Forall_cons in H as [_ H]. exact H.
Qed.

Lemma ordered_pairs_snoc {A : Type} (R : A -> A -> Prop) (l : list A) (x : A) :
  ForallOrdPairs R (l ++ [x]) <-> ForallOrdPairs R l /\ Forall (fun a => R a x) l.
Proof.
  induction l as [| a l IH]; simpl.
  - split; [intros _; split; constructor | intros _; repeat constructor].
  - split.
    + intros H. inversion H as [| ? ? Ha Hl]; subst.
      apply IH in Hl as [Hl Hx].
      apply List.Forall_app in Ha as [Ha Hax].
      split; [constructor; assumption |].
      constructor; [| exact Hx]. inversion Hax; assumption.
    + intros [H Hx]. inversion H as [| ? ? Ha Hl]; subst.
      apply Forall_cons in Hx as [Hax Hx].
      constructor.
      * apply List.Forall_app. split; [exact Ha | repeat constructor; exact Hax].
      * apply IH. split; assumption.
Qed.

Lemma kept_pairs_below (tau : Q) (l : list Item) :
  ForallOrdPairs (fun earlier later => collides tau later earlier = false)
    (deduplicated (walk tau l)).
Proof.
  induction l as [| x l IH] using rev_ind; [constructor |].
  pose proof (walk_step tau l x) as H. cbv zeta in H.
  destruct (List.find (collides tau x) (deduplicated (walk tau l))) as [k |] eqn:E;
    destruct H as [-> _]; [exact IH |].
  apply ordered_pairs_snoc. split; [exact IH |].
  apply find_collides_None, E.
Qed.


Lemma walk_keeps_all (th : Q) (l : list Item) :
  ForallOrdPairs (fun earlier later => collides th later earlier = false) l ->
  deduplicated (walk th l) = l /\ duplicates (walk th l) = [].
Proof.
  induction l as [| x l IH] using rev_ind; [split; reflexivity |].
  intros H. apply ordered_pairs_snoc in H as [Hl Hx].
  destruct (IH Hl) as [Hk Hd].
  pose proof (walk_step th l x) as Hs. cbv zeta in Hs.
  rewrite Hk in Hs. apply find_collides_None in Hx. rewrite Hx in Hs.
  destruct Hs as [-> ->]. split; [reflexivity | exact Hd].
Qed.

(** Deduplicating the kept items again, with the same threshold, removes
    nothing. *)
Theorem deduplicate_idempotent (th : option Q) (l : list Item) :
  let tau := threshold_or_default th in
  let once := deduplicated (walk tau l) in
  deduplicated (walk tau once) = once /\ duplicates (walk tau once) = [].
Proof. cbv zeta. apply walk_keeps_all, kept_pairs_below. Qed.



(** A threshold above 1 is never reached: every item is kept. *)
Theorem threshold_above_one_keeps_all (th : Q) (l : list Item) :
  (1 < th)%Q -> deduplicated (walk th l) = l /\ duplicates (walk th l) = [].
Proof.
  intros Hth. apply walk_keeps_all.
  induction l as [| x l IH] using rev_ind; [constructor |].
  apply ordered_pairs_snoc. split; [exact IH |].
  apply find_collides_None, find_collides_above_1, Hth.
Qed.

Lemma threshold_above_one_keeps_all_witness :
  deduplicated (walk (3 # 2) Examples.five_items) = Examples.five_items /\
  duplicates (walk (3 # 2) Examples.five_items) = [].
Proof. apply (threshold_above_one_keeps_all (3 # 2)). reflexivity. Defined.

(** A threshold of 0 or less is always reached: only the first item is
    kept, and every other item is removed as a duplicate of it. *)
Theorem threshold_zero_keeps_first (th : Q) (x : Item) (rest : list Item) :
  (th <= 0)%Q ->
  deduplicated (walk th (x :: rest)) = [x] /\
  map result (duplicates (walk th (x :: rest))) = rest /\
  Forall (fun d => duplicateOf d = id x) (duplicates (walk th (x :: rest))).
Proof.
  intros Hth. induction rest as [| y rest IH] using rev_ind.
  - repeat split. constructor.
  - destruct IH as (Hk & Hr & Hd).
    pose proof (walk_step th (x :: rest) y) as Hs. cbv zeta in Hs.
    rewrite Hk in Hs.
    change (List.find (collides th y) [x])
      with (if collides th y x then Some x else None) in Hs.
    assert (Hc : collides th y x = true).
    { unfold collides. apply Qle_bool_iff.
      eapply Qle_trans; [exact Hth | apply jaccard_nonneg]. }
    rewrite Hc in Hs. destruct Hs as [Hk' Hd'].
    change (x :: rest ++ [y]) with ((x :: rest) ++ [y]).
    rewrite Hk', Hd'. split; [reflexivity |].
    split.
    + rewrite map_app, Hr. reflexivity.
    + apply List.Forall_app. split; [exact Hd |]. repeat constructor.
Qed.

Lemma threshold_zero_keeps_first_witness :
  map id (deduplicated (walk 0 Examples.five_items)) = [Some "TC_1"].
Proof.
  pose proof (threshold_zero_keeps_first 0 (Examples.item "TC_1" "Login page loads")
                (tl Examples.five_items)) as H.
  assert (H0 : (0 <= 0)%Q) by (vm_compute; discriminate).
  destruct (H H0) as [Hk _]. change Examples.five_items
    with (Examples.item "TC_1" "Login page loads" :: tl Examples.five_items).
  rewrite Hk. reflexivity.
Defined.

End DedupExtras.

(** ** More on the rerank response *)

Module RerankExtras.
Import JS JSFacts Effects Rerank Ranks RerankFacts HandlerFacts.

Lemma keys_of_fusedResults (p : Params) (b v : list Doc) :
  Permutation
    (map (fun r => key (merged (fused r))) (fusedResults p b v))
    (map (fun f => key (merged f))
       (fuse (fusionMethod p) (bm25Weight p) (vectorWeight p) (allResults b v))).
Proof.
  rewrite <- (map_map fused (fun f => key (merged f))), fused_of_fusedResults.
  apply Permutation_map, (sort_perm fusedScore).
Qed.

Lemma keys_of_fuse (method : string) (wb wv : Q) (b v : list Doc) :
  In method ["rrf"; "weighted"; "reciprocal"] ->
  map (fun f => key (merged f)) (fuse method wb wv (allResults b v)) =
  new_Set (map _id b ++ map _id v).
Proof.
  intros Hm. rewrite <- allResults_keys. unfold fuse.
  destruct Hm as [<- | [<- | [<- | []]]]; simpl; rewrite map_map; reflexivity.
Qed.

Lemma fuse_nil_or_all (method : string) (wb wv : Q) (all : list Merged) :
  fuse method wb wv all = [] \/ map merged (fuse method wb wv all) = all.
Proof.
  unfold fuse. repeat (destruct (String.eqb _ _)); auto; right;
    rewrite map_map; apply map_id.
Qed.

(** Every candidate id occurs at most once among the fused results, and
    only ids of the two lists occur; under a known fusion method every
    document of either list is among them. *)
Theorem fused_ids_distinct (p : Params) (b v : list Doc) :
  let ids := map (fun r => key (merged (fused r))) (fusedResults p b v) in
  NoDup ids /\
  (forall k, k ∈ ids -> k ∈ map _id b \/ k ∈ map _id v) /\
  (In (fusionMethod p) ["rrf"; "weighted"; "reciprocal"] ->
   forall d, d ∈ b ++ v -> _id d ∈ ids).
Proof.
  cbv zeta. pose proof (keys_of_fusedResults p b v) as Hperm.
  destruct (fuse_nil_or_all (fusionMethod p) (bm25Weight p) (vectorWeight p)
              (allResults b v)) as [Hnil | Hall].
  - pose proof (keys_of_fuse (fusionMethod p) (bm25Weight p) (vectorWeight p) b v)
      as Hknown.
    rewrite Hnil in Hperm, Hknown. simpl in Hperm, Hknown.
    symmetry in Hperm. apply Permutation_nil in Hperm. rewrite Hperm.
    split; [apply NoDup_nil_2 |]. split.
    + intros k Hk. apply elem_of_nil in Hk. contradiction.
    + intros Hm d Hd. rewrite (Hknown Hm). apply (proj2 (elem_of_new_Set _ _)).
      rewrite <- map_app. apply list_elem_of_fmap_2, Hd.
  - assert (Hkeys : map (fun f => key (merged f))
                      (fuse (fusionMethod p) (bm25Weight p) (vectorWeight p)
                         (allResults b v)) =
                    new_Set (map _id b ++ map _id v)).
    { rewrite <- (map_map merged key), Hall. apply allResults_keys. }
    rewrite Hkeys in Hperm.
    split; [rewrite Hperm; apply NoDup_new_Set |]. split.
    + intros k Hk. rewrite Hperm in Hk.
      apply (proj1 (elem_of_new_Set _ _)) in Hk. apply elem_of_app in Hk. exact Hk.
    + intros _ d Hd. rewrite Hperm. apply (proj2 (elem_of_new_Set _ _)).
      rewrite <- map_app. apply list_elem_of_fmap_2, Hd.
Qed.

Lemma newRank_imap (f : nat -> Fused -> Ranked) (k : nat) (l : list Fused) :
  (forall i x, newRank (f i x) = (k + i + 1)%nat) ->
  map newRank (imap f l) = seq (k + 1) (length l).
Proof.
  revert f k. induction l as [| x l IH]; intros f k Hf; simpl; [reflexivity |].
  rewrite Hf. f_equal; [lia |].
  replace (S (k + 1)) with (S k + 1)%nat by lia.
  apply IH. intros i y. unfold compose. rewrite Hf. lia.
Qed.

(** The new rank of a fused result is its 1-based position; its original
    rank is its lexical rank when it has one, else its dense rank, and is at
    least 1; the rank change is the difference of the two. *)
Theorem ranks_follow_positions (p : Params) (b v : list Doc) :
  map newRank (fusedResults p b v) = seq 1 (length (fusedResults p b v)) /\
  Forall (fun r =>
      (1 <= originalRank r)%nat /\
      rankChange r = (Z.of_nat (originalRank r) - Z.of_nat (newRank r))%Z /\
      originalRank r =
        match bm25Rank (merged (fused r)), vectorRank (merged (fused r)) with
        | Some n, _ => n
        | None, Some n => n
        | None, None => newRank r
        end)
    (fusedResults p b v).
Proof.
  split.
  - unfold fusedResults. rewrite length_imap.
    apply (newRank_imap add_ranking 0). reflexivity.
  - apply Forall_forall. intros r Hr.
    pose proof (merged_of_fusedResults p b v r Hr) as Hm.
    apply elem_of_fuse in Hm as [Hm _].
    apply allResults_ok in Hm as (Hb & Hv & _).
    unfold fusedResults in Hr. apply elem_of_lookup_imap in Hr as (i & f & -> & _).
    unfold add_ranking in *. cbn [fused newRank originalRank rankChange] in *.
    unfold ranked_at in Hb, Hv.
    destruct (bm25Rank (merged f)) as [[| n] |].
    { destruct Hb as (d & Hn & _). lia. }
    { simpl. repeat split; lia. }
    destruct (vectorRank (merged f)) as [[| n] |].
    { destruct Hv as (d & Hn & _). lia. }
    { simpl. repeat split; lia. }
    simpl. repeat split; lia.
Qed.

Lemma found_partition (l : list Ranked) :
  (length (List.filter (found both) l) + length (List.filter (found bm25) l) +
   length (List.filter (found vector) l))%nat = length l.
Proof.
  induction l as [| r l IH]; [reflexivity |].
  cbn [List.filter].
  assert (Hr : (found both r = true /\ found bm25 r = false /\ found vector r = false) \/
               (found both r = false /\ found bm25 r = true /\ found vector r = false) \/
               (found both r = false /\ found bm25 r = false /\ found vector r = true)).
  { unfold found. destruct (foundIn (merged (fused r))); auto. }
  destruct Hr as [(-> & -> & ->) | [(-> & -> & ->) | (-> & -> & ->)]]; simpl; lia.
Qed.

Lemma filter_length_le {A : Type} (f : A -> bool) (l : list A) :
  (length (List.filter f l) <= length l)%nat.
Proof.
  induction l as [| x l IH]; simpl; [lia |]. destruct (f x); simpl; lia.
Qed.

(** In every rerank response the three "found in" counts add up to
    [totalCandidates], [count] is at most [totalCandidates], and the number
    of significant reorderings is at most [count]. *)
Theorem rerank_stats_consistent (p : Params) (q : string) (b v : list Doc)
    (c : Q) (t : Z) :
  let out := respond p q b v c t in
  (foundInBoth (stats out) + foundInBm25Only (stats out) +
   foundInVectorOnly (stats out))%nat = totalCandidates out /\
  (count out <= totalCandidates out)%nat /\
  (significantReorderings (stats out) <= count out)%nat /\
  (averageFusedScore (stats out) = None <-> count out = 0%nat).
Proof.
  cbv zeta. simpl. split; [apply found_partition |].
  split.
  - unfold slice0. rewrite length_firstn. lia.
  - split; [apply filter_length_le |].
    destruct (slice0 (fusedResults p b v) (limit p)); simpl; split;
      try reflexivity; discriminate.
Qed.

(** Membership of a call in a log of distinct calls. *)
Ltac in_log :=
  repeat (rewrite elem_of_cons || rewrite elem_of_nil || rewrite elem_of_app);
  intuition (try discriminate; try lia; try congruence).

(** The rerank handler closes the database client exactly when it answers
    200, and then as its last call after one embedding call; a request
    answered 400 makes no call, and a request answered 500 has opened the
    client and leaves it open. *)
Theorem rerank_closes_on_success_only (w : World) (body : Req.Body) :
  (status (snd (handler w body)) = 200%nat <-> MongoClose ∈ fst (handler w body)) /\
  (status (snd (handler w body)) = 200%nat ->
   last (fst (handler w body)) = Some MongoClose /\
   embedding_calls (fst (handler w body)) = 1%nat) /\
  (status (snd (handler w body)) = 400%nat <-> fst (handler w body) = []) /\
  (status (snd (handler w body)) = 500%nat -> MongoConnect ∈ fst (handler w body)).
Proof.
  unfold handler.
  destruct (truthy (query (destructure body))) as [q |]; [| simpl; in_log].
  unfold try_catch. rewrite rerank_search_run.
  destruct (mongo_connect w) as [e | []]; [simpl; in_log |].
  destruct (embedding_post w 0 q) as [e | emb]; [simpl; in_log |].
  destruct (emb_status emb =? 200)%Z; [| simpl; in_log].
  cbv zeta.
  destruct (bm25_aggregate w _) as [e | b0]; [simpl; in_log |].
  destruct (vector_aggregate w _) as [e | v0]; simpl; unfold embedding_calls; simpl;
    in_log.
Qed.

End RerankExtras.

(** ** More on the hybrid endpoint *)

Module HybridExtras.
Import JS JSFacts Effects Hybrid HybridSpec RerankFacts HandlerFacts.

Lemma range_anchored (docs : list Doc) :
  range (Math_max (map score docs) 1) (Math_min (map score docs) 0) =
  (Math_max (map score docs) 1 - Math_min (map score docs) 0)%Q /\
  (0 < Math_max (map score docs) 1 - Math_min (map score docs) 0)%Q.
Proof.
  pose proof (Math_min_le_last (map score docs) 0) as Hlo.
  pose proof (Math_max_ge_last (map score docs) 1) as Hhi.
  split; [| lra]. unfold range.
  destruct (Qeq_bool _ 0) eqn:E; [apply Qeq_bool_iff in E; lra | reflexivity].
Qed.

Lemma source_ok_snoc_other (docs : list Doc) (d : Doc) (lo rng : Q) (k : string)
    (raw normalised : Q) :
  _id d <> k ->
  source_ok docs lo rng k raw normalised ->
  source_ok (docs ++ [d]) lo rng k raw normalised.
Proof.
  intros Hne [(d0 & Hin & Hk & Hraw & Hn) | (Hall & Hraw & Hn)].
  - left. exists d0. repeat split; try assumption. apply elem_of_app. left. exact Hin.
  - right. repeat split; try assumption. intros d' Hd'.
    apply elem_of_app in Hd' as [Hd' | Hd']; [apply Hall, Hd' |].
    apply list_elem_of_singleton in Hd'. subst. exact Hne.
Qed.

Lemma source_ok_snoc_new (docs : list Doc) (d : Doc) (lo rng : Q) :
  source_ok (docs ++ [d]) lo rng (_id d) (score d) ((score d - lo) / rng)%Q.
Proof.
  left. exists d. repeat split. apply elem_of_app. right. left.
Qed.

Lemma NoDup_keys_of {V : Type} (ids seen : list string) (m : list (string * V)) :
  map_keys m = fold_left set_add ids (new_Set seen) -> NoDup (map_keys m).
Proof. intros ->. apply NoDup_fold_set_add, NoDup_new_Set. Qed.

Section Combine.
Variables lo_b rng_b lo_v rng_v wb wv : Q.

Lemma hybrid_add_bm25_ok (pre : list Doc) (d : Doc) (m : list (string * Combined)) :
  map_ok pre [] lo_b rng_b lo_v rng_v wb wv m ->
  map_ok (pre ++ [d]) [] lo_b rng_b lo_v rng_v wb wv
    (add_bm25 lo_b rng_b wb m d (length pre)).
Proof.
  intros [Hkeys Hall]. unfold add_bm25. split.
  - rewrite map_keys_set, Hkeys, map_app.
    change (map _id [d]) with [_id d]. rewrite new_Set_snoc. reflexivity.
  - intros e He.
    apply elem_of_map_set in He as [-> | [He Hfst]];
      [| | exact (NoDup_keys_of _ _ m Hkeys)].
    + split; [reflexivity |]. unfold combined_ok. simpl.
      split; [apply source_ok_snoc_new |]. split; [| ring].
      right. repeat split. intros d' Hd'. apply elem_of_nil in Hd'. contradiction.
    + destruct (Hall e He) as (Hk & Hb & Hv & Hs).
      split; [exact Hk |]. unfold combined_ok. repeat split; try assumption.
      apply source_ok_snoc_other; [| exact Hb]. rewrite Hk. congruence.
Qed.

Lemma hybrid_add_vector_ok (b pre : list Doc) (d : Doc) (m : list (string * Combined)) :
  _id d ∉ map _id pre ->
  map_ok b pre lo_b rng_b lo_v rng_v wb wv m ->
  map_ok b (pre ++ [d]) lo_b rng_b lo_v rng_v wb wv
    (add_vector lo_v rng_v wv m d (length pre)).
Proof.
  intros Hfresh [Hkeys Hall].
  assert (Hnd : NoDup (map_keys m)) by exact (NoDup_keys_of _ _ m Hkeys).
  assert (Hkeys' : forall x, map_keys (map_set m (_id d) x) =
            fold_left set_add (map _id (pre ++ [d])) (new_Set (map _id b))).
  { intros x. rewrite map_keys_set, Hkeys, map_app, fold_left_app. reflexivity. }
  assert (Hold : forall e, e ∈ m -> fst e <> _id d ->
            _id (doc (snd e)) = fst e /\
            combined_ok b (pre ++ [d]) lo_b rng_b lo_v rng_v wb wv (snd e)).
  { intros e He Hfst. destruct (Hall e He) as (Hk & Hb & Hv & Hs).
    split; [exact Hk |]. unfold combined_ok. repeat split; try assumption.
    apply source_ok_snoc_other; [| exact Hv]. rewrite Hk. congruence. }
  unfold add_vector. destruct (map_get m (_id d)) as [existing |] eqn:Hget.
  - split; [apply Hkeys' |]. intros e He.
    apply elem_of_map_set in He as [-> | [He Hfst]]; [| auto | exact Hnd].
    apply map_get_Some in Hget.
    destruct (Hall _ Hget) as (Hk & Hb & Hv & Hs). simpl in *.
    split; [exact Hk |]. unfold combined_ok. simpl.
    split; [exact Hb |]. rewrite Hk.
    split; [apply source_ok_snoc_new |].
    destruct Hv as [(d0 & Hin & Hid & _) | (_ & _ & Hzero)].
    + exfalso. apply Hfresh. rewrite <- Hk, <- Hid. apply list_elem_of_fmap_2, Hin.
    + rewrite Hs, Hzero. ring.
  - split; [apply Hkeys' |]. intros e He.
    apply elem_of_map_set in He as [-> | [He Hfst]]; [| auto | exact Hnd].
    split; [reflexivity |]. unfold combined_ok. simpl.
    split; [| split; [apply source_ok_snoc_new | ring]].
    right. repeat split. intros d' Hd' Heq.
    apply map_get_None in Hget. apply Hget. rewrite Hkeys.
    apply elem_of_fold_set_add. left. apply elem_of_new_Set.
    rewrite <- Heq. apply list_elem_of_fmap_2, Hd'.
Qed.

Lemma hybrid_resultMap_ok (b v : list Doc) :
  NoDup (map _id v) ->
  map_ok b v lo_b rng_b lo_v rng_v wb wv
    (forEach (add_vector lo_v rng_v wv) v (forEach (add_bm25 lo_b rng_b wb) b [])).
Proof.
  intros Hnd.
  apply (forEach_inv (add_vector lo_v rng_v wv)
           (fun pre m => NoDup (map _id pre) -> map_ok b pre lo_b rng_b lo_v rng_v wb wv m));
    [| | exact Hnd].
  - intros _.
    apply (forEach_inv (add_bm25 lo_b rng_b wb)
             (fun pre m => map_ok pre [] lo_b rng_b lo_v rng_v wb wv m)).
    + split; [reflexivity |]. intros e He. apply elem_of_nil in He. contradiction.
    + intros pre x s. apply hybrid_add_bm25_ok.
  - intros pre x s IH Hpre. rewrite map_app in Hpre.
    apply NoDup_app in Hpre as (Hpre & Hx & _).
    apply hybrid_add_vector_ok; [| apply IH, Hpre].
    intros Hin. apply (Hx _ Hin). left.
Qed.
End Combine.

Lemma elem_of_combinedResults (p : Params) (b v : list Doc) (m : Combined) :
  m ∈ combinedResults p b v ->
  m ∈ map_values
        (forEach
           (add_vector (Math_min (map score v) 0)
              (range (Math_max (map score v) 1) (Math_min (map score v) 0))
              (vectorWeight p)) v
           (forEach
              (add_bm25 (Math_min (map score b) 0)
                 (range (Math_max (map score b) 1) (Math_min (map score b) 0))
                 (bm25Weight p)) b [])).
Proof.
  unfold combinedResults. cbv zeta. intros Hm.
  assert (Hs : m ∈ sort by_hybridScore
                 (map_values
                    (forEach
                       (add_vector (Math_min (map score v) 0)
                          (range (Math_max (map score v) 1) (Math_min (map score v) 0))
                          (vectorWeight p)) v
                       (forEach
                          (add_bm25 (Math_min (map score b) 0)
                             (range (Math_max (map score b) 1) (Math_min (map score b) 0))
                             (bm25Weight p)) b [])))).
  { destruct (filters p); [exact Hm |].
    apply list_elem_of_In, filter_In in Hm as [Hm _]. apply list_elem_of_In, Hm. }
  rewrite (sort_perm hybridScore) in Hs. exact Hs.
Qed.

(** When the dense results have distinct ids, every hybrid result's score
    is [bm25Weight] times its normalised lexical score plus [vectorWeight]
    times its normalised dense score, each normalised score lies in [0, 1],
    and that of a source without the document is 0. *)
Theorem hybrid_score_is_weighted_sum (p : Params) (b v : list Doc) (m : Combined) :
  NoDup (map _id v) ->
  m ∈ combinedResults p b v ->
  (hybridScore m ==
   bm25ScoreNormalized m * bm25Weight p + vectorScoreNormalized m * vectorWeight p)%Q /\
  (0 <= bm25ScoreNormalized m <= 1)%Q /\
  (0 <= vectorScoreNormalized m <= 1)%Q /\
  ((forall d, d ∈ b -> _id d <> _id (doc m)) -> bm25ScoreNormalized m = 0%Q) /\
  ((forall d, d ∈ v -> _id d <> _id (doc m)) -> vectorScoreNormalized m = 0%Q).
Proof.
  intros Hnd Hm. apply elem_of_combinedResults in Hm.
  unfold map_values in Hm. apply list_elem_of_fmap in Hm as (e & -> & He).
  destruct (hybrid_resultMap_ok
              (Math_min (map score b) 0)
              (range (Math_max (map score b) 1) (Math_min (map score b) 0))
              (Math_min (map score v) 0)
              (range (Math_max (map score v) 1) (Math_min (map score v) 0))
              (bm25Weight p) (vectorWeight p) b v Hnd) as [_ Hall].
  destruct (Hall e He) as (_ & Hb & Hv & Hs).
  split; [exact Hs |].
  assert (Hbound : forall docs raw n,
            source_ok docs (Math_min (map score docs) 0)
              (range (Math_max (map score docs) 1) (Math_min (map score docs) 0))
              (_id (doc (snd e))) raw n ->
            (0 <= n <= 1)%Q /\
            ((forall d, d ∈ docs -> _id d <> _id (doc (snd e))) -> n = 0%Q)).
  { intros docs raw n [(d & Hin & Hid & _ & ->) | (_ & _ & ->)].
    - destruct (range_anchored docs) as [-> Hpos].
      assert (Hsc : score d ∈ map score docs) by apply list_elem_of_fmap_2, Hin.
      pose proof (Math_min_le _ 0 _ Hsc). pose proof (Math_max_ge _ 1 _ Hsc).
      split.
      + split; [apply Qle_shift_div_l | apply Qle_shift_div_r]; lra.
      + intros Hall'. exfalso. exact (Hall' d Hin Hid).
    - split; [lra | reflexivity]. }
  destruct (Hbound _ _ _ Hb) as [Hb1 Hb2]. destruct (Hbound _ _ _ Hv) as [Hv1 Hv2].
  repeat split; try apply Hb1; try apply Hv1; assumption.
Qed.

Lemma hybrid_score_is_weighted_sum_witness :
  (hybridScore MoreExamples.top_hybrid ==
   bm25ScoreNormalized MoreExamples.top_hybrid * (5 # 10) +
   vectorScoreNormalized MoreExamples.top_hybrid * (5 # 10))%Q.
Proof.
  apply (hybrid_score_is_weighted_sum (destructure (Examples.hybrid_body "consent"))
           Examples.lexical Examples.dense MoreExamples.top_hybrid).
  - apply (bool_decide_unpack (NoDup (map _id Examples.dense))). vm_compute. exact I.
  - vm_compute. left.
Defined.

Lemma StronglySorted_filter {A : Type} (R : A -> A -> Prop) (f : A -> bool) (l : list A) :
  StronglySorted R l -> StronglySorted R (List.filter f l).
Proof.
  induction 1 as [| x l Hl IH Hx]; simpl; [constructor |].
  destruct (f x); [| exact IH]. constructor; [exact IH |].
  apply Forall_forall. intros y Hy. apply list_elem_of_In, filter_In in Hy as [Hy _].
  rewrite Forall_forall in Hx. apply Hx, list_elem_of_In, Hy.
Qed.

Lemma elem_of_firstn {A : Type} (n : nat) (l : list A) (y : A) :
  y ∈ firstn n l -> y ∈ l.
Proof.
  intros Hy. rewrite <- (firstn_skipn n l). apply elem_of_app. left. exact Hy.
Qed.

Lemma StronglySorted_firstn {A : Type} (R : A -> A -> Prop) (n : nat) (l : list A) :
  StronglySorted R l -> StronglySorted R (firstn n l).
Proof.
  intros H. revert n. induction H as [| x l Hl IH Hx]; intros [| n]; simpl;
    try constructor.
  - apply IH.
  - apply Forall_forall. intros y Hy. rewrite Forall_forall in Hx. apply Hx.
    eapply elem_of_firstn, Hy.
Qed.

Lemma combinedResults_sorted (p : Params) (b v : list Doc) :
  StronglySorted (not_below hybridScore) (combinedResults p b v) /\
  Forall (fun r => matches (filters p) r = true) (combinedResults p b v).
Proof.
  unfold combinedResults. cbv zeta.
  destruct (filters p) as [| f fs] eqn:E.
  - split; [apply (sort_sorted hybridScore) |].
    apply Forall_forall. intros r _. reflexivity.
  - split; [apply StronglySorted_filter, (sort_sorted hybridScore) |].
    apply Forall_forall. intros r Hr.
    apply list_elem_of_In, filter_In in Hr as [_ Hr]. exact Hr.
Qed.

Lemma hybrid_found_partition (l : list Combined) :
  (length (List.filter (found both) l) + length (List.filter (found bm25) l) +
   length (List.filter (found vector) l))%nat = length l.
Proof.
  induction l as [| r l IH]; [reflexivity |].
  cbn [List.filter].
  assert (Hr : (found both r = true /\ found bm25 r = false /\ found vector r = false) \/
               (found both r = false /\ found bm25 r = true /\ found vector r = false) \/
               (found both r = false /\ found bm25 r = false /\ found vector r = true)).
  { unfold found. destruct (foundIn r); auto. }
  destruct Hr as [(-> & -> & ->) | [(-> & -> & ->) | (-> & -> & ->)]]; simpl; lia.
Qed.

(** Every successful hybrid response lists its results by non-increasing
    hybrid score; each result satisfies every filter of the request; the
    results are the first [limit] combined candidates, so at most [limit]
    for a limit that is a count; and the three "found in" counts add up to
    [count]. *)
Theorem hybrid_results_ordered (w : World) (body : Req.Body) (log : list Call)
    (out : Payload) :
  handler w body = (log, Json out) ->
  StronglySorted (not_below hybridScore) (results out) /\
  Forall (fun r => matches (filters (destructure body)) r = true) (results out) /\
  count out = length (results out) /\
  (foundInBoth out + foundInBm25Only out + foundInVectorOnly out)%nat = count out /\
  ((0 <= limit (destructure body))%Z ->
   (Z.of_nat (count out) <= limit (destructure body))%Z).
Proof.
  unfold handler. intros Hrun.
  destruct (truthy (query (destructure body))) as [q |]; [| discriminate].
  unfold try_catch in Hrun. rewrite hybrid_search_run in Hrun.
  destruct (mongo_connect w) as [e | []]; [discriminate |].
  cbv zeta in Hrun.
  destruct (validateDbCollectionIndex w BM25_INDEX_NAME); [discriminate |].
  destruct (validateDbCollectionIndex w VECTOR_INDEX_NAME); [discriminate |].
  destruct (bm25_aggregate w _) as [e | b]; [discriminate |].
  destruct (embedding_post w 0 q) as [e | emb]; [discriminate |].
  destruct (emb_status emb =? 200)%Z; [| discriminate].
  destruct (vector_aggregate w _) as [e | v]; [discriminate |].
  injection Hrun as _ <-. simpl.
  destruct (combinedResults_sorted (destructure body) b v) as [Hs Hf].
  split; [apply StronglySorted_firstn, Hs |].
  split.
  { apply Forall_forall. intros r Hr. rewrite Forall_forall in Hf. apply Hf.
    eapply elem_of_firstn, Hr. }
  split; [reflexivity |]. split; [apply hybrid_found_partition |].
  apply slice0_length.
Qed.

Lemma hybrid_results_ordered_witness :
  exists out,
    snd (handler Examples.healthy (Examples.hybrid_body "consent")) = Json out /\
    StronglySorted (not_below hybridScore) (results out) /\
    (Z.of_nat (count out) <= 10)%Z.
Proof.
  destruct (hybrid_results_ordered Examples.healthy (Examples.hybrid_body "consent")
              _ _ eq_refl) as (Hs & _ & _ & _ & Hl).
  eexists. split; [reflexivity |]. split; [exact Hs |].
  apply Hl. vm_compute. discriminate.
Defined.

(** A missing index stops the hybrid request before any search or
    embedding call: the client is closed and the answer is 400 with the
    index error, the lexical one first when both indexes are missing. *)
Theorem hybrid_rejects_missing_index (w : World) (body : Req.Body) (q : string) :
  truthy (Req.query body) = Some q ->
  mongo_connect w = Resolved () ->
  validateDbCollectionIndex w BM25_INDEX_NAME <> None \/
  validateDbCollectionIndex w VECTOR_INDEX_NAME <> None ->
  exists error,
    handler w body =
      ([MongoConnect; ValidateIndex BM25_INDEX_NAME; ValidateIndex VECTOR_INDEX_NAME;
        MongoClose],
       BadRequest error) /\
    error =
      match validateDbCollectionIndex w BM25_INDEX_NAME,
            validateDbCollectionIndex w VECTOR_INDEX_NAME with
      | Some e, _ => "BM25 Index: " +:+ e
      | None, Some e => "Vector Index: " +:+ e
      | None, None => ""
      end.
Proof.
  intros Hq Hc Hv. unfold handler.
  change (query (destructure body)) with (Req.query body). rewrite Hq.
  unfold try_catch. rewrite hybrid_search_run, Hc. cbv zeta.
  destruct (validateDbCollectionIndex w BM25_INDEX_NAME) as [e1 |];
    destruct (validateDbCollectionIndex w VECTOR_INDEX_NAME) as [e2 |];
    try (eexists; split; reflexivity).
  destruct Hv as [Hv | Hv]; contradiction.
Qed.

Lemma hybrid_rejects_missing_index_witness :
  status (snd (handler MoreExamples.no_vector_index (Examples.hybrid_body "consent"))) =
    400%nat /\
  embedding_calls (fst (handler MoreExamples.no_vector_index
                          (Examples.hybrid_body "consent"))) = 0%nat.
Proof.
  destruct (hybrid_rejects_missing_index MoreExamples.no_vector_index
              (Examples.hybrid_body "consent") "consent" eq_refl eq_refl)
    as (error & -> & _).
  - right. discriminate.
  - split; reflexivity.
Defined.

End HybridExtras.

(** ** The job registry *)

Module JobsFacts.
Import JS JSFacts Jobs.

Section MapLookup.
Context {V : Type}.
Implicit Types (m : list (string * V)) (k : string) (v : V).

Lemma map_get_set_eq m k v : map_get (map_set m k v) k = Some v.
Proof.
  induction m as [| [k' v'] m IH]; simpl.
  - rewrite String.eqb_refl. reflexivity.
  - destruct (String.eqb_spec k k') as [-> | Hne]; simpl.
    + rewrite String.eqb_refl. reflexivity.
    + destruct (String.eqb_spec k k'); [contradiction | exact IH].
Qed.

Lemma map_get_set_ne m k k' v : k <> k' -> map_get (map_set m k v) k' = map_get m k'.
Proof.
  intros Hne. induction m as [| [k0 v0] m IH]; simpl.
  - destruct (String.eqb_spec k' k); [congruence | reflexivity].
  - destruct (String.eqb_spec k k0) as [-> | Hk]; simpl.
    + destruct (String.eqb_spec k' k0); [congruence | reflexivity].
    + destruct (String.eqb_spec k' k0); [reflexivity | exact IH].
Qed.

Lemma map_get_app_fresh m m' k :
  k ∉ map_keys m -> map_get (m ++ m') k = map_get m' k.
Proof.
  induction m as [| [k0 v0] m IH]; simpl; [reflexivity |].
  rewrite not_elem_of_cons. intros [Hne Hk].
  destruct (String.eqb_spec k k0); [contradiction | apply IH, Hk].
Qed.

Lemma map_get_filter (f : string * V -> bool) m k :
  NoDup (map_keys m) ->
  map_get (List.filter f m) k =
  match map_get m k with
  | Some v => if f (k, v) then Some v else None
  | None => None
  end.
Proof.
  induction m as [| [k0 v0] m IH]; simpl; intros Hnd; [reflexivity |].
  apply NoDup_cons in Hnd as [Hk0 Hnd].
  destruct (String.eqb_spec k k0) as [-> | Hne].
  - destruct (f (k0, v0)) eqn:E; simpl.
    + rewrite String.eqb_refl. reflexivity.
    + rewrite (IH Hnd).
      destruct (map_get m k0) as [v |] eqn:Hg; [| reflexivity].
      exfalso. apply Hk0. apply map_get_Some in Hg.
      unfold map_keys. apply list_elem_of_fmap. exists (k0, v). split; [reflexivity | exact Hg].
  - destruct (f (k0, v0)); simpl.
    + destruct (String.eqb_spec k k0); [contradiction | apply IH, Hnd].
    + apply IH, Hnd.
Qed.

Lemma map_keys_filter (f : string * V -> bool) m :
  sublist (map_keys (List.filter f m)) (map_keys m).
Proof.
  induction m as [| e m IH]; simpl; [constructor |].
  destruct (f e); simpl; [apply sublist_skip | apply sublist_cons]; exact IH.
Qed.
End MapLookup.

Lemma map_delete_middle (kept rest : Registry) (k : string) (v : Job) :
  k ∉ map_keys kept -> map_delete (kept ++ (k, v) :: rest) k = kept ++ rest.
Proof.
  induction kept as [| [k0 v0] kept IH]; simpl.
  - intros _. rewrite String.eqb_refl. reflexivity.
  - rewrite not_elem_of_cons. intros [Hne Hk].
    destruct (String.eqb_spec k k0); [contradiction |].
    rewrite IH by exact Hk. reflexivity.
Qed.

(** The clean-up loop keeps exactly the entries that are not too old. *)
Lemma sweep_loop (oneHourAgo : Z) (post kept : Registry) :
  NoDup (map_keys (kept ++ post)) ->
  fold_left
    (fun m e => if (startTime (snd e) <? oneHourAgo)%Z then map_delete m (fst e) else m)
    post (kept ++ post) =
  kept ++ List.filter (fun e => negb (startTime (snd e) <? oneHourAgo)%Z) post.
Proof.
  revert kept. induction post as [| [k v] post IH]; intros kept Hnd; simpl.
  - reflexivity.
  - destruct (startTime v <? oneHourAgo)%Z eqn:E; simpl.
    + unfold map_keys in Hnd. rewrite map_app in Hnd. simpl in Hnd.
      assert (Hk : k ∉ map_keys kept).
      { apply NoDup_app in Hnd as (_ & Hx & _). intros Hin. apply (Hx _ Hin). left. }
      rewrite map_delete_middle by exact Hk. apply IH.
      unfold map_keys. rewrite map_app.
      apply NoDup_app in Hnd as (H1 & H2 & H3). apply NoDup_cons in H3 as [_ H3].
      apply NoDup_app. repeat split; try assumption.
      intros x Hx Hx'. apply (H2 x Hx). right. exact Hx'.
    + replace (kept ++ (k, v) :: post) with ((kept ++ [(k, v)]) ++ post)
        by (rewrite <- app_assoc; reflexivity).
      rewrite IH by (rewrite <- app_assoc; exact Hnd).
      rewrite <- app_assoc. reflexivity.
Qed.

Lemma sweep_filter (now : Z) (jobs : Registry) :
  NoDup (map_keys jobs) ->
  sweep now jobs =
  List.filter (fun e => negb (startTime (snd e) <? now - 60 * 60 * 1000)%Z) jobs.
Proof. intros Hnd. unfold sweep. apply (sweep_loop _ jobs []), Hnd. Qed.

(** A job just created can be looked up under the returned id, with the
    initial state, and is listed as active; every other id answers as
    before, and the ids of the registry stay distinct. *)
Theorem created_job_is_registered (now : Z) (random : string) (fs : list string)
    (jobs : Registry) :
  let jobId := fst (createJob now random fs jobs) in
  let jobs' := snd (createJob now random fs jobs) in
  (exists job,
     getJob jobs' jobId = Some job /\
     id job = jobId /\ files job = fs /\ status job = "in-progress" /\
     progress job = 0%nat /\ total job = length fs /\ results job = [] /\
     startTime job = now /\ job ∈ activeJobs jobs') /\
  (forall k, k <> jobId -> getJob jobs' k = getJob jobs k) /\
  (NoDup (map_keys jobs) -> NoDup (map_keys jobs')).
Proof.
  cbv zeta. unfold createJob, getJob. simpl. split; [| split].
  - eexists. split; [apply map_get_set_eq |]. repeat split.
    unfold activeJobs. apply list_elem_of_In, filter_In. split; [| reflexivity].
    apply list_elem_of_In. unfold map_values.
    apply list_elem_of_fmap. eexists.
    split; [| apply map_get_Some, map_get_set_eq]. reflexivity.
  - intros k Hk. apply map_get_set_ne. congruence.
  - apply NoDup_map_keys_set.
Qed.

Lemma updateJob_keys (jobId : string) (u : Updates) (jobs : Registry) :
  map_keys (updateJob jobId u jobs) = map_keys jobs.
Proof.
  unfold updateJob. destruct (map_get jobs jobId) as [job |] eqn:Hg; [| reflexivity].
  rewrite map_keys_set. unfold set_add.
  replace (has (map_keys jobs) jobId) with true; [reflexivity |].
  symmetry. apply has_true. apply map_get_Some in Hg.
  unfold map_keys. apply list_elem_of_fmap. exists (jobId, job).
  split; [reflexivity | exact Hg].
Qed.

Lemma updateJob_other (jobId k : string) (u : Updates) (jobs : Registry) :
  k <> jobId -> getJob (updateJob jobId u jobs) k = getJob jobs k.
Proof.
  intros Hk. unfold updateJob, getJob.
  destruct (map_get jobs jobId); [| reflexivity].
  apply map_get_set_ne. congruence.
Qed.

Lemma updateJob_known (jobId : string) (u : Updates) (jobs : Registry) (job : Job) :
  getJob jobs jobId = Some job ->
  getJob (updateJob jobId u jobs) jobId = Some (assign job u).
Proof.
  unfold updateJob, getJob. intros ->. apply map_get_set_eq.
Qed.

Lemma updateJob_unknown (jobId : string) (u : Updates) (jobs : Registry) :
  getJob jobs jobId = None -> updateJob jobId u jobs = jobs.
Proof. unfold updateJob, getJob. intros ->. reflexivity. Qed.


(** After the clean-up at time [now], a job is still found exactly when it
    was there and did not start more than one hour before [now]; a job that
    is exactly one hour old stays. The ids stay distinct. *)
Theorem sweep_removes_old_jobs (now : Z) (jobs : Registry) (k : string) :
  NoDup (map_keys jobs) ->
  getJob (sweep now jobs) k =
    match getJob jobs k with
    | Some job => if (startTime job <? now - 3600000)%Z then None else Some job
    | None => None
    end /\
  (http_status (job_status (sweep now jobs) k) = 404%nat <->
   forall job, getJob jobs k = Some job -> (startTime job < now - 3600000)%Z) /\
  NoDup (map_keys (sweep now jobs)).
Proof.
  intros Hnd. rewrite sweep_filter by exact Hnd.
  assert (Hget : getJob
            (List.filter (fun e => negb (startTime (snd e) <? now - 60 * 60 * 1000)%Z) jobs) k =
          match getJob jobs k with
          | Some job => if (startTime job <? now - 3600000)%Z then None else Some job
          | None => None
          end).
  { unfold getJob. rewrite map_get_filter by exact Hnd.
    destruct (map_get jobs k) as [job |]; [| reflexivity]. simpl.
    change (60 * 60 * 1000)%Z with 3600000%Z.
    destruct (startTime job <? now - 3600000)%Z; reflexivity. }
  split; [exact Hget |]. split.
  - unfold job_status. rewrite Hget.
    destruct (getJob jobs k) as [job |]; simpl.
    + destruct (Z.ltb_spec (startTime job) (now - 3600000)); simpl.
      * split; [intros _ job' [= <-]; assumption | reflexivity].
      * split; [discriminate |]. intros H'. specialize (H' job eq_refl). lia.
    + split; [intros _ job' Hj; discriminate | reflexivity].
  - eapply sublist_NoDup; [exact Hnd | apply map_keys_filter].
Qed.

Lemma sweep_removes_old_jobs_witness :
  http_status (job_status (sweep 5000000 JobExamples.registry) JobExamples.old_id) =
    404%nat /\
  length (sweep 5000000 JobExamples.registry) = 1%nat.
Proof.
  assert (Hnd : NoDup (map_keys JobExamples.registry)).
  { apply (bool_decide_unpack (NoDup (map_keys JobExamples.registry))).
    vm_compute. exact I. }
  destruct (sweep_removes_old_jobs 5000000 JobExamples.registry JobExamples.old_id Hnd)
    as (Hget & _ & _).
  split; [| reflexivity].
  unfold job_status. rewrite Hget. reflexivity.
Defined.

(** The loop of [processEmbeddings] over the files [fs]. *)
Lemma process_files (run : string -> ScriptRun) (jobId : string) (job : Job)
    (jobs : Registry) (fs : list string) :
  getJob jobs jobId = Some job ->
  exists jobs',
    fold_left (process_file run jobId) fs ([], jobs) =
      (map (fun f => result_of f (run f)) fs, jobs') /\
    map_keys jobs' = map_keys jobs /\
    (forall k, k <> jobId -> getJob jobs' k = getJob jobs k) /\
    getJob jobs' jobId =
      Some {| id := id job; files := files job; status := status job;
              progress := match fs with [] => progress job | _ => length fs end;
              total := total job;
              results :=
                match fs with
                | [] => results job
                | _ => map (fun f => result_of f (run f)) fs
                end;
              startTime := startTime job;
              currentFile :=
                match last fs with
                | Some f => Some f
                | None => currentFile job
                end;
              endTime := endTime job |}.
Proof.
  intros Hjob. induction fs as [| f fs IH] using rev_ind.
  - exists jobs. simpl. repeat split. rewrite Hjob. destruct job; reflexivity.
  - destruct IH as (jobs1 & Hfold & Hkeys & Hframe & Hget).
    rewrite fold_left_app, Hfold. simpl.
    eexists. split; [rewrite map_app; reflexivity |].
    split; [rewrite !updateJob_keys; exact Hkeys |].
    split.
    + intros k Hk. rewrite !updateJob_other by exact Hk. apply Hframe, Hk.
    + erewrite updateJob_known; [| erewrite updateJob_known; [reflexivity | exact Hget]].
      unfold assign. simpl. rewrite last_snoc, length_app, !length_map. simpl.
      destruct fs; simpl; rewrite ?map_app, ?length_app, ?length_map; reflexivity.
Qed.




End JobsFacts.

(** * The summarize route and the client's workflow *)

Module SummarizeExtras.
Import Effects Summarize.

(** The summarize route calls the completion service at most once per
    request, and only when the results array is non-empty and both
    [USER_EMAIL] and [AUTH_TOKEN] are set; the one call carries the summary
    type of the request ("detailed" when none is given) and all the
    results. *)
Theorem summarize_calls_service_at_most_once (w : World) (body : Body) :
  fst (handler w body) = [] \/
  exists rs,
    results body = Some rs /\ rs <> [] /\
    is_set (USER_EMAIL w) = true /\ is_set (AUTH_TOKEN w) = true /\
    fst (handler w body) =
      [CompletionPost (default "detailed" (summaryType body)) (length rs)].
Proof.
  unfold handler. destruct (results body) as [[| r rs] |]; [left; reflexivity | | left; reflexivity].
  unfold try_catch, summarise.
  destruct (is_set (USER_EMAIL w)) eqn:He; [| left; reflexivity].
  destruct (is_set (AUTH_TOKEN w)) eqn:Ha; [| left; reflexivity].
  right. exists (r :: rs). split; [reflexivity |]. split; [discriminate |].
  split; [reflexivity |]. split; [reflexivity |].
  cbn [negb andb]. unfold mbind, M_bind, await, throw, mret, M_ret.
  destruct (completion_post w _ _) as [e | [c |]]; reflexivity.
Qed.


End SummarizeExtras.

Module WorkflowExtras.
Import Effects Workflow.

(** Whatever the server answers, the workflow hands to the generation step
    between one and ten stories, or it fails before generating. *)
Theorem generation_gets_one_to_ten_stories {R : Type}
    (generate : string -> list Dedup.Item -> SummaryData -> W R)
    (s : Server) (testQuery : string) (log : list nat) :
  (exists log' e, steps generate s testQuery log = (log', Rejected e)) \/
  (exists top data log',
     steps generate s testQuery log = generate testQuery top data log' /\
     (1 <= length top <= 10)%nat).
Proof.
  remember (steps generate s testQuery log) as outcome eqn:Hsteps.
  unfold steps in Hsteps. unfold mbind at 1 in Hsteps. unfold W_bind in Hsteps.
  destruct (candidates s testQuery log) as [log1 [e | finalResults]];
    [left; eauto |].
  pose proof (JSFacts.slice0_length finalResults 10 ltac:(lia)) as Hlen.
  destruct (JS.slice0 finalResults 10) as [| r top] eqn:Htop.
  { left. unfold throw in Hsteps. eauto. }
  unfold summarise in Hsteps.
  unfold mbind, W_bind, setGenerationProgress in Hsteps.
  destruct (fetch_summarize s _ _) as [e | st data]; simpl in Hsteps.
  { left. unfold throw in Hsteps. eauto. }
  destruct (ok st); simpl in Hsteps.
  - right. eexists _, _, _. split; [exact Hsteps |]. simpl in *. lia.
  - left. unfold throw in Hsteps. eauto.
Qed.



End WorkflowExtras.

(** * The next test-case id *)

Module LatestIdFacts.
Import LatestId.

Lemma digits_all (s : string) : all_digits s = true -> digits s = s.
Proof.
  induction s as [| c s IH]; simpl; [reflexivity |].
  destruct (is_digit c); simpl; [| discriminate].
  intros Hs. rewrite IH by exact Hs. reflexivity.
Qed.

Lemma digits_are_digits (s : string) : all_digits (digits s) = true.
Proof.
  induction s as [| c s IH]; simpl; [reflexivity |].
  destruct (is_digit c) eqn:Hc; simpl; [rewrite Hc; exact IH | reflexivity].
Qed.

Lemma match_TC_digits (s ds : string) :
  match_TC s = Some ds -> all_digits ds = true /\ ds <> "".
Proof.
  induction s as [| c s IH]; [discriminate |].
  intros H. cbn [match_TC] in H.
  assert (Hcase :
    match_TC s = Some ds \/
    exists rest, digits rest = ds /\ ds <> "").
  { repeat (match type of H with
            | context [match ?x with _ => _ end] => destruct x eqn:?
            end; try (left; exact H); try discriminate).
    all: injection H as <-; right; eexists; split; [eassumption | discriminate]. }
  destruct Hcase as [Hs | (rest & <- & Hne)]; [apply IH, Hs |].
  split; [apply digits_are_digits | exact Hne].
Qed.

Lemma match_TC_prefixed (ds : string) :
  all_digits ds = true -> ds <> "" -> match_TC ("TC_" +:+ ds) = Some ds.
Proof.
  intros Hall Hne.
  change (match_TC ("TC_" +:+ ds))
    with (match digits ds with
          | EmptyString => match_TC ("C_" +:+ ds)
          | ds' => Some ds'
          end).
  rewrite (digits_all ds Hall).
  destruct ds; [contradiction | reflexivity].
Qed.

Lemma digit_value_char (d : N) : (d < 10)%N -> digit_value (pretty_N_char d) = d.
Proof.
  intros Hd.
  assert (d = 0 \/ d = 1 \/ d = 2 \/ d = 3 \/ d = 4 \/ d = 5 \/ d = 6 \/ d = 7 \/
          d = 8 \/ d = 9)%N as Hcases by lia.
  repeat (destruct Hcases as [-> | Hcases]; [reflexivity |]). subst. reflexivity.
Qed.

Lemma is_digit_char (d : N) : is_digit (pretty_N_char d) = true.
Proof.
  unfold pretty_N_char.
  repeat (match goal with |- context [match ?x with _ => _ end] => destruct x end;
          try reflexivity).
Qed.

Lemma pretty_go_digits (x : N) (s : string) :
  all_digits s = true -> all_digits (pretty_N_go x s) = true.
Proof.
  revert s. induction (N.lt_wf_0 x) as [x _ IH]. intros s Hs.
  destruct (N.eq_dec x 0%N) as [-> | Hx]; [rewrite pretty_N_go_0; exact Hs |].
  rewrite pretty_N_go_step by lia. apply IH.
  - apply N.div_lt; lia.
  - simpl. rewrite is_digit_char. exact Hs.
Qed.

Lemma pretty_go_length (x : N) (s : string) :
  (String.length s <= String.length (pretty_N_go x s))%nat.
Proof.
  revert s. induction (N.lt_wf_0 x) as [x _ IH]. intros s.
  destruct (N.eq_dec x 0%N) as [-> | Hx]; [rewrite pretty_N_go_0; lia |].
  rewrite pretty_N_go_step by lia.
  etransitivity; [| apply IH, N.div_lt; lia]. simpl. lia.
Qed.

Lemma parse_pretty_go (x : N) (s : string) (acc : N) :
  exists k, parseInt_from acc (pretty_N_go x s) = parseInt_from (acc * 10 ^ k + x) s.
Proof.
  revert s acc. induction (N.lt_wf_0 x) as [x _ IH]. intros s acc.
  destruct (N.eq_dec x 0%N) as [-> | Hx].
  { exists 0%N. rewrite pretty_N_go_0. f_equal. simpl. lia. }
  rewrite pretty_N_go_step by lia.
  destruct (IH (x `div` 10)%N ltac:(apply N.div_lt; lia)
              (String (pretty_N_char (x `mod` 10)) s) acc) as [k ->].
  exists (k + 1)%N. simpl. f_equal.
  rewrite digit_value_char by (apply N.mod_lt; lia).
  rewrite N.pow_add_r, N.pow_1_r.
  pose proof (N.div_mod x 10 ltac:(lia)). lia.
Qed.

Lemma pretty_digits (n : N) : all_digits (pretty n) = true /\ pretty n <> "".
Proof.
  unfold pretty, pretty_N. destruct (decide (n = 0%N)) as [-> | Hn].
  { split; [reflexivity | discriminate]. }
  split; [apply pretty_go_digits; reflexivity |].
  rewrite pretty_N_go_step by lia.
  pose proof (pretty_go_length (n `div` 10)%N (String (pretty_N_char (n `mod` 10)) "")) as Hlen.
  intros Heq. rewrite Heq in Hlen. simpl in Hlen. lia.
Qed.

Lemma parseInt_pretty (n : N) : parseInt (pretty n) = n.
Proof.
  unfold pretty, pretty_N, parseInt. destruct (decide (n = 0%N)) as [-> | Hn];
    [reflexivity |].
  destruct (parse_pretty_go n "" 0%N) as [k ->]. simpl. lia.
Qed.

Lemma parseInt_zeros (k : nat) (s : string) :
  parseInt (repeat_char "0" k +:+ s) = parseInt s.
Proof. induction k as [| k IH]; [reflexivity | exact IH]. Qed.

Lemma all_digits_zeros (k : nat) (s : string) :
  all_digits s = true -> all_digits (repeat_char "0" k +:+ s) = true.
Proof. intros Hs. induction k as [| k IH]; [exact Hs | exact IH]. Qed.

Lemma length_append (s t : string) :
  String.length (s +:+ t) = (String.length s + String.length t)%nat.
Proof. induction s as [| c s IH]; simpl; [reflexivity | rewrite IH; reflexivity]. Qed.

Lemma length_repeat_char (c : ascii) (k : nat) : String.length (repeat_char c k) = k.
Proof. induction k as [| k IH]; simpl; [reflexivity | rewrite IH; reflexivity]. Qed.

Lemma larger_ge (m : N) (id : option string) : (m <= larger m id)%N.
Proof.
  unfold larger. destruct (numId id) as [n |]; [| lia].
  destruct (N.ltb_spec m n); lia.
Qed.

Lemma fold_larger_ge (ids : list (option string)) (m : N) :
  (m <= fold_left larger ids m)%N.
Proof.
  revert m. induction ids as [| id ids IH]; intros m; simpl; [lia |].
  etransitivity; [apply (larger_ge m id) | apply IH].
Qed.

Lemma fold_larger_bound (ids : list (option string)) (m : N) (id : option string) (n : N) :
  In id ids -> numId id = Some n -> (n <= fold_left larger ids m)%N.
Proof.
  revert m. induction ids as [| id' ids IH]; intros m Hin Hn; [contradiction |].
  simpl. destruct Hin as [-> | Hin]; [| apply IH; assumption].
  etransitivity; [| apply fold_larger_ge].
  unfold larger. rewrite Hn. destruct (N.ltb_spec m n); lia.
Qed.

Lemma fold_larger_attained (ids : list (option string)) (m : N) :
  fold_left larger ids m = m \/
  exists id, In id ids /\ numId id = Some (fold_left larger ids m).
Proof.
  revert m. induction ids as [| id ids IH]; intros m; simpl; [left; reflexivity |].
  destruct (IH (larger m id)) as [-> | (id' & Hin & Hn)].
  - unfold larger. destruct (numId id) as [n |] eqn:Hn; [| left; reflexivity].
    destruct (m <? n)%N; [| left; reflexivity].
    right. exists id. split; [left; reflexivity | exact Hn].
  - right. exists id'. split; [right; exact Hin | exact Hn].
Qed.

(** [latestId] is 0 or the number of a stored id, and no stored id has a
    larger number; the proposed [nextTestCaseId] reads back as [nextId]
    under the same expression, has at least four digits, and is not the id
    of any stored document. *)
Theorem next_id_is_new (ids : list (option string)) :
  (forall id n, In id ids -> numId id = Some n -> (n < exact)%N) ->
  let p := latest ids in
  (latestId p = 0%N \/ exists id, In id ids /\ numId id = Some (latestId p)) /\
  (forall id n, In id ids -> numId id = Some n -> (n < nextId p)%N) /\
  numId (Some (nextTestCaseId p)) = Some (nextId p) /\
  (7 <= String.length (nextTestCaseId p))%nat /\
  ~ In (Some (nextTestCaseId p)) ids.
Proof.
  intros _ p.
  assert (Hbound : forall id n, In id ids -> numId id = Some n -> (n < nextId p)%N).
  { intros id n Hin Hn. simpl. unfold maxId.
    pose proof (fold_larger_bound ids 0%N id n Hin Hn). lia. }
  assert (Hback : numId (Some (nextTestCaseId p)) = Some (nextId p)).
  { simpl. destruct (pretty_digits (maxId ids + 1)%N) as [Hall Hne].
    pose proof (match_TC_prefixed (padStart 4 "0" (pretty (maxId ids + 1)%N))) as Hm.
    simpl in Hm. rewrite Hm.
    - simpl. unfold padStart. rewrite parseInt_zeros, parseInt_pretty. reflexivity.
    - apply all_digits_zeros, Hall.
    - unfold padStart. intros Heq.
      apply (f_equal String.length) in Heq. rewrite length_append in Heq.
      destruct (pretty (maxId ids + 1)%N); [contradiction | simpl in Heq; lia]. }
  split; [apply fold_larger_attained |].
  split; [exact Hbound |]. split; [exact Hback |]. split.
  - unfold p, latest, padStart. cbn [nextTestCaseId].
    rewrite !length_append, length_repeat_char. simpl. lia.
  - intros Hin. pose proof (Hbound _ _ Hin Hback). lia.
Qed.

Lemma next_id_is_new_witness :
  nextTestCaseId (latest stored) = "TC_0124" /\
  ~ In (Some (nextTestCaseId (latest stored))) stored.
Proof.
  split; [reflexivity |].
  apply (next_id_is_new stored).
  intros id n Hin Hn. unfold stored in Hin. simpl in Hin.
  repeat (destruct Hin as [<- | Hin];
          [vm_compute in Hn; try discriminate; injection Hn as <-; reflexivity |]).
  contradiction.
Defined.

End LatestIdFacts.

(** * The batch embedding script *)

Module BatchFacts.
Import Effects Batch.

Section Retry.
Context {Testcase Embedding : Type}.
Variable post : nat -> Outcome (BatchData Embedding).
Variable testcaseBatch : list Testcase.
Variable batchNumber maxRetries : nat.

Lemma waitTime_bounds (attempt : nat) :
  (1 <= attempt)%nat -> (2000 <= waitTime attempt <= 10000)%Z.
Proof.
  intros Ha. unfold waitTime.
  assert (2 ^ 1 <= 2 ^ Z.of_nat attempt)%Z by (apply Z.pow_le_mono_r; lia).
  lia.
Qed.

Lemma map_items_spec (c : Q) (t : Z) (m : string) (testcases : list Testcase)
    (embeddings : list (option Embedding)) (items : list (Item Testcase Embedding)) :
  map_items c t m batchNumber testcases embeddings = Some items ->
  map testcase items = testcases /\
  map embedding items = take (length testcases) embeddings /\
  Forall (fun item => error item = None /\ item_cost item = c /\ tokens item = t) items.
Proof.
  revert embeddings items. induction testcases as [| tc rest IH]; intros embeddings items.
  - intros [= <-]. repeat split. constructor.
  - simpl. destruct embeddings as [| e embeddings']; [discriminate |].
    destruct (map_items c t m batchNumber rest embeddings') as [items' |] eqn:Hrest;
      [| discriminate].
    intros [= <-]. destruct (IH _ _ Hrest) as (Htc & Hemb & Hall).
    simpl. rewrite Htc, Hemb. repeat split. constructor; [repeat split | exact Hall].
Qed.

Lemma on_reply_success (reply : Outcome (BatchData Embedding))
    (res : Result Testcase Embedding) :
  on_reply testcaseBatch batchNumber reply = Resolved res ->
  exists d,
    reply = Resolved d /\ status d = 200%Z /\
    success res = true /\ result_error res = None /\
    totalCost res = cost d /\ totalTokens res = total_tokens d /\
    batchSize res = length testcaseBatch /\
    map testcase (results res) = testcaseBatch /\
    map embedding (results res) = take (length testcaseBatch) (data d) /\
    Forall (fun item =>
        error item = None /\
        item_cost item = (cost d / inject_Z (Z.of_nat (length testcaseBatch)))%Q)
      (results res).
Proof.
  unfold on_reply. destruct reply as [e | d]; [discriminate |].
  destruct (Z.eqb_spec (status d) 200) as [Hst | Hst]; [| discriminate]. simpl.
  destruct (map_items _ _ _ _ _ _) as [items |] eqn:Hitems; [| discriminate].
  intros [= <-]. destruct (map_items_spec _ _ _ _ _ _ Hitems) as (Htc & Hemb & Hall).
  exists d. simpl. repeat split; try assumption.
  eapply Forall_impl; [exact Hall |]. intros item (He & Hc & _). split; assumption.
Qed.

Lemma posted_wait (attempt : nat) (events : list Event) :
  posted ((if (attempt <? maxRetries)%nat then [Wait (waitTime attempt)] else []) ++ events) =
  posted events.
Proof. destruct (attempt <? maxRetries)%nat; reflexivity. Qed.

Lemma waited_wait (attempt : nat) (events : list Event) :
  waited ((if (attempt <? maxRetries)%nat then [Wait (waitTime attempt)] else []) ++ events) =
  (if (attempt <? maxRetries)%nat then [waitTime attempt] else []) ++ waited events.
Proof. destruct (attempt <? maxRetries)%nat; reflexivity. Qed.

Lemma attempts_spec (remaining attempt : nat) (lastError : option string) :
  (attempt + remaining = S maxRetries)%nat ->
  let run := attempts post testcaseBatch batchNumber maxRetries remaining attempt lastError in
  exists k,
    (k <= remaining)%nat /\
    posted (fst run) = seq attempt k /\
    waited (fst run) = map waitTime (seq attempt (k - 1)) /\
    (forall a, (attempt <= a < attempt + k - 1)%nat ->
       exists e, on_reply testcaseBatch batchNumber (post a) = Rejected e) /\
    (((1 <= k)%nat /\
      exists res,
        on_reply testcaseBatch batchNumber (post (attempt + k - 1)) = Resolved res /\
        snd run = Resolved res) \/
     (k = remaining /\
      (forall a, (attempt <= a < attempt + k)%nat ->
         exists e, on_reply testcaseBatch batchNumber (post a) = Rejected e) /\
      ((k = 0%nat /\ lastError = None /\
        snd run = Rejected "Cannot read properties of undefined (reading 'message')") \/
       exists e,
         (if (k =? 0)%nat then lastError
          else match on_reply testcaseBatch batchNumber (post maxRetries) with
               | Rejected e' => Some e'
               | Resolved _ => None
               end) = Some e /\
         snd run = Resolved (failure testcaseBatch e)))).
Proof.
  revert attempt lastError.
  induction remaining as [| r IH]; intros attempt lastError Hsum; cbv zeta.
  - exists 0%nat. simpl. split; [lia |]. split; [reflexivity |]. split; [reflexivity |].
    split; [intros a Ha; lia |]. right. split; [reflexivity |].
    split; [intros a Ha; lia |].
    destruct lastError as [e |]; [right; eauto | left; auto].
  - cbn [attempts].
    destruct (on_reply testcaseBatch batchNumber (post attempt)) as [e | res] eqn:Hreply.
    + specialize (IH (S attempt) (Some e) ltac:(lia)). cbv zeta in IH.
      destruct (attempts post testcaseBatch batchNumber maxRetries r (S attempt) (Some e))
        as [events r0].
      destruct IH as (k' & Hk' & Hposted & Hwaited & Hrej & Hcase).
      cbn [fst snd] in *.
      assert (Hpos : (1 <= r)%nat -> (1 <= k')%nat).
      { destruct Hcase as [[H1 _] | [-> _]]; lia. }
      exists (S k'). split; [lia |]. split.
      { change (posted (Post attempt :: ?l)) with (attempt :: posted l).
        rewrite posted_wait, Hposted. reflexivity. }
      split.
      { change (waited (Post attempt :: ?l)) with (waited l).
        rewrite waited_wait, Hwaited.
        replace (S k' - 1)%nat with k' by lia.
        destruct (Nat.ltb_spec attempt maxRetries) as [Hlt | Hge].
        - destruct k' as [| k'']; [lia |]. simpl. rewrite Nat.sub_0_r. reflexivity.
        - assert (k' = 0%nat) as -> by lia. reflexivity. }
      split.
      { intros a Ha. destruct (Nat.eq_dec a attempt) as [-> | Hne]; [eauto |].
        apply Hrej. lia. }
      destruct Hcase as [(H1 & res & Hres & Hrun) | (-> & Hall & Hend)].
      * left. split; [lia |]. exists res. split; [| exact Hrun].
        replace (attempt + S k' - 1)%nat with (S attempt + k' - 1)%nat by lia. exact Hres.
      * right. split; [reflexivity |]. split.
        { intros a Ha. destruct (Nat.eq_dec a attempt) as [-> | Hne]; [eauto |].
          apply Hall. lia. }
        right. destruct Hend as [(_ & Hnone & _) | (e0 & He0 & Hrun)]; [discriminate |].
        exists e0. split; [| exact Hrun]. cbn [Nat.eqb].
        destruct r as [| r'].
        -- simpl in He0. injection He0 as <-.
           replace maxRetries with attempt by lia. rewrite Hreply. reflexivity.
        -- exact He0.
    + exists 1%nat. cbn [fst snd]. split; [lia |]. split; [reflexivity |].
      split; [reflexivity |]. split; [intros a Ha; lia |].
      left. split; [lia |]. exists res. split; [| reflexivity].
      replace (attempt + 1 - 1)%nat with attempt by lia. exact Hreply.
Qed.

(** Requests for one batch are sent for the attempts 1, 2, ... in turn, at
    most [maxRetries] of them and only after every earlier one has failed;
    the script waits between two requests and never after the last one,
    and the wait after attempt [n] is [min(1000 * 2^n, 10000)] ms, between
    two and ten seconds. *)
Theorem retry_schedule :
  let events := fst (generateBatchEmbeddings post testcaseBatch batchNumber maxRetries) in
  exists k,
    (k <= maxRetries)%nat /\
    posted events = seq 1 k /\
    waited events = map waitTime (seq 1 (k - 1)) /\
    Forall (fun ms => (2000 <= ms <= 10000)%Z) (waited events) /\
    (forall a, (1 <= a < k)%nat ->
       exists e, on_reply testcaseBatch batchNumber (post a) = Rejected e).
Proof.
  cbv zeta. unfold generateBatchEmbeddings.
  destruct (attempts_spec maxRetries 1 None ltac:(lia))
    as (k & Hk & Hposted & Hwaited & Hrej & _).
  exists k. split; [exact Hk |]. split; [exact Hposted |]. split; [exact Hwaited |].
  split.
  - rewrite Hwaited. apply Forall_forall. intros ms Hin.
    apply list_elem_of_fmap in Hin as (a & -> & Ha).
    apply list_elem_of_In, in_seq in Ha. apply waitTime_bounds. lia.
  - intros a Ha. apply Hrej. lia.
Qed.

(** With at least one attempt allowed, a batch succeeds with the first
    acceptable reply among the attempts, and otherwise, after exactly
    [maxRetries] requests, ends in a failure result that carries the error
    of the last attempt; it never ends in a rejected promise. *)
Theorem retry_outcome :
  (1 <= maxRetries)%nat ->
  let run := generateBatchEmbeddings post testcaseBatch batchNumber maxRetries in
  (exists a res,
     (1 <= a <= maxRetries)%nat /\
     on_reply testcaseBatch batchNumber (post a) = Resolved res /\
     (forall a', (1 <= a' < a)%nat ->
        exists e, on_reply testcaseBatch batchNumber (post a') = Rejected e) /\
     posted (fst run) = seq 1 a /\
     snd run = Resolved res /\ success res = true) \/
  (exists e,
     (forall a, (1 <= a <= maxRetries)%nat ->
        exists e', on_reply testcaseBatch batchNumber (post a) = Rejected e') /\
     on_reply testcaseBatch batchNumber (post maxRetries) = Rejected e /\
     posted (fst run) = seq 1 maxRetries /\
     snd run = Resolved (failure testcaseBatch e)).
Proof.
  intros Hmax. cbv zeta. unfold generateBatchEmbeddings.
  destruct (attempts_spec maxRetries 1 None ltac:(lia))
    as (k & Hk & Hposted & _ & Hrej & Hcase).
  destruct Hcase as [(H1 & res & Hres & Hrun) | (-> & Hall & Hend)].
  - left. exists k, res. replace (1 + k - 1)%nat with k in Hres by lia.
    split; [lia |]. split; [exact Hres |]. split; [intros a' Ha'; apply Hrej; lia |].
    split; [exact Hposted |]. split; [exact Hrun |].
    destruct (on_reply_success _ _ Hres) as (d & _ & _ & Hs & _). exact Hs.
  - right. destruct Hend as [(H0 & _) | (e & He & Hrun)]; [lia |].
    destruct (Nat.eqb_spec maxRetries 0) as [H0 | _]; [lia |].
    exists e. split; [intros a Ha; apply Hall; lia |]. split.
    + destruct (on_reply testcaseBatch batchNumber (post maxRetries)); congruence.
    + split; [exact Hposted | exact Hrun].
Qed.


End Retry.

Lemma filter_none {A : Type} (f : A -> bool) (l : list A) :
  (forall x, In x l -> f x = false) -> List.filter f l = [].
Proof.
  induction l as [| x l IH]; intros Hall; [reflexivity |]. simpl.
  rewrite (Hall x) by (left; reflexivity). apply IH.
  intros y Hy. apply Hall. right. exact Hy.
Qed.

Lemma filter_all {A : Type} (f : A -> bool) (l : list A) :
  Forall (fun x => f x = true) l -> List.filter f l = l.
Proof.
  induction 1 as [| x l Hx _ IH]; [reflexivity |]. simpl. rewrite Hx, IH. reflexivity.
Qed.

(** After the last failed attempt every test case of the batch is returned
    once, in order, marked with the error and with cost 0; such items are
    never passed to [insertMany] and all count as failed. *)
Theorem failed_batch_is_not_inserted {Testcase Embedding : Type}
    (insertMany : list (Document Testcase Embedding) -> Outcome nat)
    (testcaseBatch : list Testcase) (message : string) :
  message <> "" ->
  let res := failure (Embedding:=Embedding) testcaseBatch message in
  map testcase (results res) = testcaseBatch /\
  Forall (fun item =>
      error item = Some message /\ embedding item = None /\ (item_cost item == 0)%Q)
    (results res) /\
  (totalCost res == 0)%Q /\
  insertTestcasesBatch insertMany (results res) =
    ({| inserted := 0; failed := length testcaseBatch |}, false).
Proof.
  intros Hne. cbv zeta. cbn [results failure totalCost].
  split; [rewrite map_map; apply map_id |]. split.
  { apply Forall_forall. intros item Hin.
    apply list_elem_of_fmap in Hin as (tc & -> & _). repeat split. }
  split; [reflexivity |].
  unfold insertTestcasesBatch.
  destruct testcaseBatch as [| tc rest]; [reflexivity |].
  cbn [map]. set (items := _ :: _).
  assert (Hnone : List.filter (fun item => negb (has_error item)) items = []).
  { apply filter_none. intros item Hin.
    assert (Herr : error item = Some message).
    { destruct Hin as [<- | Hin]; [reflexivity |].
      apply in_map_iff in Hin as (tc' & <- & _). reflexivity. }
    unfold has_error. rewrite Herr. destruct message; [contradiction | reflexivity]. }
  rewrite Hnone. subst items. simpl. rewrite length_map. reflexivity.
Qed.

Lemma chunks_from_concat {A : Type} (n fuel : nat) (arr : list A) :
  (0 < n)%nat -> (length arr <= fuel)%nat -> concat (chunks_from fuel n arr) = arr.
Proof.
  intros Hn. revert arr. induction fuel as [| fuel IH]; intros arr Hlen.
  - destruct arr; [reflexivity | simpl in Hlen; lia].
  - destruct arr as [| x arr]; [reflexivity |].
    change (chunks_from (S fuel) n (x :: arr))
      with (take n (x :: arr) :: chunks_from fuel n (drop n (x :: arr))).
    cbn [concat]. rewrite IH; [apply take_drop |].
    rewrite length_drop. simpl in *. lia.
Qed.

Lemma chunks_from_Forall {A : Type} (P : A -> Prop) (n fuel : nat) (arr : list A) :
  (0 < n)%nat -> Forall P arr ->
  Forall (fun chunk => chunk <> [] /\ (length chunk <= n)%nat /\ Forall P chunk)
    (chunks_from fuel n arr).
Proof.
  intros Hn. revert arr. induction fuel as [| fuel IH]; intros arr Harr.
  - destruct arr; constructor.
  - destruct arr as [| x arr]; [constructor |].
    change (chunks_from (S fuel) n (x :: arr))
      with (take n (x :: arr) :: chunks_from fuel n (drop n (x :: arr))).
    constructor.
    + split; [destruct n; [lia | discriminate] |].
      split; [rewrite length_take; lia | apply Forall_take, Harr].
    + apply IH, Forall_drop, Harr.
Qed.

Lemma fold_left_concat {A B : Type} (f : B -> A -> B) (ls : list (list A)) (b : B) :
  fold_left f (concat ls) b = fold_left (fun acc l => fold_left f l acc) ls b.
Proof.
  revert b. induction ls as [| l ls IH]; intros b; [reflexivity |].
  simpl. rewrite fold_left_app. apply IH.
Qed.

Lemma fold_left_map {A B C : Type} (f : C -> B -> C) (g : A -> B) (l : list A) (c : C) :
  fold_left f (map g l) c = fold_left (fun acc a => f acc (g a)) l c.
Proof. revert c. induction l as [| a l IH]; intros c; [reflexivity | apply IH]. Qed.

Lemma map_fst_imap {A B : Type} (f : nat -> A -> A * B) (l : list A) :
  (forall i a, fst (f i a) = a) -> map fst (imap f l) = l.
Proof.
  revert f. induction l as [| a l IH]; intros f Hf; [reflexivity |].
  simpl. rewrite Hf. f_equal. apply IH. intros i a'. apply Hf.
Qed.

Section Accounting.
Context {Testcase Embedding : Type}.
Variable post : nat -> nat -> Outcome (BatchData Embedding).
Variable insertMany : list (Document Testcase Embedding) -> Outcome nat.
Hypothesis inserted_all :
  forall docs n, insertMany docs = Resolved n -> n = length docs.

Lemma insert_sub_batches (subs : list (list (Item Testcase Embedding))) (t : Totals) :
  Forall (fun sub => sub <> [] /\ (length sub <= MONGODB_BATCH_SIZE)%nat /\
                     Forall (fun item => negb (has_error item) = true) sub) subs ->
  let t' := fold_left (insert_sub_batch insertMany) subs t in
  (totalInserted t' + totalFailed t' =
     totalInserted t + totalFailed t + length (concat subs))%nat /\
  processedCount t' = processedCount t.
Proof.
  intros Hsubs. revert t. induction Hsubs as [| sub subs (Hne & _ & Hok) _ IH]; intros t.
  - simpl. split; [lia | reflexivity].
  - cbn [fold_left concat]. cbv zeta in *.
    destruct (IH (insert_sub_batch insertMany t sub)) as [-> ->].
    split; [| reflexivity]. rewrite length_app.
    unfold insert_sub_batch, insertTestcasesBatch. cbn [totalInserted totalFailed].
    rewrite (filter_all _ sub Hok).
    destruct sub as [| item sub']; [contradiction |].
    cbn [map]. set (docs := _ :: _).
    assert (Hdocs : length docs = length (item :: sub')).
    { subst docs. simpl. rewrite length_map. reflexivity. }
    destruct (insertMany docs) as [e | n] eqn:Hins; cbn [fst inserted failed].
    + lia.
    + rewrite (inserted_all _ _ Hins). lia.
Qed.

Lemma account_batch (t : Totals) (b : list Testcase * nat) :
  (totalInserted t + totalFailed t = processedCount t)%nat ->
  let t' := account insertMany t
              (snd (generateBatchEmbeddings (post (snd b)) (fst b) (snd b) 3)) in
  (totalInserted t' + totalFailed t' = processedCount t')%nat /\
  processedCount t' = (processedCount t + length (fst b))%nat.
Proof.
  intros Hinv. cbv zeta. unfold generateBatchEmbeddings.
  destruct (attempts_spec (post (snd b)) (fst b) (snd b) 3 3 1 None ltac:(lia))
    as (k & _ & _ & _ & _ & Hcase).
  destruct Hcase as [(_ & res & Hres & ->) | (-> & _ & Hend)].
  - destruct (on_reply_success _ _ _ _ Hres)
      as (d & _ & _ & Hs & _ & _ & _ & Hsize & Htc & _ & Hall).
    assert (Hok : Forall (fun item => negb (has_error item) = true) (results res)).
    { eapply Forall_impl; [exact Hall |]. intros item [He _]. unfold has_error.
      rewrite He. reflexivity. }
    assert (Hlen : length (results res) = length (fst b)).
    { rewrite <- (length_map testcase (results res)), Htc. reflexivity. }
    unfold account. rewrite Hs, (filter_all _ _ Hok).
    match goal with
    | |- context [fold_left (insert_sub_batch insertMany) ?subs ?t0] =>
        destruct (insert_sub_batches subs t0) as [Hsum Hproc]
    end.
    { apply chunks_from_Forall; [unfold MONGODB_BATCH_SIZE; lia | exact Hok]. }
    cbv zeta in Hsum, Hproc. cbn [totalInserted totalFailed processedCount] in *.
    unfold chunks in *.
    rewrite chunks_from_concat in Hsum by (unfold MONGODB_BATCH_SIZE; lia).
    rewrite Hproc. split; lia.
  - destruct Hend as [(H0 & _) | (e & _ & ->)]; [discriminate |].
    unfold account. cbn [success failure batchSize totalInserted totalFailed processedCount].
    split; lia.
Qed.

Lemma account_batches (bs : list (list Testcase * nat)) (t : Totals) :
  (totalInserted t + totalFailed t = processedCount t)%nat ->
  let t' :=
    fold_left
      (fun acc b =>
         account insertMany acc
           (snd (generateBatchEmbeddings (post (snd b)) (fst b) (snd b) 3))) bs t in
  (totalInserted t' + totalFailed t' = processedCount t')%nat /\
  processedCount t' = (processedCount t + length (concat (map fst bs)))%nat.
Proof.
  revert t. induction bs as [| b bs IH]; intros t Hinv; cbv zeta.
  - simpl. split; [exact Hinv | lia].
  - cbn [fold_left map concat].
    destruct (account_batch t b Hinv) as [Hinv' Hproc]. cbv zeta in Hinv', Hproc.
    destruct (IH _ Hinv') as [Hfinal Hcount]. cbv zeta in Hfinal, Hcount.
    split; [exact Hfinal |]. rewrite Hcount, Hproc, length_app. lia.
Qed.

(** If [insertMany], whenever it succeeds, reports as many inserted
    documents as it was given, then at the end of [main] every test case of
    the input has been processed, and each is counted exactly once, as
    inserted or as failed. *)
Theorem every_testcase_is_accounted_for (testcases : list Testcase) :
  let t := main post insertMany testcases in
  processedCount t = length testcases /\
  (totalInserted t + totalFailed t = length testcases)%nat.
Proof.
  cbv zeta. unfold main.
  assert (Hgroups :
    fold_left (group post insertMany) (chunks CONCURRENT_LIMIT (batches testcases)) zero =
    fold_left
      (fun acc b =>
         account insertMany acc
           (snd (generateBatchEmbeddings (post (snd b)) (fst b) (snd b) 3)))
      (batches testcases) zero).
  { rewrite <- (chunks_from_concat CONCURRENT_LIMIT (length (batches testcases))
                  (batches testcases)) at 2
      by (unfold CONCURRENT_LIMIT; lia).
    rewrite fold_left_concat. unfold chunks.
    generalize (chunks_from (length (batches testcases)) CONCURRENT_LIMIT
                  (batches testcases)) zero.
    intros groups. induction groups as [| g groups IH]; intros t; [reflexivity |].
    cbn [fold_left]. rewrite IH. f_equal. unfold group. apply fold_left_map. }
  rewrite Hgroups.
  destruct (account_batches (batches testcases) zero eq_refl) as [Hinv Hcount].
  cbv zeta in Hinv, Hcount.
  assert (Hlen : length (concat (map fst (batches testcases))) = length testcases).
  { unfold batches. rewrite map_fst_imap by reflexivity.
    unfold chunks. rewrite chunks_from_concat by (unfold BATCH_SIZE; lia). reflexivity. }
  rewrite Hlen in Hcount. simpl in Hcount. split; [exact Hcount | lia].
Qed.

End Accounting.

Lemma every_testcase_is_accounted_for_witness :
  let t := main (fun _ => recovers) (fun docs => Resolved (length docs))
             ["TC_1"; "TC_2"; "TC_3"] in
  (totalInserted t + totalFailed t = 3)%nat.
Proof.
  cbv zeta.
  exact (proj2 (every_testcase_is_accounted_for (fun _ => recovers)
                  (fun docs => Resolved (length docs))
                  (fun docs n H => eq_sym (f_equal (fun o => match o with
                                                             | Resolved m => m
                                                             | Rejected _ => n
                                                             end) H))
                  ["TC_1"; "TC_2"; "TC_3"])).
Defined.

Lemma retry_outcome_witness :
  snd (generateBatchEmbeddings recovers ["TC_1"; "TC_2"] 1 3) <>
    Rejected "Cannot read properties of undefined (reading 'message')" /\
  posted (fst (generateBatchEmbeddings down ["TC_1"; "TC_2"] 1 3)) = [1; 2; 3]%nat.
Proof.
  split.
  - destruct (retry_outcome recovers ["TC_1"; "TC_2"] 1 3 ltac:(lia))
      as [(a & res & _ & _ & _ & _ & -> & _) | (e & _ & _ & _ & ->)]; discriminate.
  - destruct (retry_outcome down ["TC_1"; "TC_2"] 1 3 ltac:(lia))
      as [(a & res & _ & Hres & _) | (e & _ & _ & -> & _)];
      [discriminate | reflexivity].
Defined.


Lemma failed_batch_is_not_inserted_witness :
  fst (insertTestcasesBatch (fun _ : list (Document string (list Q)) => Resolved 0%nat)
         (results (failure ["TC_1"; "TC_2"] "connect ECONNREFUSED"))) =
    {| inserted := 0; failed := 2 |}.
Proof.
  destruct (failed_batch_is_not_inserted
              (fun _ : list (Document string (list Q)) => Resolved 0%nat)
              ["TC_1"; "TC_2"] "connect ECONNREFUSED" ltac:(discriminate))
    as (_ & _ & _ & ->).
  reflexivity.
Defined.

End BatchFacts.

(** * The environment file *)

Module EnvFacts.
Import Env.

Lemma append_assoc (s t u : string) : (s +:+ t) +:+ u = s +:+ (t +:+ u).
Proof.
  induction s as [| c s IH]; [reflexivity |].
  change (String c ((s +:+ t) +:+ u) = String c (s +:+ (t +:+ u))). f_equal. exact IH.
Qed.

Lemma append_nil_r (s : string) : s +:+ "" = s.
Proof.
  induction s as [| c s IH]; [reflexivity |].
  change (String c (s +:+ "") = String c s). f_equal. exact IH.
Qed.

Lemma append_cons (c : ascii) (s t : string) : String c s +:+ t = String c (s +:+ t).
Proof. reflexivity. Qed.

Lemma has_char_app (c : ascii) (s t : string) :
  has_char c (s +:+ t) = has_char c s || has_char c t.
Proof.
  induction s as [| c' s IH]; simpl; [reflexivity |].
  rewrite IH, orb_assoc. reflexivity.
Qed.

Lemma split_on_nonempty (sep : ascii) (s : string) : split_on sep s <> [].
Proof.
  destruct s as [| c s]; simpl; [discriminate |].
  destruct (Ascii.eqb c sep); [discriminate |].
  destruct (split_on sep s); discriminate.
Qed.

Lemma split_on_plain (sep : ascii) (s : string) :
  has_char sep s = false -> split_on sep s = [s].
Proof.
  induction s as [| c s IH]; simpl; [reflexivity |].
  destruct (Ascii.eqb c sep); simpl; [discriminate |].
  intros Hs. rewrite IH by exact Hs. reflexivity.
Qed.

Lemma split_on_app (sep : ascii) (s t : string) :
  has_char sep s = false ->
  split_on sep (s +:+ String sep t) = s :: split_on sep t.
Proof.
  induction s as [| c s IH]; simpl.
  - intros _. rewrite Ascii.eqb_refl. reflexivity.
  - destruct (Ascii.eqb c sep); simpl; [discriminate |].
    intros Hs. rewrite IH by exact Hs. reflexivity.
Qed.

Lemma join_split (sep : ascii) (s : string) :
  join (String sep "") (split_on sep s) = s.
Proof.
  induction s as [| c s IH]; [reflexivity |].
  simpl split_on. destruct (Ascii.eqb_spec c sep) as [-> | Hne].
  - pose proof (split_on_nonempty sep s) as Hne.
    destruct (split_on sep s) as [| piece rest]; [contradiction |].
    change (join (String sep "") ("" :: piece :: rest))
      with (String sep (join (String sep "") (piece :: rest))).
    rewrite IH. reflexivity.
  - pose proof (split_on_nonempty sep s) as Hne'.
    destruct (split_on sep s) as [| piece rest]; [contradiction |].
    destruct rest as [| piece' rest'].
    + simpl in *. rewrite IH. reflexivity.
    + change (join (String sep "") (String c piece :: piece' :: rest'))
        with (String c (join (String sep "") (piece :: piece' :: rest'))).
      rewrite IH. reflexivity.
Qed.

Lemma remove_all_plain (c : ascii) (s : string) :
  has_char c s = false -> remove_all c s = s.
Proof.
  induction s as [| c' s IH]; simpl; [reflexivity |].
  destruct (Ascii.eqb c' c); simpl; [discriminate |].
  intros Hs. rewrite IH by exact Hs. reflexivity.
Qed.

Lemma remove_all_app (c : ascii) (s t : string) :
  remove_all c (s +:+ t) = remove_all c s +:+ remove_all c t.
Proof.
  induction s as [| c' s IH]; simpl; [reflexivity |].
  destruct (Ascii.eqb c' c); simpl; rewrite IH; reflexivity.
Qed.

Lemma has_char_remove_all (c : ascii) (s : string) : has_char c (remove_all c s) = false.
Proof.
  induction s as [| c' s IH]; simpl; [reflexivity |].
  destruct (Ascii.eqb c' c) eqn:E; simpl; [exact IH | rewrite E; exact IH].
Qed.

Lemma has_char_remove_other (c d : ascii) (s : string) :
  has_char c s = false -> has_char c (remove_all d s) = false.
Proof.
  induction s as [| c' s IH]; simpl; [reflexivity |].
  intros H. apply orb_false_iff in H as [Hc Hs].
  destruct (Ascii.eqb c' d); simpl; [apply IH, Hs |].
  rewrite Hc. apply IH, Hs.
Qed.

(** The line that [post] writes for one entry. *)
Lemma post_lines (entries : list (string * string)) (envContent : string) :
  fold_left
    (fun envContent kv =>
       envContent +:+ fst kv +:+ "=" +:+ String quote (snd kv) +:+ String quote ""
         +:+ String line_feed "")
    entries envContent =
  envContent +:+
  fold_right
    (fun kv rest =>
       (fst kv +:+ String "=" (String quote (snd kv +:+ String quote "")))
         +:+ String line_feed rest)
    "" entries.
Proof.
  revert envContent. induction entries as [| kv entries IH]; intros envContent.
  - simpl. rewrite append_nil_r. reflexivity.
  - cbn [fold_left fold_right]. rewrite IH. rewrite !append_assoc.
    do 2 f_equal. rewrite !append_cons, !append_assoc. reflexivity.
Qed.

Lemma read_written_line (envVars : gmap string string) (key value : string) :
  plain_key key = true -> plain_value value = true ->
  read_line envVars (key +:+ String "=" (String quote (value +:+ String quote ""))) =
  <[key := value]> envVars.
Proof.
  unfold plain_key, plain_value. intros Hk Hv.
  repeat (apply andb_true_iff in Hk as [Hk ?]).
  apply andb_true_iff in Hv as [Hq Hl].
  repeat match goal with H : negb _ = true |- _ => apply negb_true_iff in H end.
  unfold read_line. rewrite split_on_app by assumption.
  match goal with H : String.eqb (trim key) key = true |- _ =>
    apply String.eqb_eq in H; rewrite H end.
  replace (is_empty key) with false by (symmetry; assumption).
  replace (startsWith key "#") with false by (symmetry; assumption). cbn [negb andb].
  rewrite (join_split "="). unfold assign.
  replace (key =? "__proto__")%string with false by (symmetry; assumption).
  f_equal. cbn [remove_all]. rewrite Ascii.eqb_refl.
  rewrite remove_all_app, (remove_all_plain quote value) by assumption.
  apply append_nil_r.
Qed.

Lemma written_line_plain (key value : string) :
  plain_key key = true -> plain_value value = true ->
  has_char line_feed (key +:+ String "=" (String quote (value +:+ String quote ""))) = false.
Proof.
  unfold plain_key, plain_value. intros Hk Hv.
  repeat (apply andb_true_iff in Hk as [Hk ?]).
  apply andb_true_iff in Hv as [Hq Hl].
  repeat match goal with H : negb _ = true |- _ => apply negb_true_iff in H end.
  rewrite has_char_app. cbn [has_char]. rewrite has_char_app.
  replace (has_char line_feed key) with false by (symmetry; assumption).
  rewrite Hl. reflexivity.
Qed.

Lemma get_post (entries : list (string * string)) :
  Forall (fun kv => plain_key (fst kv) = true /\ plain_value (snd kv) = true) entries ->
  get (post entries) = fold_left (fun m kv => <[fst kv := snd kv]> m) entries ∅.
Proof.
  intros Hplain. unfold get, post. rewrite post_lines.
  change ("" +:+ ?x) with x.
  generalize (∅ : gmap string string).
  induction Hplain as [| [key value] entries [Hk Hv] _ IH]; intros envVars.
  - reflexivity.
  - cbn [fold_right fold_left fst snd] in *.
    rewrite split_on_app by (apply written_line_plain; assumption).
    cbn [fold_left]. rewrite read_written_line by assumption. apply IH.
Qed.

Lemma lookup_fold_insert (entries : list (string * string)) (k v : string) :
  NoDup (map fst entries) ->
  fold_left (fun m kv => <[fst kv := snd kv]> m) entries (∅ : gmap string string) !! k = Some v <->
  In (k, v) entries.
Proof.
  induction entries as [| [k0 v0] entries IH] using rev_ind; intros Hnd.
  - cbn [fold_left]. rewrite lookup_empty.
    split; [discriminate | contradiction].
  - rewrite fold_left_app. cbn [fold_left fst snd].
    rewrite map_app in Hnd. apply NoDup_app in Hnd as (Hnd & Hfresh & _).
    rewrite in_app_iff. destruct (decide (k = k0)) as [-> | Hne].
    + rewrite lookup_insert_eq. split.
      * intros [= ->]. right. left. reflexivity.
      * intros [Hin | [[= ->] | []]]; [| reflexivity].
        exfalso. apply (Hfresh k0); [| simpl; left; reflexivity].
        apply list_elem_of_In, in_map_iff. exists (k0, v). split; [reflexivity | exact Hin].
    + rewrite lookup_insert_ne by congruence. rewrite IH by exact Hnd.
      split; [intros H; left; exact H |].
      intros [Hin | [[= -> _] | []]]; [exact Hin | contradiction].
Qed.

(** Variables written by [POST /api/env] are read back unchanged by
    [GET /api/env], provided every key is plain (not empty, without [=],
    line feed or white space at its ends, not starting with [#], not
    ["__proto__"]) and every value is free of double quotes and line
    feeds. *)
Theorem env_round_trip (entries : list (string * string)) (k v : string) :
  Forall (fun kv => plain_key (fst kv) = true /\ plain_value (snd kv) = true) entries ->
  NoDup (map fst entries) ->
  get (post entries) !! k = Some v <-> In (k, v) entries.
Proof.
  intros Hplain Hnd. rewrite get_post by exact Hplain. apply lookup_fold_insert, Hnd.
Qed.

Lemma env_round_trip_witness :
  get (post settings) !! "MONGODB_URI" =
    Some "mongodb+srv://host/?retry=true&w=majority".
Proof.
  apply (env_round_trip settings).
  - unfold settings. repeat constructor.
  - apply (bool_decide_unpack (NoDup (map fst settings))). vm_compute. exact I.
  - right. left. reflexivity.
Defined.

Lemma split_on_pieces (sep c : ascii) (s : string) :
  (c = sep \/ has_char c s = false) ->
  Forall (fun piece => has_char c piece = false) (split_on sep s).
Proof.
  induction s as [| c' s IH]; intros Hc.
  - repeat constructor.
  - simpl. destruct (Ascii.eqb_spec c' sep) as [-> | Hne].
    + constructor; [reflexivity |]. apply IH.
      destruct Hc as [-> | Hc]; [left; reflexivity |].
      simpl in Hc. apply orb_false_iff in Hc as [_ Hc]. right. exact Hc.
    + assert (Hc' : Ascii.eqb c' c = false).
      { destruct Hc as [-> | Hc]; [apply Ascii.eqb_neq, Hne |].
        simpl in Hc. apply orb_false_iff in Hc as [Hc _]. exact Hc. }
      assert (Hrest : Forall (fun piece => has_char c piece = false) (split_on sep s)).
      { apply IH. destruct Hc as [-> | Hc]; [left; reflexivity |].
        simpl in Hc. apply orb_false_iff in Hc as [_ Hc]. right. exact Hc. }
      destruct (split_on sep s) as [| piece rest].
      * repeat constructor. simpl. rewrite Hc'. reflexivity.
      * inversion Hrest as [| ? ? Hpiece Hrest']; subst.
        constructor; [| exact Hrest']. simpl. rewrite Hc', Hpiece. reflexivity.
Qed.

Lemma has_char_join (c : ascii) (sep : string) (parts : list string) :
  has_char c sep = false ->
  Forall (fun piece => has_char c piece = false) parts ->
  has_char c (join sep parts) = false.
Proof.
  intros Hsep Hparts. induction Hparts as [| part rest Hpart Hrest IH]; [reflexivity |].
  destruct rest as [| part' rest']; [exact Hpart |].
  change (join sep (part :: part' :: rest'))
    with (part +:+ sep +:+ join sep (part' :: rest')).
  rewrite !has_char_app, Hpart, Hsep, IH. reflexivity.
Qed.

Lemma has_char_trimStart (c : ascii) (s : string) :
  has_char c s = false -> has_char c (trimStart s) = false.
Proof.
  induction s as [| c' s IH]; [reflexivity |]. intros Hs. simpl.
  destruct (is_white c'); [| exact Hs].
  apply IH. simpl in Hs. apply orb_false_iff in Hs as [_ Hs]. exact Hs.
Qed.

Lemma has_char_trimEnd (c : ascii) (s : string) :
  has_char c s = false -> has_char c (trimEnd s) = false.
Proof.
  induction s as [| c' s IH]; [reflexivity |]. intros Hs. simpl in Hs.
  apply orb_false_iff in Hs as [Hc Hs]. specialize (IH Hs). simpl.
  destruct (trimEnd s) as [| c'' rest].
  - destruct (is_white c'); [reflexivity |]. simpl. rewrite Hc. reflexivity.
  - simpl in *. rewrite Hc. exact IH.
Qed.

Lemma has_char_trim (c : ascii) (s : string) :
  has_char c s = false -> has_char c (trim s) = false.
Proof. intros Hs. apply has_char_trimEnd, has_char_trimStart, Hs. Qed.

Lemma read_line_keeps (P : string -> string -> Prop) (envVars : gmap string string)
    (line : string) :
  has_char line_feed line = false ->
  (forall key value,
     key <> "" -> key <> "__proto__" ->
     has_char "=" key = false -> has_char line_feed key = false ->
     has_char quote value = false -> has_char line_feed value = false ->
     P key value) ->
  (forall k v, envVars !! k = Some v -> P k v) ->
  forall k v, read_line envVars line !! k = Some v -> P k v.
Proof.
  intros Hline HP Hvars k v. unfold read_line.
  pose proof (split_on_pieces "=" "=" line (or_introl eq_refl)) as Heq.
  pose proof (split_on_pieces "=" line_feed line (or_intror Hline)) as Hlf.
  destruct (split_on "=" line) as [| key valueParts]; [apply Hvars |].
  inversion Heq as [| ? ? Hkey_eq _]; subst.
  inversion Hlf as [| ? ? Hkey_lf Hparts_lf]; subst.
  destruct (negb (is_empty key) && negb (is_empty (trim key)) && negb (startsWith key "#"))
    eqn:Hcond; [| apply Hvars].
  apply andb_true_iff in Hcond as [Hcond _].
  apply andb_true_iff in Hcond as [_ Htrim]. apply negb_true_iff in Htrim.
  unfold assign. destruct (String.eqb_spec (trim key) "__proto__") as [_ | Hproto];
    [apply Hvars |].
  destruct (decide (k = trim key)) as [-> | Hne].
  - rewrite lookup_insert_eq. intros [= <-]. apply HP.
    + intros Hempty. rewrite Hempty in Htrim. discriminate.
    + exact Hproto.
    + apply has_char_trim, Hkey_eq.
    + apply has_char_trim, Hkey_lf.
    + apply has_char_remove_all.
    + apply has_char_remove_other, has_char_join; [reflexivity | exact Hparts_lf].
  - rewrite lookup_insert_ne by congruence. apply Hvars.
Qed.

(** Whatever the file holds, the variables that [GET /api/env] returns
    have no double quote and no line feed in their values, and their keys
    are not empty, hold no [=] and no line feed and are never
    ["__proto__"]: a value that was written with a double quote is read
    back without it. *)
Theorem env_values_lose_quotes (envContent k v : string) :
  get envContent !! k = Some v ->
  has_char quote v = false /\ has_char line_feed v = false /\
  k <> "" /\ k <> "__proto__" /\
  has_char "=" k = false /\ has_char line_feed k = false.
Proof.
  unfold get.
  pose proof (split_on_pieces line_feed line_feed envContent (or_introl eq_refl)) as Hlines.
  revert k v.
  assert (Hstart : forall k v, (∅ : gmap string string) !! k = Some v ->
            has_char quote v = false /\ has_char line_feed v = false /\
            k <> "" /\ k <> "__proto__" /\
            has_char "=" k = false /\ has_char line_feed k = false).
  { intros k v Hkv. rewrite lookup_empty in Hkv. discriminate. }
  revert Hstart. generalize (∅ : gmap string string).
  induction Hlines as [| line lines Hline _ IH]; intros envVars Hvars; [exact Hvars |].
  cbn [fold_left]. apply IH.
  apply (read_line_keeps
           (fun k v => has_char quote v = false /\ has_char line_feed v = false /\
                       k <> "" /\ k <> "__proto__" /\
                       has_char "=" k = false /\ has_char line_feed k = false)
           envVars line Hline); [| exact Hvars].
  intros key value H1 H2 H3 H4 H5 H6. repeat split; assumption.
Qed.

Lemma env_values_lose_quotes_witness :
  get quoted !! "GREETING" = Some "say hi" /\ has_char quote "say hi" = false.
Proof.
  assert (Hget : get quoted !! "GREETING" = Some "say hi") by (vm_compute; reflexivity).
  split; [exact Hget |].
  exact (proj1 (env_values_lose_quotes quoted "GREETING" "say hi" Hget)).
Defined.

End EnvFacts.
